(** * SaaS reviews scraper: a shallow embedding of the harvesting pipeline

    The development follows the layout of the repository:
    - [Js], [JsMore]  the JavaScript values and built-ins the code uses;
    - [Helpers]       [utils/helpers.js];
    - [BaseScraper]   [scrapers/base-scraper.js];
    - [G2Scraper], [CapterraScraper], [TrustRadiusScraper]  the adapters;
    - [Index]         [index.js], the orchestrator.

    What the code takes from outside is a parameter: the moment library
    ([Moment]), the browser and the disk ([PageDriver]), the sort of the
    engine ([ArraySort]).  [IsoDates], [Sim] and [V8] are instances to run
    the code on.

    Strings are sequences of code units below 256 (Latin-1), which is what
    [Stdlib.Strings.String] provides; numbers are exact rationals. *)

From Stdlib Require Import ZArith QArith Qround Lqa Ascii String DecimalString.
From stdpp Require Import gmap strings list sorting.

Local Open Scope string_scope.

(** ** JavaScript values and built-ins *)

Module Js.

(** A value held in a text field of a scraped record. *)
Inductive jsval : Type :=
  | JUndefined
  | JNull
  | JStr (s : string).

Global Instance jsval_eq_dec : EqDecision jsval.
Proof. solve_decision. Defined.

(** ToBoolean on such a value: the empty string is falsy. *)
Definition truthy (v : jsval) : bool :=
  match v with
  | JStr EmptyString => false
  | JStr _ => true
  | _ => false
  end.

(** [v || ''] for a text field. *)
Definition orEmpty (v : jsval) : string :=
  match v with
  | JStr s => s
  | _ => ""
  end.

(** [String.prototype.toLowerCase] on one code unit below 256:
    A-Z, and the Latin-1 capitals U+00C0..U+00DE except the sign U+00D7. *)
Definition lowerChar (c : ascii) : ascii :=
  let n := nat_of_ascii c in
  if ((65 <=? n) && (n <=? 90))%nat then ascii_of_nat (n + 32)
  else if ((192 <=? n) && (n <=? 222) && negb (n =? 215))%nat then ascii_of_nat (n + 32)
  else c.

Fixpoint toLowerCase (s : string) : string :=
  match s with
  | EmptyString => EmptyString
  | String c t => String (lowerChar c) (toLowerCase t)
  end.

(** The class [\s] of a regular expression, on code units below 256:
    TAB, LF, VT, FF, CR, SPACE and the no-break space U+00A0. *)
Definition isSpace (c : ascii) : bool :=
  let n := nat_of_ascii c in
  ((9 <=? n) && (n <=? 13) || (n =? 32) || (n =? 160))%nat.

(** [s.replace(/\s+/g, '')]. *)
Fixpoint stripWhitespace (s : string) : string :=
  match s with
  | EmptyString => EmptyString
  | String c t => if isSpace c then stripWhitespace t else String c (stripWhitespace t)
  end.

(** [s.slice(0, n)] for a non-negative [n]. *)
Fixpoint sliceTo (n : nat) (s : string) : string :=
  match n, s with
  | O, _ => EmptyString
  | S _, EmptyString => EmptyString
  | S k, String c t => String c (sliceTo k t)
  end.

(** [s.includes(k)]: [k] occurs in [s] as a contiguous substring. *)
Fixpoint includes (s k : string) : bool :=
  String.prefix k s ||
  match s with
  | EmptyString => false
  | String _ t => includes t k
  end.

End Js.
Export Js.

(** ** The record a scraper extracts from a page *)

(** A number as the extraction produces it ([parseFloat] of a text, or a
    missing value).  Finite numbers are carried as exact rationals. *)
Inductive jsnum : Type :=
  | NUndefined
  | NNull
  | NNaN
  | Num (q : Q).

Record review : Type := mkReview {
  id : jsval;
  title : jsval;
  content : jsval;
  rating : jsnum;
  author : jsval;
  date : jsval;
  source : jsval;
  pros : jsval;
  cons : jsval
}.

(** ** The moment library, as far as the code relies on it

    [moment v] is the instant (milliseconds) that [moment(v)] denotes, or
    [None] when [isValid()] is false; [momentStrict fmt s] is
    [moment(s, fmt, true)]; [formatYMD t] is [format('YYYY-MM-DD')].
    Differences ([diff]) and comparisons ([isBetween], [isAfter]) are taken on
    the instants. *)

Class Moment : Type := {
  moment : jsval -> option Z;
  momentStrict : string -> string -> option Z;
  formatYMD : Z -> string
}.

(** ** utils/helpers.js *)

Module Helpers.

Section WithMoment.
Context {M : Moment}.

Definition validateDate (dateString : string) : bool :=
  bool_decide (is_Some (momentStrict "YYYY-MM-DD" dateString)).

(** [text.replace(/\s+/g, ' ')]: every maximal run of whitespace becomes one
    space.  [inRun] tells whether the previous code unit was whitespace. *)
Fixpoint collapseSpaces (inRun : bool) (s : string) : string :=
  match s with
  | EmptyString => EmptyString
  | String c t =>
      if isSpace c
      then (if inRun then collapseSpaces true t else String " " (collapseSpaces true t))
      else String c (collapseSpaces false t)
  end.

Definition isNewline (c : ascii) : bool :=
  let n := nat_of_ascii c in ((n =? 10) || (n =? 13))%nat.

(** [text.replace(/[\r\n]+/g, ' ')]. *)
Fixpoint replaceNewlines (inRun : bool) (s : string) : string :=
  match s with
  | EmptyString => EmptyString
  | String c t =>
      if isNewline c
      then (if inRun then replaceNewlines true t else String " " (replaceNewlines true t))
      else String c (replaceNewlines false t)
  end.

Fixpoint trimStart (s : string) : string :=
  match s with
  | EmptyString => EmptyString
  | String c t => if isSpace c then trimStart t else s
  end.

Fixpoint trimEnd (s : string) : string :=
  match s with
  | EmptyString => EmptyString
  | String c t =>
      match trimEnd t with
      | EmptyString => if isSpace c then EmptyString else String c EmptyString
      | t' => String c t'
      end
  end.

Definition trim (s : string) : string := trimEnd (trimStart s).

Definition cleanText (text : jsval) : string :=
  if truthy text
  then trim (replaceNewlines false (collapseSpaces false (orEmpty text)))
  else "".

Definition dateFormats : list string :=
  [ "YYYY-MM-DD"; "MM/DD/YYYY"; "DD/MM/YYYY"; "MMMM DD, YYYY"; "MMM DD, YYYY";
    "DD MMM YYYY"; "YYYY-MM-DD HH:mm:ss"; "MM-DD-YYYY" ].

Fixpoint firstValid (formats : list string) (s : string) : option Z :=
  match formats with
  | [] => None
  | f :: rest =>
      match momentStrict f s with
      | Some t => Some t
      | None => firstValid rest s
      end
  end.

Definition parseDate (dateString : jsval) : jsval :=
  if truthy dateString then
    match firstValid dateFormats (orEmpty dateString) with
    | Some t => JStr (formatYMD t)
    | None =>
        match moment dateString with
        | Some t => JStr (formatYMD t)
        | None => JNull
        end
    end
  else JNull.

(** [isDateInRange]: all three instants valid and
    [date.isBetween(start, end, null, '[]')]. *)
Definition isDateInRange (dateString startDate endDate : jsval) : bool :=
  match moment dateString, moment startDate, moment endDate with
  | Some d, Some s, Some e => ((s <=? d) && (d <=? e))%Z
  | _, _, _ => false
  end.

(** [a < b] on finite numbers. *)
Definition Qlt_bool (a b : Q) : bool := negb (Qle_bool b a).

(** [!rating] on a number. *)
Definition numFalsy (n : jsnum) : bool :=
  match n with
  | Num q => Qeq_bool q 0
  | _ => true
  end.

(** [Math.round]: the nearest integer, halves going up. *)
Definition mathRound (q : Q) : Z := Qfloor (q + (1 # 2))%Q.

(** [normalizeRating(rating)] with the default [maxRating = 5]. *)
Definition normalizeRating (rating : jsnum) : Q :=
  match rating with
  | Num q =>
      if numFalsy rating || Qlt_bool q 0 then 0%Q
      else if Qlt_bool 5 q then 5%Q
      else Qred (inject_Z (mathRound (q * 10)) / 10)
  | _ => 0%Q
  end.

(** [x || null] for text, for a cleaned text and for the rating. *)
Definition orNull (v : jsval) : jsval := if truthy v then v else JNull.

Definition numOrNull (q : Q) : jsnum := if Qeq_bool q 0 then NNull else Num q.

(** [createReviewObject]; the time stamp [scraped_at] is left out, it is the
    wall clock at the time of the call. *)
Definition createReviewObject (data : review) : review :=
  {| id := orNull (id data);
     title := orNull (JStr (cleanText (title data)));
     content := orNull (JStr (cleanText (content data)));
     rating := numOrNull (normalizeRating (rating data));
     author := orNull (JStr (cleanText (author data)));
     date := orNull (parseDate (date data));
     source := orNull (source data);
     pros := orNull (JStr (cleanText (pros data)));
     cons := orNull (JStr (cleanText (cons data))) |}.

End WithMoment.
End Helpers.

(** Statistics of a run ([this.stats] of the orchestrator); the processing
    time is left out, it is read from the wall clock. *)
Record Stats : Type := mkStats {
  totalReviews : nat;
  sources : list string;
  errors : list (string * string);
  successRate : Z
}.

(** ** The outside world: browser, console and file system

    A scraper drives one puppeteer page.  The page, the site behind it and the
    file system are not part of the repository; they are a state [W] with the
    operations below.  An operation that can reject reports it in its result
    ([false] or [None]); the code wraps each of them in [try]/[catch]. *)

Class PageDriver (W : Type) : Type := {
  (** [puppeteer.launch], [newPage] and the page set-up of [initialize]. *)
  browserLaunch : W -> W * bool;
  (** [page.goto], [humanizePage], the optional [waitForSelector] and the
      delay of [navigateToPage]; [false] when one of them rejects. *)
  pageGoto : string -> W -> W * bool;
  (** [page.title()]; [None] when it rejects. *)
  pageTitle : W -> W * option string;
  (** [handleCaptcha], with the manual intervention it may wait for. *)
  pageCaptcha : W -> W;
  (** [waitForSelector(..).catch(..)], [autoScroll], [Helpers.delay]. *)
  pageSettle : W -> W;
  (** [page.evaluate] of the extraction script of the named site; [None] when
      it rejects. *)
  pageExtract : string -> W -> W * option (list review);
  (** [page.evaluate] of the product-link search; [None] when it rejects. *)
  pageFindProduct : string -> string -> W -> W * option jsval;
  (** TrustRadius: click on "load more", go to the next page. *)
  pageLoadMore : W -> W * bool;
  pageNextPage : W -> W * bool;
  (** [page.close] and [browser.close]. *)
  browserClose : W -> W;
  (** [fs.writeJson] below [./output] of the reviews and of the statistics;
      the result is the path, [None] when the write rejects. *)
  writeJson : string -> list review -> W -> W * option string;
  writeStats : string -> Stats -> W -> W * option string
}.

(** What a run does that can be observed from outside. *)
Inductive event : Type :=
  | Visit (url : string)
  | LogError (msg : string)
  | LogWarn (msg : string).

(** The state a scraper works on: the world and what was observed so far. *)
Record State (W : Type) : Type := mkState {
  world : W;
  trace : list event
}.
Arguments mkState {W} _ _.
Arguments world {W} _.
Arguments trace {W} _.

(** ** A state and exception monad for the asynchronous methods *)

Inductive outcome (A : Type) : Type :=
  | Ret (a : A)
  | Throw (msg : string).
Arguments Ret {A} _.
Arguments Throw {A} _.

Definition Run (S A : Type) : Type := S -> outcome A * S.

Section Monad.
Context {S : Type}.

Definition ret {A} (a : A) : Run S A := fun st => (Ret a, st).

Definition bind {A B} (m : Run S A) (k : A -> Run S B) : Run S B :=
  fun st =>
    match m st with
    | (Ret a, st') => k a st'
    | (Throw e, st') => (Throw e, st')
    end.

Definition throw {A} (msg : string) : Run S A := fun st => (Throw msg, st).

(** [try { body } catch (error) { handler(error.message) }]. *)
Definition tryCatch {A} (body : Run S A) (handler : string -> Run S A) : Run S A :=
  fun st =>
    match body st with
    | (Ret a, st') => (Ret a, st')
    | (Throw e, st') => handler e st'
    end.

End Monad.

Notation "x <- m ;; k" := (bind m (fun x => k))
  (at level 100, m at next level, right associativity).
Notation "m ;;; k" := (bind m (fun _ => k))
  (at level 100, right associativity).

Section Effects.
Context {W : Type}.

Definition emit (e : event) : Run (State W) unit :=
  fun st => (Ret tt, mkState (world st) (trace st ++ [e])).

Definition onWorld {A} (op : W -> W * A) : Run (State W) A :=
  fun st => let '(w, a) := op (world st) in (Ret a, mkState w (trace st)).

Definition onWorld_ (op : W -> W) : Run (State W) unit :=
  fun st => (Ret tt, mkState (op (world st)) (trace st)).

End Effects.

(** Further built-ins used by the scrapers. *)

Module JsMore.

(** [String(n)] for an integer. *)
Definition showZ (z : Z) : string := NilZero.string_of_int (Z.to_int z).

(** [url.split('?')[0]]. *)
Fixpoint beforeQuery (s : string) : string :=
  match s with
  | EmptyString => EmptyString
  | String c t => if Ascii.eqb c "?" then EmptyString else String c (beforeQuery t)
  end.

(** [url.replace(/\/+$/, '')]. *)
Fixpoint stripTrailingSlashes (s : string) : string :=
  match s with
  | EmptyString => EmptyString
  | String c t =>
      match stripTrailingSlashes t with
      | EmptyString => if Ascii.eqb c "/" then EmptyString else String c EmptyString
      | t' => String c t'
      end
  end.

(** [s.replace(/\s+/g, '-')]. *)
Fixpoint dashSpaces (inRun : bool) (s : string) : string :=
  match s with
  | EmptyString => EmptyString
  | String c t =>
      if isSpace c
      then (if inRun then dashSpaces true t else String "-" (dashSpaces true t))
      else String c (dashSpaces false t)
  end.

(** [Math.ceil(n / d)] for integers, [d] positive. *)
Definition ceilDiv (n d : Z) : Z := ((n + d - 1) / d)%Z.

(** [a.slice(0, n)] on an array, [n] an integer: a negative [n] counts from
    the end. *)
Definition sliceArray {A} (n : Z) (a : list A) : list A :=
  if (0 <=? n)%Z then take (Z.to_nat n) a
  else take (Z.to_nat (Z.of_nat (length a) + n)) a.

(** [a.length < n]. *)
Definition lengthLt {A} (a : list A) (n : Z) : bool :=
  (Z.of_nat (length a) <? n)%Z.

End JsMore.
Export JsMore.

(** ** scrapers/base-scraper.js *)

Module BaseScraper.

Section WithWorld.
Context {M : Moment} {W : Type} {D : PageDriver W}.

Definition initialize : Run (State W) bool :=
  ok <- onWorld browserLaunch ;;
  if ok then ret true
  else emit (LogError "Failed to initialize browser") ;;; ret false.

Definition navigateToPage (url : string) : Run (State W) bool :=
  emit (Visit url) ;;;
  ok <- onWorld (pageGoto url) ;;
  if ok then ret true
  else emit (LogError ("Failed to navigate to " ++ url)) ;;; ret false.

Definition filterReviewsByDateRange (reviews : list review) (startDate endDate : jsval)
  : list review :=
  if negb (truthy startDate) || negb (truthy endDate) then reviews
  else List.filter
         (fun review =>
            if negb (truthy (date review)) then false
            else Helpers.isDateInRange (date review) startDate endDate)
         reviews.

Definition handleCaptcha : Run (State W) unit := onWorld_ pageCaptcha.

Definition blockingKeywords : list string :=
  [ "access denied"; "blocked"; "captcha"; "please verify"; "security check";
    "403"; "429" ].

(** The test made on the title by [checkForBlocking]. *)
Definition titleBlocked (title : string) : bool :=
  existsb (fun keyword => includes (toLowerCase title) keyword) blockingKeywords.

Definition checkForBlocking : Run (State W) bool :=
  t <- onWorld pageTitle ;;
  match t with
  | Some title => ret (titleBlocked title)
  | None => ret false
  end.

Definition cleanup : Run (State W) unit := onWorld_ browserClose.

End WithWorld.
End BaseScraper.

(** ** scrapers/g2-scraper.js *)

Module G2Scraper.

Section WithWorld.
Context {M : Moment} {W : Type} {D : PageDriver W}.

Definition baseUrl : string := "https://www.g2.com".

Definition searchForCompany (companyName : string) : Run (State W) jsval :=
  let slug := dashSpaces false (toLowerCase companyName) in
  let directUrl := baseUrl ++ "/products/" ++ slug ++ "/reviews" in
  BaseScraper.navigateToPage directUrl ;;;
  ret (JStr directUrl).

(** [extractG2Reviews]: a rejected evaluation yields the empty array. *)
Definition extractG2Reviews : Run (State W) (list review) :=
  r <- onWorld (pageExtract "G2") ;;
  match r with
  | Some reviews => ret reviews
  | None => ret []
  end.

Section Pagination.
Variables (startDate endDate : jsval) (limit maxPages : Z) (pagesUrl : string).

Definition pageUrl (currentPage : Z) : string :=
  if (currentPage =? 1)%Z then pagesUrl
  else pagesUrl ++ "?page=" ++ showZ currentPage ++ "#reviews".

(** The [while] loop of [scrapeReviews].  Every turn that does not leave the
    loop increments [currentPage], so [fuel] turns suffice whenever
    [maxPages - currentPage < fuel]; see [paginate_fuel]. *)
Fixpoint paginate (fuel : nat) (currentPage : Z) (allReviews : list review)
  : Run (State W) (list review) :=
  match fuel with
  | O => ret allReviews
  | S fuel' =>
      if lengthLt allReviews limit && (currentPage <=? maxPages)%Z then
        navOk <- BaseScraper.navigateToPage (pageUrl currentPage) ;;
        if negb navOk then ret allReviews else
        blocked <- BaseScraper.checkForBlocking ;;
        if blocked
        then emit (LogError "Blocked while navigating pagination.") ;;; ret allReviews
        else
          BaseScraper.handleCaptcha ;;;
          onWorld_ pageSettle ;;;
          pageReviews <- extractG2Reviews ;;
          if (length pageReviews =? 0)%nat then ret allReviews else
          let filteredReviews :=
            BaseScraper.filterReviewsByDateRange pageReviews startDate endDate in
          let allReviews' := (allReviews ++ filteredReviews)%list in
          if (length filteredReviews =? 0)%nat then ret allReviews' else
          onWorld_ pageSettle ;;;
          paginate fuel' (currentPage + 1)%Z allReviews'
      else ret allReviews
  end.

End Pagination.

Definition scrapeReviewsBody (url startDate endDate : jsval) (limit : Z)
  : Run (State W) (list review) :=
  if negb (truthy url) then throw "No URL provided for scraping" else
  let url := orEmpty url in
  success <- BaseScraper.navigateToPage url ;;
  if negb success then ret [] else
  blocked <- BaseScraper.checkForBlocking ;;
  if blocked then emit (LogError "Detected blocking on G2") ;;; ret [] else
  BaseScraper.handleCaptcha ;;;
  let maxPages := ceilDiv limit 10 in
  allReviews <- paginate startDate endDate limit maxPages (beforeQuery url)
                  (Z.to_nat maxPages) 1 [] ;;
  ret (sliceArray limit allReviews).

Definition scrapeReviews (url startDate endDate : jsval) (limit : Z)
  : Run (State W) (list review) :=
  tryCatch (scrapeReviewsBody url startDate endDate limit)
    (fun msg => emit (LogError ("G2 scraping failed: " ++ msg)) ;;; ret []).

End WithWorld.
End G2Scraper.

(** ** scrapers/capterra-scraper.js *)

Global Instance jsval_countable : Countable jsval.
Proof.
  refine (inj_countable'
            (fun v => match v with
                      | JUndefined => None
                      | JNull => Some None
                      | JStr s => Some (Some s)
                      end)
            (fun o => match o with
                      | None => JUndefined
                      | Some None => JNull
                      | Some (Some s) => JStr s
                      end) _).
  intros []; reflexivity.
Defined.

Module UriComponent.

Definition hexDigit (n : nat) : ascii :=
  if (n <? 10)%nat then ascii_of_nat (48 + n) else ascii_of_nat (55 + n).

Definition percent (n : nat) : string :=
  String "%" (String (hexDigit (n / 16)) (String (hexDigit (n mod 16)) EmptyString)).

(** The characters [encodeURIComponent] leaves alone. *)
Definition unreserved (c : ascii) : bool :=
  let n := nat_of_ascii c in
  ((48 <=? n) && (n <=? 57) || (65 <=? n) && (n <=? 90) || (97 <=? n) && (n <=? 122))%nat
  || existsb (Ascii.eqb c) (list_ascii_of_string "-_.!~*'()").

(** [encodeURIComponent]: the UTF-8 bytes of every other code unit, escaped. *)
Fixpoint encodeURIComponent (s : string) : string :=
  match s with
  | EmptyString => EmptyString
  | String c t =>
      let n := nat_of_ascii c in
      (if unreserved c then String c EmptyString
       else if (n <? 128)%nat then percent n
       else percent (192 + n / 64) ++ percent (128 + n mod 64))
      ++ encodeURIComponent t
  end.

End UriComponent.

Module CapterraScraper.

Section WithWorld.
Context {M : Moment} {W : Type} {D : PageDriver W}.

Definition searchUrl : string := "https://www.capterra.com/search".

Definition searchForCompanyBody (companyName : string) : Run (State W) jsval :=
  let slug := dashSpaces false (toLowerCase companyName) in
  let searchUrl := searchUrl ++ "?query=" ++ UriComponent.encodeURIComponent slug in
  success <- BaseScraper.navigateToPage searchUrl ;;
  if negb success then ret JNull else
  onWorld_ pageSettle ;;;
  found <- onWorld (pageFindProduct "Capterra" companyName) ;;
  match found with
  | None => throw "Evaluation failed"
  | Some productLink =>
      if truthy productLink
      then ret (JStr (stripTrailingSlashes (orEmpty productLink) ++ "/reviews"))
      else emit (LogWarn ("No Capterra product found for " ++ companyName)) ;;; ret JNull
  end.

Definition searchForCompany (companyName : string) : Run (State W) jsval :=
  tryCatch (searchForCompanyBody companyName)
    (fun msg =>
       emit (LogError ("Error searching for company on Capterra: " ++ msg)) ;;;
       ret JNull).

Definition extractCapterraReviews : Run (State W) (list review) :=
  r <- onWorld (pageExtract "Capterra") ;;
  match r with
  | Some reviews => ret reviews
  | None => emit (LogError "Error extracting Capterra reviews:") ;;; ret []
  end.

Definition removeDuplicateReviews (existingReviews newReviews : list review)
  : list review :=
  let existingContents : gset jsval := list_to_set (content <$> existingReviews) in
  List.filter (fun r => bool_decide (content r ∉ existingContents)) newReviews.

Section Pagination.
Variables (startDate endDate : jsval) (limit maxPages : Z) (pagesUrl : string).

(** The [while] loop of [scrapeReviews]; for [fuel] see [paginate_fuel]. *)
Fixpoint paginate (fuel : nat) (currentPage : Z) (allReviews : list review)
  : Run (State W) (list review) :=
  match fuel with
  | O => ret allReviews
  | S fuel' =>
      if lengthLt allReviews limit && (currentPage <=? maxPages)%Z then
        navOk <- BaseScraper.navigateToPage
                   (pagesUrl ++ "?page=" ++ showZ currentPage) ;;
        if negb navOk then ret allReviews else
        blocked <- BaseScraper.checkForBlocking ;;
        if blocked
        then emit (LogError "Blocked by Capterra") ;;; ret allReviews
        else
          BaseScraper.handleCaptcha ;;;
          onWorld_ pageSettle ;;;
          pageReviews <- extractCapterraReviews ;;
          if (length pageReviews =? 0)%nat then ret allReviews else
          let filtered :=
            BaseScraper.filterReviewsByDateRange pageReviews startDate endDate in
          let unique := removeDuplicateReviews allReviews filtered in
          let allReviews' := (allReviews ++ unique)%list in
          if (length filtered =? 0)%nat then ret allReviews' else
          onWorld_ pageSettle ;;;
          paginate fuel' (currentPage + 1)%Z allReviews'
      else ret allReviews
  end.

End Pagination.

Definition scrapeReviewsBody (url startDate endDate : jsval) (limit : Z)
  : Run (State W) (list review) :=
  if negb (truthy url) then throw "No URL provided for scraping" else
  let maxPages := ceilDiv limit 20 in
  allReviews <- paginate startDate endDate limit maxPages
                  (stripTrailingSlashes (orEmpty url)) (Z.to_nat maxPages) 1 [] ;;
  ret (sliceArray limit allReviews).

Definition scrapeReviews (url startDate endDate : jsval) (limit : Z)
  : Run (State W) (list review) :=
  tryCatch (scrapeReviewsBody url startDate endDate limit)
    (fun msg => emit (LogError ("Capterra scraping failed: " ++ msg)) ;;; ret []).

End WithWorld.
End CapterraScraper.

(** ** The TrustRadius adapter (second class of capterra-scraper.js) *)

Module TrustRadiusScraper.

Section WithWorld.
Context {M : Moment} {W : Type} {D : PageDriver W}.

Definition searchUrl : string := "https://www.trustradius.com/search".

Definition searchForCompanyBody (companyName : string) : Run (State W) jsval :=
  let searchUrl := searchUrl ++ "?query=" ++ UriComponent.encodeURIComponent companyName in
  success <- BaseScraper.navigateToPage searchUrl ;;
  if negb success then ret JNull else
  onWorld_ pageSettle ;;;
  found <- onWorld (pageFindProduct "TrustRadius" companyName) ;;
  match found with
  | None => throw "Evaluation failed"
  | Some productLink =>
      if truthy productLink
      then
        let link := orEmpty productLink in
        ret (JStr (if includes link "/reviews" then link else link ++ "/reviews"))
      else emit (LogWarn ("No TrustRadius product found for " ++ companyName)) ;;; ret JNull
  end.

Definition searchForCompany (companyName : string) : Run (State W) jsval :=
  tryCatch (searchForCompanyBody companyName)
    (fun msg =>
       emit (LogError ("Error searching for company on TrustRadius: " ++ msg)) ;;;
       ret JNull).

Definition extractTrustRadiusReviews : Run (State W) (list review) :=
  r <- onWorld (pageExtract "TrustRadius") ;;
  match r with
  | Some reviews => ret reviews
  | None => emit (LogError "Error extracting TrustRadius reviews:") ;;; ret []
  end.

Definition removeDuplicateReviews (existingReviews newReviews : list review)
  : list review :=
  let existingIds : gset jsval := list_to_set (id <$> existingReviews) in
  let existingContent : gset jsval := list_to_set (content <$> existingReviews) in
  List.filter
    (fun review =>
       bool_decide (id review ∉ existingIds)
       && bool_decide (content review ∉ existingContent))
    newReviews.

Definition maxAttempts : Z := 10.

Section Loading.
Variables (startDate endDate : jsval) (limit : Z).

(** The [while] loop of [scrapeReviews]: [attempts] grows with every turn, so
    [fuel] turns suffice whenever [maxAttempts - attempts <= fuel]. *)
Fixpoint loadReviews (fuel : nat) (attempts : Z) (allReviews : list review)
  : Run (State W) (list review) :=
  match fuel with
  | O => ret allReviews
  | S fuel' =>
      if lengthLt allReviews limit && (attempts <? maxAttempts)%Z then
        let attempts := (attempts + 1)%Z in
        onWorld_ pageSettle ;;;
        currentReviews <- extractTrustRadiusReviews ;;
        if (length currentReviews =? 0)%nat then ret allReviews else
        let newReviews :=
          BaseScraper.filterReviewsByDateRange currentReviews startDate endDate in
        let uniqueReviews := removeDuplicateReviews allReviews newReviews in
        let allReviews' := (allReviews ++ uniqueReviews)%list in
        loadedMore <- onWorld pageLoadMore ;;
        if loadedMore
        then onWorld_ pageSettle ;;; loadReviews fuel' attempts allReviews'
        else
          nextPage <- onWorld pageNextPage ;;
          if nextPage
          then onWorld_ pageSettle ;;; loadReviews fuel' attempts allReviews'
          else ret allReviews'
      else ret allReviews
  end.

End Loading.

Definition scrapeReviewsBody (url startDate endDate : jsval) (limit : Z)
  : Run (State W) (list review) :=
  if negb (truthy url) then throw "No URL provided for scraping" else
  success <- BaseScraper.navigateToPage (orEmpty url) ;;
  if negb success then ret [] else
  blocked <- BaseScraper.checkForBlocking ;;
  if blocked then emit (LogError "Detected blocking on TrustRadius") ;;; ret [] else
  BaseScraper.handleCaptcha ;;;
  allReviews <- loadReviews startDate endDate limit (Z.to_nat maxAttempts) 0 [] ;;
  ret (sliceArray limit allReviews).

Definition scrapeReviews (url startDate endDate : jsval) (limit : Z)
  : Run (State W) (list review) :=
  tryCatch (scrapeReviewsBody url startDate endDate limit)
    (fun msg => emit (LogError ("TrustRadius scraping failed: " ++ msg)) ;;; ret []).

End WithWorld.
End TrustRadiusScraper.

(** ** Array.prototype.sort

    The language fixes the result of [sort] only for a comparison function
    that is consistent on the elements: then the result is a permutation in
    which no element precedes one it sorts after, and elements that compare
    equal keep their order.  For any other comparison function the order is
    left to the engine. *)

Section SortContract.
Context {A : Type} (cmp : A -> A -> Z).

Definition Consistent (l : list A) : Prop :=
  forall a b c, a ∈ l -> b ∈ l -> c ∈ l ->
    cmp a a = 0%Z
    /\ (cmp a b = 0 -> cmp b a = 0)%Z
    /\ (cmp a b = 0 -> cmp b c = 0 -> cmp a c = 0)%Z
    /\ (cmp a b < 0 -> cmp b c < 0 -> cmp a c < 0)%Z
    /\ (cmp a b > 0 -> cmp b c > 0 -> cmp a c > 0)%Z.

Definition SortedBy (l : list A) : Prop :=
  StronglySorted (fun x y => (0 <= cmp y x)%Z) l.

Definition StableFor (l l' : list A) : Prop :=
  forall x, x ∈ l ->
    List.filter (fun y => (cmp x y =? 0)%Z) l'
    = List.filter (fun y => (cmp x y =? 0)%Z) l.

End SortContract.

Class ArraySort : Type := {
  arraySort : forall {A : Type}, (A -> A -> Z) -> list A -> list A
}.

(** What the language promises of an engine. *)
Record SortContract (AS : ArraySort) : Prop := {
  arraySort_perm : forall A (cmp : A -> A -> Z) l, arraySort cmp l ≡ₚ l;
  arraySort_sorted : forall A (cmp : A -> A -> Z) l,
    Consistent cmp l -> SortedBy cmp (arraySort cmp l);
  arraySort_stable : forall A (cmp : A -> A -> Z) l,
    Consistent cmp l -> StableFor cmp l (arraySort cmp l)
}.

(** The sort of Node's engine (V8) on an array shorter than 64 elements:
    TimSort then consists of one run detection, followed by a binary
    insertion of each remaining element. *)

Module V8.

Section Sort.
Context {A : Type} (cmp : A -> A -> Z).

(** The scan of [CountAndMakeRun]: the run goes on while the order of an
    element with its predecessor agrees with [isDescending]. *)
Fixpoint runLength (isDescending : bool) (previous : A) (rest : list A) (n : nat)
  : nat :=
  match rest with
  | [] => n
  | current :: rest' =>
      let order := cmp current previous in
      if (if isDescending then (0 <=? order)%Z else (order <? 0)%Z) then n
      else runLength isDescending current rest' (S n)
  end.

(** [CountAndMakeRun(0, length)]: the length of the initial run; a strictly
    descending run is reversed in place. *)
Definition countAndMakeRun (a : list A) : nat * list A :=
  match a with
  | elementHigh :: elementLow :: rest =>
      let isDescending := (cmp elementLow elementHigh <? 0)%Z in
      let n := runLength isDescending elementLow rest 2 in
      (n, if isDescending then (rev (take n a) ++ drop n a)%list else a)
  | _ => (length a, a)
  end.

(** The binary search of [BinaryInsertionSort] for the slot of [pivot] in
    [a[left..right)]; the interval halves with every turn. *)
Fixpoint findSlot (a : list A) (pivot : A) (fuel left right : nat) : nat :=
  match fuel with
  | O => left
  | S fuel' =>
      if (left <? right)%nat then
        let mid := (left + (right - left) / 2)%nat in
        match a !! mid with
        | Some m =>
            if (cmp pivot m <? 0)%Z then findSlot a pivot fuel' left mid
            else findSlot a pivot fuel' (mid + 1)%nat right
        | None => left
        end
      else left
  end.

(** One turn of the outer loop of [BinaryInsertionSort]: [a[start]] moves to
    its slot, the elements in between shift up by one. *)
Definition insertAt (a : list A) (start : nat) : list A :=
  match a !! start with
  | Some pivot =>
      let left := findSlot a pivot (S start) 0 start in
      (take left a ++ pivot :: take (start - left) (drop left a) ++ drop (S start) a)%list
  | None => a
  end.

Definition sort (a : list A) : list A :=
  if (length a <? 2)%nat then a
  else
    let '(n, a') := countAndMakeRun a in
    fold_left insertAt (seq n (length a - n)) a'.

(** The state of the array [c] when the first [k] elements of [a] are
    placed: they stand sorted, ties in their order in [a], in front of the
    elements still to place.  [L] holds the elements compared. *)
Definition Placed (L a : list A) (k : nat) (c : list A) : Prop :=
  c ≡ₚ a /\ k <= length a /\ drop k c = drop k a
  /\ SortedBy cmp (take k c)
  /\ forall w, w ∈ L ->
       List.filter (fun y => (cmp w y =? 0)%Z) (take k c)
       = List.filter (fun y => (cmp w y =? 0)%Z) (take k a).

End Sort.
End V8.

Definition v8Engine : ArraySort := {| arraySort := @V8.sort |}.

(** ** index.js: the orchestrator *)

Module Index.

(** [createReviewHash]: the template [`${content}_${author}_${date}`],
    lower-cased, with every run of whitespace removed. *)
Definition createReviewHash (r : review) : string :=
  let content := sliceTo 100 (orEmpty (content r)) in
  let author := orEmpty (author r) in
  let date := orEmpty (date r) in
  stripWhitespace (toLowerCase (content ++ "_" ++ author ++ "_" ++ date)).

(** The loop of [removeDuplicates], threading the set [seen]. *)
Fixpoint removeDuplicatesFrom (seen : gset string) (reviews : list review)
  : list review :=
  match reviews with
  | [] => []
  | r :: rest =>
      let hash := createReviewHash r in
      if decide (hash ∈ seen)
      then removeDuplicatesFrom seen rest
      else r :: removeDuplicatesFrom ({[hash]} ∪ seen) rest
  end.

Definition removeDuplicates (reviews : list review) : list review :=
  removeDuplicatesFrom ∅ reviews.

(** The options of a run, as [commander] hands them over; [limit] is
    [parseInt(options.limit)] (a limit that is not a number behaves like 0 in
    every place it is used). *)
Record Options : Type := mkOptions {
  company : jsval;
  optSource : string;
  url : jsval;
  startDate : jsval;
  endDate : jsval;
  limit : Z;
  verbose : bool
}.

(** A scraper object, as the orchestrator uses it. *)
Record Scraper (W : Type) : Type := mkScraper {
  ctorName : string;
  initialize : Run (State W) bool;
  searchForCompany : string -> Run (State W) jsval;
  scrapeReviews : jsval -> jsval -> jsval -> Z -> Run (State W) (list review);
  cleanup : Run (State W) unit
}.
Arguments ctorName {W} _.
Arguments initialize {W} _.
Arguments searchForCompany {W} _ _.
Arguments scrapeReviews {W} _ _ _ _ _.
Arguments cleanup {W} _.

(** The state of a run: the state of the scrapers, [this.stats] and the
    array [allReviews]. *)
Record RunState (W : Type) : Type := mkRunState {
  env : State W;
  stats : Stats;
  allReviews : list review
}.
Arguments mkRunState {W} _ _ _.
Arguments env {W} _.
Arguments stats {W} _.
Arguments allReviews {W} _.

(** [s.replace(pat, '')] for a string pattern: the first occurrence goes. *)
Fixpoint dropPrefix (pat s : string) : option string :=
  match pat, s with
  | EmptyString, _ => Some s
  | String p pat', String c s' => if Ascii.eqb p c then dropPrefix pat' s' else None
  | String _ _, EmptyString => None
  end.

Fixpoint removeFirst (pat s : string) : string :=
  match dropPrefix pat s with
  | Some rest => rest
  | None =>
      match s with
      | EmptyString => EmptyString
      | String c t => String c (removeFirst pat t)
      end
  end.

Definition exitCode (success : bool) : Z := if success then 0%Z else 1%Z.

Section WithWorld.
Context {M : Moment} {AS : ArraySort} {W : Type} {D : PageDriver W}.

Definition lift {A} (m : Run (State W) A) : Run (RunState W) A :=
  fun st =>
    let '(r, e) := m (env st) in (r, mkRunState e (stats st) (allReviews st)).

Definition logError (msg : string) : Run (RunState W) unit := lift (emit (LogError msg)).
Definition logWarn (msg : string) : Run (RunState W) unit := lift (emit (LogWarn msg)).

Definition modifyStats (f : Stats -> Stats) : Run (RunState W) unit :=
  fun st => (Ret tt, mkRunState (env st) (f (stats st)) (allReviews st)).

Definition pushReviews (reviews : list review) : Run (RunState W) unit :=
  fun st => (Ret tt, mkRunState (env st) (stats st) (allReviews st ++ reviews)).

Definition pushSource (name : string) (s : Stats) : Stats :=
  mkStats (totalReviews s) (sources s ++ [name]) (errors s) (successRate s).

Definition pushError (scraper error : string) (s : Stats) : Stats :=
  mkStats (totalReviews s) (sources s) (errors s ++ [(scraper, error)]) (successRate s).

(** The first check of [validateOptions] that fails, with its message. *)
Definition invalidOption (options : Options) : option string :=
  if negb (truthy (company options)) then Some "Company name is required"
  else if truthy (startDate options)
          && negb (Helpers.validateDate (orEmpty (startDate options)))
  then Some "Invalid start date format. Use YYYY-MM-DD"
  else if truthy (endDate options)
          && negb (Helpers.validateDate (orEmpty (endDate options)))
  then Some "Invalid end date format. Use YYYY-MM-DD"
  else if truthy (startDate options) && truthy (endDate options)
          && match moment (startDate options), moment (endDate options) with
             | Some start, Some end_ => (end_ <? start)%Z
             | _, _ => false
             end
  then Some "Start date cannot be after end date"
  else if negb (bool_decide (toLowerCase (optSource options)
                             ∈ ["g2"; "capterra"; "trustradius"; "all"]))
  then Some "Invalid source. Valid options: g2, capterra, trustradius, all"
  else None.

Definition validateOptions (options : Options) : Run (RunState W) bool :=
  match invalidOption options with
  | Some msg => logError msg ;;; ret false
  | None => ret true
  end.

Definition g2Scraper : Scraper W :=
  mkScraper W "G2Scraper" BaseScraper.initialize G2Scraper.searchForCompany
    G2Scraper.scrapeReviews BaseScraper.cleanup.

Definition capterraScraper : Scraper W :=
  mkScraper W "CapterraScraper" BaseScraper.initialize CapterraScraper.searchForCompany
    CapterraScraper.scrapeReviews BaseScraper.cleanup.

Definition trustRadiusScraper : Scraper W :=
  mkScraper W "TrustRadiusScraper" BaseScraper.initialize
    TrustRadiusScraper.searchForCompany TrustRadiusScraper.scrapeReviews
    BaseScraper.cleanup.

Definition createScrapers (source : string) : list (Scraper W) :=
  let source := toLowerCase source in
  if String.eqb source "g2" then [g2Scraper]
  else if String.eqb source "capterra" then [capterraScraper]
  else if String.eqb source "trustradius" then [trustRadiusScraper]
  else if String.eqb source "all" then [g2Scraper; capterraScraper; trustRadiusScraper]
  else [].

(** [scraper.constructor.name.replace('Scraper', '')]. *)
Definition sourceName (scraper : Scraper W) : string :=
  removeFirst "Scraper" (ctorName scraper).

(** The [try] block of the loop over the scrapers. *)
Definition scraperBody (options : Options) (scraper : Scraper W)
  : Run (RunState W) unit :=
  success <- lift (initialize scraper) ;;
  if negb success
  then logError ("Failed to initialize " ++ ctorName scraper)
  else
    productUrl <- (if truthy (url options) then ret (url options)
                   else lift (searchForCompany scraper (orEmpty (company options)))) ;;
    if negb (truthy productUrl)
    then
      logWarn ("Could not find product page for " ++ orEmpty (company options)
               ++ " on " ++ sourceName scraper) ;;;
      lift (cleanup scraper)
    else
      reviews <- lift (scrapeReviews scraper productUrl (startDate options)
                         (endDate options) (limit options)) ;;
      (if (0 <? length reviews)%nat
       then pushReviews reviews ;;; modifyStats (pushSource (sourceName scraper))
       else ret tt) ;;;
      lift (cleanup scraper).

(** One turn of the loop: the [try] block and its [catch]. *)
Definition runScraper (options : Options) (scraper : Scraper W)
  : Run (RunState W) unit :=
  tryCatch (scraperBody options scraper)
    (fun msg =>
       logError ("Error with " ++ ctorName scraper ++ ": " ++ msg) ;;;
       modifyStats (pushError (ctorName scraper) msg) ;;;
       tryCatch (lift (cleanup scraper)) (fun _ => ret tt)).

Fixpoint runScrapers (options : Options) (scrapers : list (Scraper W))
  : Run (RunState W) unit :=
  match scrapers with
  | [] => ret tt
  | scraper :: rest => runScraper options scraper ;;; runScrapers options rest
  end.

(** The comparison function handed to [sort] in [processResults]. *)
Definition compareReviews (a b : review) : Z :=
  match moment (date a), moment (date b) with
  | Some dateA, Some dateB => (dateB - dateA)%Z
  | _, _ => 0%Z
  end.

(** The records of [processResults] after deduplication and sorting. *)
Definition sortedReviews (reviews : list review) : list review :=
  arraySort compareReviews (removeDuplicates reviews).

(** The records written to the output file. *)
Definition finalReviews (reviews : list review) : list review :=
  Helpers.createReviewObject <$> sortedReviews reviews.

Definition isAlnumOrSpace (c : ascii) : bool :=
  let n := nat_of_ascii c in
  ((97 <=? n) && (n <=? 122) || (48 <=? n) && (n <=? 57))%nat || isSpace c.

Fixpoint keepChars (p : ascii -> bool) (s : string) : string :=
  match s with
  | EmptyString => EmptyString
  | String c t => if p c then String c (keepChars p t) else keepChars p t
  end.

Fixpoint underscoreSpaces (inRun : bool) (s : string) : string :=
  match s with
  | EmptyString => EmptyString
  | String c t =>
      if isSpace c
      then (if inRun then underscoreSpaces true t else String "_" (underscoreSpaces true t))
      else String c (underscoreSpaces false t)
  end.

(** [Helpers.sanitizeCompanyName]. *)
Definition sanitizeCompanyName (name : jsval) : string :=
  if truthy name
  then Helpers.trim (underscoreSpaces false
                       (keepChars isAlnumOrSpace (toLowerCase (orEmpty name))))
  else "".

(** [Helpers.saveToFile]. *)
Definition saveToFile {A} (write : W -> W * option A) : Run (RunState W) A :=
  r <- lift (onWorld write) ;;
  match r with
  | Some path => ret path
  | None => throw "Failed to save file"
  end.

Definition processResultsBody (reviews : list review) (options : Options)
  : Run (RunState W) unit :=
  let final := finalReviews reviews in
  let filename := sanitizeCompanyName (company options) ++ "_reviews" in
  saveToFile (writeJson (filename ++ ".json") final) ;;;
  modifyStats (fun s =>
    mkStats (length final) (sources s) (errors s)
      (Helpers.mathRound (inject_Z (Z.of_nat (length final))
                          / inject_Z (Z.of_nat (length reviews)) * 100))) ;;;
  if verbose options
  then
    st <- (fun st => (Ret (stats st), st)) ;;
    saveToFile (writeStats (filename ++ "_stats.json") st) ;;; ret tt
  else ret tt.

Definition processResults (reviews : list review) (options : Options)
  : Run (RunState W) unit :=
  tryCatch (processResultsBody reviews options)
    (fun msg => logError ("Error processing results: " ++ msg) ;;; throw msg).

Definition scrapeBody (options : Options) : Run (RunState W) bool :=
  valid <- validateOptions options ;;
  if negb valid then ret false else
  let scrapers := createScrapers (optSource options) in
  (fun st => (Ret tt, mkRunState (env st) (stats st) [])) ;;;
  runScrapers options scrapers ;;;
  all <- (fun st => (Ret (allReviews st), st)) ;;
  if (0 <? length all)%nat
  then processResults all options ;;; ret true
  else logError "No reviews were collected from any source" ;;; ret false.

Definition scrape (options : Options) : Run (RunState W) bool :=
  tryCatch (scrapeBody options)
    (fun msg => logError ("Scraping failed: " ++ msg) ;;; ret false).

End WithWorld.
End Index.

(** ** Calendar dates for the examples

    An instance of [Moment] for dates written [YYYY-MM-DD], read as midnight
    UTC; [moment(undefined)] is the current instant [now] and [moment(null)]
    is invalid, as in the library.  Texts of any other shape are outside this
    instance and taken as invalid. *)

Module IsoDates.

Definition digit (c : ascii) : option Z :=
  let n := nat_of_ascii c in
  if ((48 <=? n) && (n <=? 57))%nat then Some (Z.of_nat (n - 48)) else None.

Fixpoint number (acc : Z) (cs : list ascii) : option Z :=
  match cs with
  | [] => Some acc
  | c :: rest =>
      match digit c with
      | Some d => number (10 * acc + d)%Z rest
      | None => None
      end
  end.

Definition isLeap (y : Z) : bool :=
  ((y mod 4 =? 0) && (negb (y mod 100 =? 0) || (y mod 400 =? 0)))%Z.

Definition daysInMonth (y m : Z) : Z :=
  if (m =? 2)%Z then (if isLeap y then 29 else 28)%Z
  else if ((m =? 4) || (m =? 6) || (m =? 9) || (m =? 11))%Z then 30%Z
  else 31%Z.

(** Days since 1970-01-01 of a date of the proleptic Gregorian calendar. *)
Definition daysFromCivil (y m d : Z) : Z :=
  let y' := (if m <=? 2 then y - 1 else y)%Z in
  let era := (y' / 400)%Z in
  let yoe := (y' - era * 400)%Z in
  let doy := ((153 * (if 2 <? m then m - 3 else m + 9) + 2) / 5 + d - 1)%Z in
  let doe := (yoe * 365 + yoe / 4 - yoe / 100 + doy)%Z in
  (era * 146097 + doe - 719468)%Z.

Definition civilFromDays (z : Z) : Z * Z * Z :=
  let z := (z + 719468)%Z in
  let era := (z / 146097)%Z in
  let doe := (z - era * 146097)%Z in
  let yoe := ((doe - doe / 1460 + doe / 36524 - doe / 146096) / 365)%Z in
  let doy := (doe - (365 * yoe + yoe / 4 - yoe / 100))%Z in
  let mp := ((5 * doy + 2) / 153)%Z in
  let d := (doy - (153 * mp + 2) / 5 + 1)%Z in
  let m := (if mp <? 10 then mp + 3 else mp - 9)%Z in
  let y := (yoe + era * 400 + (if m <=? 2 then 1 else 0))%Z in
  (y, m, d).

Definition msPerDay : Z := 86400000.

Definition parseIso (s : string) : option Z :=
  match list_ascii_of_string s with
  | [y1; y2; y3; y4; s1; m1; m2; s2; d1; d2] =>
      if Ascii.eqb s1 "-" && Ascii.eqb s2 "-" then
        match number 0 [y1; y2; y3; y4], number 0 [m1; m2], number 0 [d1; d2] with
        | Some y, Some m, Some d =>
            if ((1 <=? m) && (m <=? 12) && (1 <=? d) && (d <=? daysInMonth y m))%Z
            then Some (daysFromCivil y m d * msPerDay)%Z
            else None
        | _, _, _ => None
        end
      else None
  | _ => None
  end.

Definition pad (width : nat) (z : Z) : string :=
  let s := showZ z in
  string_of_list_ascii (repeat "0"%char (width - String.length s)) ++ s.

Definition format (t : Z) : string :=
  let '(y, m, d) := civilFromDays (t / msPerDay) in
  pad 4 y ++ "-" ++ pad 2 m ++ "-" ++ pad 2 d.

Definition isoMoment (now : Z) : Moment :=
  {| moment := fun v =>
       match v with
       | JUndefined => Some now
       | JNull => None
       | JStr s => parseIso s
       end;
     momentStrict := fun fmt s =>
       if String.eqb fmt "YYYY-MM-DD" then parseIso s else None;
     formatYMD := format |}.

End IsoDates.

(** ** A site for the examples

    A world in which every address shows a fixed page: whether it loads, its
    title and the records the extraction finds on it.  Writing to the disk
    works or not according to [diskOk]. *)

Module Sim.

Record Page : Type := mkPage {
  loads : bool;
  pageTitleText : option string;
  records : option (list review)
}.

Record World : Type := mkWorld {
  site : string -> Page;
  current : string;
  diskOk : bool
}.

Definition driver : PageDriver World :=
  {| browserLaunch := fun w => (w, true);
     pageGoto := fun url w => (mkWorld (site w) url (diskOk w), loads (site w url));
     pageTitle := fun w => (w, pageTitleText (site w (current w)));
     pageCaptcha := fun w => w;
     pageSettle := fun w => w;
     pageExtract := fun _ w => (w, records (site w (current w)));
     pageFindProduct := fun _ _ w => (w, Some JNull);
     pageLoadMore := fun w => (w, false);
     pageNextPage := fun w => (w, false);
     browserClose := fun w => w;
     writeJson := fun name _ w =>
       (w, if diskOk w then Some ("output/" ++ name) else None);
     writeStats := fun name _ w =>
       (w, if diskOk w then Some ("output/" ++ name) else None) |}.

End Sim.

(** ** The identity key as the specification words it

    Modelled from the specification, for comparison with [createReviewHash]:
    the first 100 characters of the content, the author and the date, put
    together, lower-cased, with the whitespace removed. *)

Definition specKey (r : review) : string :=
  stripWhitespace
    (toLowerCase (sliceTo 100 (orEmpty (content r)) ++ orEmpty (author r)
                  ++ orEmpty (date r))).

(** ** Records and sites used in the examples *)

Module Examples.

Definition rec (i c a d : string) : review :=
  mkReview (JStr i) JNull (JStr c) NNull (JStr a) (JStr d) (JStr "G2") JNull JNull.

Definition recA : review := rec "g2_0_1" "a" "bc" "2024-01-01".
Definition recB : review := rec "g2_1_1" "ab" "c" "2024-01-01".

(** One record from each of two sources, equal in content, author and date. *)
Definition fromG2 : review :=
  mkReview (JStr "g2_0_1") (JStr "Great") (JStr "Works  well for us") (Num 5)
    (JStr "Ann B") (JStr "2024-03-01") (JStr "G2") JNull JNull.
Definition fromCapterra : review :=
  mkReview (JStr "capterra_0_2") JNull (JStr "Works  well for us") (Num 4)
    (JStr "Ann B") (JStr "2024-03-01") (JStr "Capterra") JNull JNull.

(** Seven records with pairwise different keys; three of them have no
    date. *)
Definition undated (i : string) : review :=
  mkReview (JStr i) JNull (JStr ("review " ++ i)) NNull (JStr "Dee") JNull (JStr "Capterra")
    JNull JNull.
Definition dated (i d : string) : review :=
  mkReview (JStr i) JNull (JStr ("review " ++ i)) NNull (JStr "Dee") (JStr d) (JStr "G2")
    JNull JNull.


Definition allDated : list review :=
  [ dated "d0" "2024-01-02"; dated "d1" "2024-01-03"; dated "d2" "2024-01-02";
    dated "d0" "2024-01-02"; dated "d3" "2024-01-01" ].

(** A product on G2 with two result pages of six records each. *)
Definition slackUrl : string := "https://www.g2.com/products/slack/reviews".

Definition pageOf (n : string) : list review :=
  [ dated (n ++ "_0") "2024-02-06"; dated (n ++ "_1") "2024-02-05";
    dated (n ++ "_2") "2024-02-04"; dated (n ++ "_3") "2024-02-03";
    dated (n ++ "_4") "2024-02-02"; dated (n ++ "_5") "2024-02-01" ].

Definition shows (t : string) (l : list review) : Sim.Page :=
  Sim.mkPage true (Some t) (Some l).

Definition twoPagesOfSix : Sim.World :=
  Sim.mkWorld
    (fun url =>
       if String.eqb url slackUrl then shows "Slack Reviews | G2" (pageOf "p1")
       else if String.eqb url (slackUrl ++ "?page=2#reviews")
            then shows "Slack Reviews | G2" (pageOf "p2")
       else shows "Slack Reviews | G2" [])
    "" true.


Definition slackOptions : Index.Options :=
  Index.mkOptions (JStr "Slack") "g2" (JStr slackUrl) JUndefined JUndefined 10 false.

Definition emptyStats : Stats := mkStats 0 [] [] 0.

Definition start (w : Sim.World) : Index.RunState Sim.World :=
  Index.mkRunState (mkState w []) emptyStats [].

(** The same site, with a disk that cannot be written. *)
Definition diskFull : Sim.World :=
  Sim.mkWorld (Sim.site twoPagesOfSix) "" false.

(** A site that answers every request with a denial page. *)
Definition denied : Sim.World :=
  Sim.mkWorld (fun _ => shows "Access Denied" []) "" true.


End Examples.

(** ** Predicates of the statements *)

(** A computation that returns normally from every state. *)
Definition NoThrow {S A} (m : Run S A) : Prop :=
  forall st, exists a st', m st = (Ret a, st').

(** What holds of the value whenever the computation returns one. *)
Definition Returns {S A} (m : Run S A) (Q : A -> Prop) : Prop :=
  forall st a st', m st = (Ret a, st') -> Q a.

(** What is promised of the array a scraper returns: no more than [limit]
    records, and none for a limit that is not positive. *)
Definition WithinLimit (limit : Z) (l : list review) : Prop :=
  ((0 <= limit)%Z -> (Z.of_nat (length l) <= limit)%Z)
  /\ ((limit <= 0)%Z -> l = []).

(** A computation all of whose steps, returning or throwing, are in the
    relation [R] between the states. *)
Definition Steps {S A} (R : S -> S -> Prop) (m : Run S A) : Prop :=
  forall st r st', m st = (r, st') -> R st st'.

(** The records and the errors of a run only grow. *)
Definition Grows {W} (st st' : Index.RunState W) : Prop :=
  (exists more, Index.allReviews st' = Index.allReviews st ++ more)%list
  /\ (exists errs, errors (Index.stats st') = errors (Index.stats st) ++ errs)%list.

(** The errors of the statistics are the same. *)
Definition SameErrors {W} (st st' : Index.RunState W) : Prop :=
  errors (Index.stats st') = errors (Index.stats st).

(** The addresses requested in a trace. *)
Definition visits (t : list event) : list string :=
  omap (fun e => match e with Visit url => Some url | _ => None end) t.

(** The errors logged in a trace. *)
Definition errorsLogged (t : list event) : list string :=
  omap (fun e => match e with LogError msg => Some msg | _ => None end) t.

Section Predicates.
Context {M : Moment}.

(** A record is in the range [[startDate, endDate]]: it has a date, the
    date and both bounds are read by [moment], and the instant of the date
    lies between those of the bounds. *)
Definition InRange (startDate endDate : jsval) (r : review) : Prop :=
  truthy (date r) = true
  /\ exists d s e,
       moment (date r) = Some d /\ moment startDate = Some s
       /\ moment endDate = Some e /\ (s <= d <= e)%Z.


(** The writes of [processResults] succeed: the file of the results and,
    in verbose mode, the file of the statistics. *)
Definition SavesResults {AS : ArraySort} {W : Type} {D : PageDriver W}
    (options : Index.Options) (all : list review) (st1 : Index.RunState W) : Prop :=
  let file := (Index.sanitizeCompanyName (Index.company options) ++ "_reviews")%string in
  let final := Index.finalReviews all in
  let stats' :=
    mkStats (length final) (sources (Index.stats st1)) (errors (Index.stats st1))
      (Helpers.mathRound (inject_Z (Z.of_nat (length final))
                          / inject_Z (Z.of_nat (length all)) * 100)) in
  exists w1 path,
    writeJson (file ++ ".json")%string final (world (Index.env st1)) = (w1, Some path)
    /\ (Index.verbose options = true ->
        exists w2 path2,
          writeStats (file ++ "_stats.json")%string stats' w1 = (w2, Some path2)).


End Predicates.

(** ** Predicates on texts *)

(** A text is tidy: it neither starts nor ends with whitespace, and its only
    whitespace is the plain space, never two in a row. *)
Definition Tidy (s : string) : Prop :=
  let cs := list_ascii_of_string s in
  (forall c, head cs = Some c -> isSpace c = false)
  /\ (forall c, last cs = Some c -> isSpace c = false)
  /\ (forall i c, cs !! i = Some c -> isSpace c = true ->
        c = " "%char /\ forall d, cs !! (S i) = Some d -> isSpace d = false).

(** The same on the text read from the left: [p] tells whether a space
    stands in front of [s]. *)
Fixpoint spaced (p : bool) (s : string) : bool :=
  match s with
  | EmptyString => true
  | String c t =>
      if isSpace c then Ascii.eqb c " " && negb p && spaced true t
      else spaced false t
  end.

Definition startsClean (s : string) : bool :=
  match s with
  | EmptyString => true
  | String c _ => negb (isSpace c)
  end.

(** The characters of a sanitized name: [a-z], [0-9] and the underscore. *)
Definition nameChar (c : ascii) : bool :=
  let n := nat_of_ascii c in
  ((97 <=? n) && (n <=? 122) || (48 <=? n) && (n <=? 57) || (n =? 95))%nat.


(** ** Regular expressions

    The patterns of the code that are matched against a whole text
    ([/^...$/.test(text)]), by derivatives; [Matches] is the language of a
    pattern. *)

Module Regex.

Inductive regex : Type :=
  | Never
  | Eps
  | Class (p : ascii -> bool)
  | Cat (r1 r2 : regex)
  | Alt (r1 r2 : regex)
  | Star (r : regex).

(** [r+]. *)
Definition Plus (r : regex) : regex := Cat r (Star r).

Fixpoint nullable (r : regex) : bool :=
  match r with
  | Never => false
  | Eps => true
  | Class _ => false
  | Cat r1 r2 => nullable r1 && nullable r2
  | Alt r1 r2 => nullable r1 || nullable r2
  | Star _ => true
  end.

Fixpoint deriv (c : ascii) (r : regex) : regex :=
  match r with
  | Never => Never
  | Eps => Never
  | Class p => if p c then Eps else Never
  | Cat r1 r2 =>
      if nullable r1 then Alt (Cat (deriv c r1) r2) (deriv c r2)
      else Cat (deriv c r1) r2
  | Alt r1 r2 => Alt (deriv c r1) (deriv c r2)
  | Star r1 => Cat (deriv c r1) (Star r1)
  end.

(** [/^r$/.test(s)]. *)
Fixpoint test (r : regex) (s : string) : bool :=
  match s with
  | EmptyString => nullable r
  | String c t => test (deriv c r) t
  end.

Inductive Matches : regex -> list ascii -> Prop :=
  | MEps : Matches Eps []
  | MClass p c : p c = true -> Matches (Class p) [c]
  | MCat r1 r2 s1 s2 :
      Matches r1 s1 -> Matches r2 s2 -> Matches (Cat r1 r2) (s1 ++ s2)%list
  | MAltL r1 r2 s : Matches r1 s -> Matches (Alt r1 r2) s
  | MAltR r1 r2 s : Matches r2 s -> Matches (Alt r1 r2) s
  | MStar0 r : Matches (Star r) []
  | MStarS r s1 s2 :
      Matches r s1 -> Matches (Star r) s2 -> Matches (Star r) (s1 ++ s2)%list.

End Regex.

(** ** utils/helpers.js: the helpers beside the normalisation *)

Module HelpersMore.

(** The class [[^\s@]]. *)
Definition notSpaceOrAt (c : ascii) : bool := negb (isSpace c || Ascii.eqb c "@").

(** The pattern [/^[^\s@]+@[^\s@]+\.[^\s@]+$/] of [validateEmail]. *)
Definition emailRegex : Regex.regex :=
  Regex.Cat (Regex.Plus (Regex.Class notSpaceOrAt))
    (Regex.Cat (Regex.Class (Ascii.eqb "@"))
       (Regex.Cat (Regex.Plus (Regex.Class notSpaceOrAt))
          (Regex.Cat (Regex.Class (Ascii.eqb "."))
             (Regex.Plus (Regex.Class notSpaceOrAt))))).

Definition validateEmail (email : string) : bool := Regex.test emailRegex email.

(** [generateOutputFilename]; [timestamp] is what
    [moment().format('YYYYMMDD_HHmmss')] gives at the time of the call. *)
Definition generateOutputFilename (timestamp : string) (companyName : jsval)
    (format : string) : string :=
  Index.sanitizeCompanyName companyName ++ "_reviews_" ++ timestamp ++ "." ++ format.

(** [getRandomDelay(min, max)] on integers; [random] is the value of
    [Math.random()]. *)
Definition getRandomDelay (random : Q) (min max : Z) : Z :=
  (Qfloor (random * inject_Z (max - min + 1)) + min)%Z.

(** The class [\d]. *)
Definition isDigit (c : ascii) : bool :=
  let n := nat_of_ascii c in ((48 <=? n) && (n <=? 57))%nat.

(** The longest run of digits in front of a text, and what follows it. *)
Fixpoint digitRun (s : string) : string * string :=
  match s with
  | EmptyString => (EmptyString, EmptyString)
  | String c t =>
      if isDigit c then let '(ds, rest) := digitRun t in (String c ds, rest)
      else (EmptyString, s)
  end.

(** What [(\d+(?:\.\d+)?)] matches at the front of a text that starts with a
    digit: the run of digits and, when a dot and a digit follow, the dot and
    the next run of digits. *)
Definition numberAt (s : string) : string :=
  let '(int, rest) := digitRun s in
  match rest with
  | String "." rest' =>
      match digitRun rest' with
      | (EmptyString, _) => int
      | (frac, _) => int ++ "." ++ frac
      end
  | _ => int
  end.

(** [ratingText.match(/(\d+(?:\.\d+)?)/)]: the match starts at the first
    digit of the text. *)
Fixpoint firstNumber (s : string) : option string :=
  match s with
  | EmptyString => None
  | String c t => if isDigit c then Some (numberAt s) else firstNumber t
  end.

(** The number a run of digits denotes. *)
Fixpoint digitsValue (acc : Z) (s : string) : Z :=
  match s with
  | EmptyString => acc
  | String c t => digitsValue (10 * acc + Z.of_nat (nat_of_ascii c - 48))%Z t
  end.

(** [parseFloat] on a text that starts with a digit and holds no exponent:
    the decimal number in front of it.  The code applies it to matches of the
    pattern above only; any other text is answered [NaN] here. *)
Definition parseFloat (s : string) : jsnum :=
  match digitRun s with
  | (EmptyString, _) => NNaN
  | (int, rest) =>
      let frac :=
        match rest with
        | String "." rest' => fst (digitRun rest')
        | _ => EmptyString
        end in
      Num (Qred (inject_Z (digitsValue 0 int)
                 + inject_Z (digitsValue 0 frac)
                   / inject_Z (10 ^ Z.of_nat (String.length frac))))
  end.

(** [extractRating]. *)
Definition extractRating (ratingText : jsval) : jsnum :=
  if negb (truthy ratingText) then NNull
  else match firstNumber (orEmpty ratingText) with
       | Some m => parseFloat m
       | None => NNull
       end.

(** [truncateText(text, maxLength)] for an integer [maxLength]. *)
Definition truncateText (text : jsval) (maxLength : Z) : jsval :=
  match text with
  | JStr s =>
      if negb (truthy text) || (Z.of_nat (String.length s) <=? maxLength)%Z then text
      else JStr (sliceTo (Z.to_nat maxLength) s ++ "...")
  | _ => text
  end.

Definition userAgents : list string :=
  [ "Mozilla/5.0 (Windows NT 10.0; Win64; x64) AppleWebKit/537.36 (KHTML, like Gecko) Chrome/91.0.4472.124 Safari/537.36";
    "Mozilla/5.0 (Macintosh; Intel Mac OS X 10_15_7) AppleWebKit/537.36 (KHTML, like Gecko) Chrome/91.0.4472.124 Safari/537.36";
    "Mozilla/5.0 (Windows NT 10.0; Win64; x64; rv:89.0) Gecko/20100101 Firefox/89.0";
    "Mozilla/5.0 (Macintosh; Intel Mac OS X 10_15_7) AppleWebKit/605.1.15 (KHTML, like Gecko) Version/14.1.1 Safari/605.1.15";
    "Mozilla/5.0 (X11; Linux x86_64) AppleWebKit/537.36 (KHTML, like Gecko) Chrome/91.0.4472.124 Safari/537.36" ].

(** [getUserAgent]; an index outside the array gives [undefined]. *)
Definition getUserAgent (random : Q) : jsval :=
  let i := Qfloor (random * inject_Z (Z.of_nat (length userAgents))) in
  if (i <? 0)%Z then JUndefined
  else match userAgents !! Z.to_nat i with
       | Some ua => JStr ua
       | None => JUndefined
       end.

End HelpersMore.

(** [s.replace(pat, rep)] for a string pattern and a replacement without
    [$]: the first occurrence is replaced. *)
Fixpoint replaceFirst (pat rep s : string) : string :=
  match Index.dropPrefix pat s with
  | Some rest => rep ++ rest
  | None =>
      match s with
      | EmptyString => EmptyString
      | String c t => String c (replaceFirst pat rep t)
      end
  end.

(** The name of the statistics file in [processResults]. *)
Definition statsFile (filename : string) : string :=
  replaceFirst ".json" "_stats.json" filename.


(** ** A site that shows one new record on every page

    The world counts the pages loaded so far; the page loaded as the [n]-th
    shows the one record [f<n>]. *)

Module Feed.

Definition record (n : nat) : review :=
  mkReview (JStr ("f" ++ showZ (Z.of_nat n))) JNull
    (JStr ("review " ++ showZ (Z.of_nat n))) (Num 4) (JStr "Dee")
    (JStr "2024-02-03") (JStr "Capterra") JNull JNull.

Definition driver : PageDriver nat :=
  {| browserLaunch := fun w => (w, true);
     pageGoto := fun _ w => (S w, true);
     pageTitle := fun w => (w, Some "Reviews");
     pageCaptcha := fun w => w;
     pageSettle := fun w => w;
     pageExtract := fun _ w => (w, Some [record w]);
     pageFindProduct := fun _ _ w => (w, Some (JStr "https://www.capterra.com/p/1/slack/"));
     pageLoadMore := fun w => (w, false);
     pageNextPage := fun w => (S w, true);
     browserClose := fun w => w;
     writeJson := fun name _ w => (w, Some ("output/" ++ name));
     writeStats := fun name _ w => (w, Some ("output/" ++ name)) |}.

End Feed.


(** The numbers of [k] pages in a row, from [page] on. *)
Fixpoint pagesFrom (page : Z) (k : nat) : list Z :=
  match k with
  | O => []
  | S k' => page :: pagesFrom (page + 1) k'
  end.

(** A part of an address: not empty, without whitespace and without [@]. *)
Definition EmailPart (s : string) : Prop :=
  s <> ""%string
  /\ Forall (fun c => isSpace c = false /\ c <> "@"%char) (list_ascii_of_string s).

(** A turn of the loop over the scrapers leaves records and sources as they
    are, or appends the records of one harvest, which is not empty, and the
    name of the scraper. *)
Definition Contributes {W} (options : Index.Options) (s : Index.Scraper W)
    (st st' : Index.RunState W) : Prop :=
  (Index.allReviews st' = Index.allReviews st
   /\ sources (Index.stats st') = sources (Index.stats st))
  \/ exists u e0 reviews e1,
       Index.scrapeReviews s u (Index.startDate options) (Index.endDate options)
         (Index.limit options) e0
       = (Ret reviews, e1)
       /\ reviews <> []
       /\ Index.allReviews st' = (Index.allReviews st ++ reviews)%list
       /\ sources (Index.stats st') = (sources (Index.stats st) ++ [Index.sourceName s])%list.


(** * Properties *)

Local Open Scope list_scope.

(** ** The definitions at work *)

Example createReviewHash_example :
  Index.createReviewHash Examples.fromG2 = "workswellforus_annb_2024-03-01".
Proof. reflexivity. Qed.

Example cleanText_example :
  Helpers.cleanText (JStr (String (ascii_of_nat 10) "  Great   tool " ++ String (ascii_of_nat 9) ""))
  = "Great tool".
Proof. reflexivity. Qed.

Example parseDate_example :
  Helpers.parseDate (M := IsoDates.isoMoment 0) (JStr "2024-01-01") = JStr "2024-01-01".
Proof. reflexivity. Qed.

Example normalizeRating_examples :
  Helpers.normalizeRating (Num 4.26) = 4.3%Q
  /\ Helpers.normalizeRating (Num 7) = 5%Q
  /\ Helpers.normalizeRating (Num (-1)) = 0%Q
  /\ Helpers.normalizeRating NNull = 0%Q.
Proof. repeat split; reflexivity. Qed.

Example titleBlocked_examples :
  BaseScraper.titleBlocked "Access Denied" = true
  /\ BaseScraper.titleBlocked "Error 429: slow down" = true
  /\ BaseScraper.titleBlocked "Slack Reviews | G2" = false.
Proof. repeat split; reflexivity. Qed.

Example pageUrl_examples :
  G2Scraper.pageUrl "https://www.g2.com/products/slack/reviews" 1
  = "https://www.g2.com/products/slack/reviews"
  /\ G2Scraper.pageUrl "https://www.g2.com/products/slack/reviews" 12
     = "https://www.g2.com/products/slack/reviews?page=12#reviews".
Proof. repeat split; reflexivity. Qed.

(** The range filter keeps both ends. *)
Example filterReviewsByDateRange_example :
  id <$> BaseScraper.filterReviewsByDateRange (M := IsoDates.isoMoment 0)
    (Examples.pageOf "p1" ++ [Examples.undated "u"])
    (JStr "2024-02-02") (JStr "2024-02-04")
  = [JStr "p1_2"; JStr "p1_3"; JStr "p1_4"].
Proof. reflexivity. Qed.

(** ** Deduplication *)

Section Dedup.
Import Index.

Lemma removeDuplicatesFrom_length seen l :
  length (removeDuplicatesFrom seen l) <= length l.
Proof.
  revert seen; induction l as [|r l IH]; intros seen; simpl; [lia|].
  destruct (decide _); simpl; [specialize (IH seen) | specialize (IH ({[createReviewHash r]} ∪ seen))]; lia.
Qed.

Lemma removeDuplicatesFrom_sublist seen l :
  removeDuplicatesFrom seen l `sublist_of` l.
Proof.
  revert seen; induction l as [|r l IH]; intros seen; simpl; [constructor|].
  destruct (decide _); [apply sublist_cons | apply sublist_skip]; apply IH.
Qed.

(** A kept record has a key that was not in [seen]. *)
Lemma removeDuplicatesFrom_fresh seen l r :
  r ∈ removeDuplicatesFrom seen l -> createReviewHash r ∉ seen.
Proof.
  revert seen; induction l as [|x l IH]; intros seen; simpl.
  - intros H; inversion H.
  - destruct (decide _) as [Hin|Hnin].
    + apply IH.
    + intros [->|H]%elem_of_cons; [exact Hnin|].
      apply IH in H. set_solver.
Qed.

Lemma removeDuplicatesFrom_NoDup seen l :
  NoDup (createReviewHash <$> removeDuplicatesFrom seen l).
Proof.
  revert seen; induction l as [|x l IH]; intros seen; simpl; [constructor|].
  destruct (decide _) as [Hin|Hnin]; [apply IH|].
  rewrite fmap_cons. apply NoDup_cons; split; [|apply IH].
  intros (y & Hy & Hin)%list_elem_of_fmap.
  apply removeDuplicatesFrom_fresh in Hin. rewrite <- Hy in Hin. set_solver.
Qed.

(** A list whose keys are pairwise distinct and new is left as it is. *)
Lemma removeDuplicatesFrom_id seen l :
  NoDup (createReviewHash <$> l) ->
  (forall r, r ∈ l -> createReviewHash r ∉ seen) ->
  removeDuplicatesFrom seen l = l.
Proof.
  revert seen; induction l as [|x l IH]; intros seen Hnd Hfresh; simpl; [done|].
  rewrite fmap_cons in Hnd. apply NoDup_cons in Hnd as [Hx Hnd].
  destruct (decide _) as [Hin|Hnin].
  - exfalso. apply (Hfresh x); [left | done].
  - f_equal. apply IH; [done|].
    intros r Hr. specialize (Hfresh r (list_elem_of_further _ _ _ Hr)).
    intros [Heq%elem_of_singleton|Hs]%elem_of_union; [|done].
    apply Hx. rewrite <- Heq. apply list_elem_of_fmap. eauto.
Qed.

Lemma removeDuplicates_idempotent l :
  removeDuplicates (removeDuplicates l) = removeDuplicates l.
Proof.
  unfold removeDuplicates. apply removeDuplicatesFrom_id.
  - apply removeDuplicatesFrom_NoDup.
  - intros r _. set_solver.
Qed.

(** The loop, one record further: the record is appended iff its key is new. *)
Lemma removeDuplicatesFrom_snoc seen l r :
  removeDuplicatesFrom seen (l ++ [r])
  = removeDuplicatesFrom seen l
    ++ (if decide (createReviewHash r ∈ seen
                   \/ createReviewHash r ∈ createReviewHash <$> l)
        then [] else [r]).
Proof.
  revert seen; induction l as [|x l IH]; intros seen; simpl.
  - destruct (decide (_ ∈ seen)) as [Hin|Hnin].
    + rewrite decide_True; [done | by left].
    + rewrite decide_False; [done|]. intros [?|H]; [done | inversion H].
  - destruct (decide (createReviewHash x ∈ seen)) as [Hin|Hnin]; simpl.
    + rewrite IH. f_equal.
      destruct (decide (_ \/ _)) as [H1|H1]; destruct (decide (_ \/ _)) as [H2|H2];
        try done; exfalso.
      * apply H2. destruct H1 as [?|?]; [by left | right; by right].
      * apply H1. destruct H2 as [?|[->|?]%elem_of_cons]; [by left | by left | by right].
    + rewrite IH. f_equal. f_equal.
      destruct (decide (_ \/ _)) as [H1|H1]; destruct (decide (_ \/ _)) as [H2|H2];
        try done; exfalso.
      * apply H2. destruct H1 as [[->%elem_of_singleton|?]%elem_of_union|?];
          [right; left | by left | right; by right].
      * apply H1. destruct H2 as [?|[->|?]%elem_of_cons];
          [left; set_solver | left; set_solver | by right].
Qed.

Lemma removeDuplicates_snoc l r :
  removeDuplicates (l ++ [r])
  = removeDuplicates l
    ++ (if decide (createReviewHash r ∈ createReviewHash <$> l) then [] else [r]).
Proof.
  unfold removeDuplicates. rewrite removeDuplicatesFrom_snoc. f_equal.
  destruct (decide (_ \/ _)) as [H1|H1]; destruct (decide (_ ∈ _)) as [H2|H2];
    try done; exfalso.
  - destruct H1 as [H1|H1]; [set_solver | done].
  - apply H1. by right.
Qed.

End Dedup.

Section DedupClaims.
Import Index.

Lemma removeDuplicates_first_seen l r :
  r ∈ removeDuplicates l <->
  exists l1 l2, l = l1 ++ r :: l2
                /\ createReviewHash r ∉ createReviewHash <$> l1.
Proof.
  induction l as [|x l IH] using rev_ind.
  - split.
    + intros H; inversion H.
    + intros (l1 & l2 & Heq & _). by destruct l1.
  - rewrite removeDuplicates_snoc, elem_of_app, IH. split.
    + intros [(l1 & l2 & -> & Hfresh)|Hx].
      * exists l1, (l2 ++ [x]). by rewrite <- app_assoc.
      * destruct (decide _) as [|Hfresh]; [inversion Hx|].
        apply list_elem_of_singleton in Hx as ->. exists l, []. done.
    + intros (l1 & l2 & Heq & Hfresh).
      destruct l2 as [|y l2 _] using rev_ind.
      * apply app_inj_tail in Heq as [-> ->]. right.
        rewrite decide_False by done. by left.
      * left. exists l1, l2. split; [|done].
        change (l1 ++ r :: l2 ++ [y]) with (l1 ++ (r :: l2) ++ [y]) in Heq.
        rewrite app_assoc in Heq. by apply app_inj_tail in Heq as [-> _].
Qed.

(** C8: deduplication is idempotent, and its result is never longer than its
    input. *)
Theorem C8_dedup_idempotent_nonexpanding (X : list review) :
  removeDuplicates (removeDuplicates X) = removeDuplicates X
  /\ length (removeDuplicates X) <= length X.
Proof.
  split; [apply removeDuplicates_idempotent | apply removeDuplicatesFrom_length].
Qed.

(** C1, as amended: the key of a record is the first 100 characters of its
    content, its author and its date joined by underscores, lower-cased, with
    the whitespace removed; deduplication keeps, in merge order, exactly the
    first record of every key; two records equal in content, author and date
    merge into the first of them. *)
Theorem C1_dedup_first_seen :
  (forall r,
     createReviewHash r
     = stripWhitespace
         (toLowerCase (sliceTo 100 (orEmpty (content r)) ++ "_"
                       ++ orEmpty (author r) ++ "_" ++ orEmpty (date r))%string))
  /\ (forall l r,
        removeDuplicates (l ++ [r])
        = removeDuplicates l
          ++ (if decide (createReviewHash r ∈ createReviewHash <$> l)
              then [] else [r]))
  /\ (forall l r,
        r ∈ removeDuplicates l <->
        exists l1 l2, l = l1 ++ r :: l2
                      /\ createReviewHash r ∉ createReviewHash <$> l1)
  /\ (forall l, removeDuplicates l `sublist_of` l
                /\ NoDup (createReviewHash <$> removeDuplicates l))
  /\ (forall r1 r2,
        content r1 = content r2 -> author r1 = author r2 -> date r1 = date r2 ->
        removeDuplicates ([r1] ++ [r2]) = [r1]).
Proof.
  split; [reflexivity|].
  split; [apply removeDuplicates_snoc|].
  split; [apply removeDuplicates_first_seen|].
  split.
  - intros l. split; [apply removeDuplicatesFrom_sublist | apply removeDuplicatesFrom_NoDup].
  - intros r1 r2 Hc Ha Hd.
    rewrite removeDuplicates_snoc. change (removeDuplicates [r1]) with [r1].
    rewrite decide_True; [done|].
    assert (createReviewHash r2 = createReviewHash r1) as ->
      by (unfold createReviewHash; by rewrite Hc, Ha, Hd).
    by left.
Qed.

(** The scenario of C1 on two concrete records. *)
Lemma C1_dedup_first_seen_witness :
  removeDuplicates ([Examples.fromG2] ++ [Examples.fromCapterra]) = [Examples.fromG2].
Proof.
  apply (proj2 (proj2 (proj2 (proj2 C1_dedup_first_seen)))); reflexivity.
Defined.

(** C1, as stated, fails: with the key worded as a plain concatenation, two
    records whose content and author split the same text differently have one
    key, and yet both are kept. *)
Lemma C1_counterexample :
  specKey Examples.recA = specKey Examples.recB
  /\ removeDuplicates [Examples.recA; Examples.recB] = [Examples.recA; Examples.recB].
Proof. split; vm_compute; reflexivity. Qed.

End DedupClaims.

(** ** The date-range filter *)

Section DateRange.
Context {M : Moment}.

Lemma isDateInRange_spec startDate endDate r :
  (if negb (truthy (date r)) then false
   else Helpers.isDateInRange (date r) startDate endDate) = true
  <-> InRange startDate endDate r.
Proof.
  unfold InRange, Helpers.isDateInRange.
  destruct (truthy (date r)); simpl.
  - destruct (moment (date r)) as [d|], (moment startDate) as [s|],
      (moment endDate) as [e|]; split;
      try (intros H; discriminate H);
      try (intros (_ & ? & ? & ? & ? & ? & ? & _); discriminate).
    + intros [H1 H2]%andb_true_iff. split; [done|]. exists d, s, e. repeat split; lia.
    + intros (_ & d' & s' & e' & Hd & Hs & He & Hle).
      injection Hd as <-. injection Hs as <-. injection He as <-.
      apply andb_true_iff. split; lia.
  - split; [discriminate | intros [? _]; discriminate].
Qed.


End DateRange.


(** ** The rating of an output record *)

Section Rating.
Context {M : Moment}.


Lemma Qlt_bool_false a b : Helpers.Qlt_bool a b = false <-> (b <= a)%Q.
Proof.
  unfold Helpers.Qlt_bool. rewrite negb_false_iff. apply Qle_bool_iff.
Qed.

Lemma mathRound_bounds q :
  (inject_Z (Helpers.mathRound q) <= q + (1 # 2)
   /\ q - (1 # 2) < inject_Z (Helpers.mathRound q))%Q.
Proof.
  unfold Helpers.mathRound.
  pose proof (Qfloor_le (q + (1 # 2))) as Hle.
  pose proof (Qlt_floor (q + (1 # 2))) as Hlt.
  rewrite inject_Z_plus in Hlt. change (inject_Z 1) with 1%Q in Hlt.
  split; lra.
Qed.




End Rating.

(** ** Sorting *)

Section SortedFacts.
Context {A : Type} (R : A -> A -> Prop).

Lemma StronglySorted_lookup l i j x y :
  StronglySorted R l -> i < j -> l !! i = Some x -> l !! j = Some y -> R x y.
Proof.
  intros Hs. revert i j. induction Hs as [|a l Hs IH Hall]; intros i j Hij Hi Hj.
  - discriminate.
  - destruct j as [|j]; [lia|]. destruct i as [|i]; simpl in *.
    + injection Hi as <-. rewrite Forall_forall in Hall. apply Hall.
      by eapply list_elem_of_lookup_2.
    + apply (IH i j); [lia | done | done].
Qed.

End SortedFacts.


Lemma filter_none {A} (f : A -> bool) (l : list A) :
  (forall x, x ∈ l -> f x = false) -> List.filter f l = [].
Proof.
  induction l as [|y l IH]; intros Hall; simpl; [done|].
  rewrite (Hall y) by left. apply IH. intros x Hx. apply Hall. by right.
Qed.

(** Node's sort meets the contract of [sort]: the facts on its steps. *)

Section SortCorrect.
Context {A : Type} (cmp : A -> A -> Z).
Import V8.

Lemma insertAt_shape (a : list A) start left pivot :
  a !! start = Some pivot -> left <= start ->
  a = take left a ++ take (start - left) (drop left a) ++ pivot :: drop (S start) a.
Proof.
  intros Hp Hle.
  rewrite <- (take_drop left a) at 1. f_equal.
  rewrite <- (take_drop (start - left) (drop left a)) at 1. f_equal.
  rewrite drop_drop. replace (left + (start - left)) with start by lia.
  by apply drop_S.
Qed.

Lemma findSlot_S a pivot fuel left right :
  findSlot cmp a pivot (S fuel) left right
  = if (left <? right)%nat then
      match a !! (left + (right - left) / 2) with
      | Some m =>
          if (cmp pivot m <? 0)%Z
          then findSlot cmp a pivot fuel left (left + (right - left) / 2)
          else findSlot cmp a pivot fuel (left + (right - left) / 2 + 1) right
      | None => left
      end
    else left.
Proof. reflexivity. Qed.

Lemma findSlot_bounds a pivot fuel left right :
  left <= right -> left <= findSlot cmp a pivot fuel left right <= right.
Proof.
  revert left right. induction fuel as [|f IH]; intros left right Hle; [simpl; lia|].
  rewrite findSlot_S.
  destruct (Nat.ltb_spec left right) as [Hlt|]; [|lia].
  assert ((right - left) / 2 < right - left) as Hhalf by (apply Nat.div_lt; lia).
  destruct (a !! _) as [m|]; [|lia].
  destruct (cmp pivot m <? 0)%Z.
  - specialize (IH left (left + (right - left) / 2)). lia.
  - specialize (IH (left + (right - left) / 2 + 1) right). lia.
Qed.

Lemma insertAt_perm a start : insertAt cmp a start ≡ₚ a.
Proof.
  unfold insertAt. destruct (a !! start) as [pivot|] eqn:Hp; [|done].
  set (left := findSlot cmp a pivot (S start) 0 start).
  assert (left <= start) as Hle by (apply findSlot_bounds; lia).
  rewrite (insertAt_shape a start left pivot Hp Hle) at 4.
  f_equiv. by rewrite <- Permutation_middle.
Qed.

Lemma fold_insertAt_perm ks a : fold_left (insertAt cmp) ks a ≡ₚ a.
Proof.
  revert a. induction ks as [|k ks IH]; intros a; simpl; [done|].
  by rewrite IH, insertAt_perm.
Qed.

Lemma countAndMakeRun_perm a : (countAndMakeRun cmp a).2 ≡ₚ a.
Proof.
  unfold countAndMakeRun. destruct a as [|h [|l rest]]; [done..|].
  cbv zeta. destruct (cmp l h <? 0)%Z; simpl snd; [|done].
  rewrite <- (take_drop (runLength cmp true l rest 2) (h :: l :: rest)) at 3.
  f_equiv. by rewrite <- Permutation_rev.
Qed.

Lemma V8_sort_perm a : sort cmp a ≡ₚ a.
Proof.
  unfold sort. destruct (length a <? 2)%nat; [done|].
  pose proof (countAndMakeRun_perm a) as H.
  destruct (countAndMakeRun cmp a) as [n a']. simpl in H.
  by rewrite fold_insertAt_perm.
Qed.

(** The slot of the binary search. *)
Lemma findSlot_spec a pivot lo hi fuel left right :
  right - left < fuel -> left <= right -> right <= length a ->
  (left = lo \/ exists y, a !! (left - 1) = Some y /\ (0 <= cmp pivot y)%Z) ->
  (right = hi \/ exists y, a !! right = Some y /\ (cmp pivot y < 0)%Z) ->
  let r := findSlot cmp a pivot fuel left right in
  (r = lo \/ exists y, a !! (r - 1) = Some y /\ (0 <= cmp pivot y)%Z)
  /\ (r = hi \/ exists y, a !! r = Some y /\ (cmp pivot y < 0)%Z).
Proof.
  revert left right. induction fuel as [|f IH]; intros left right Hf Hle Hlen Hlo Hhi; [lia|].
  cbv zeta. rewrite findSlot_S. destruct (Nat.ltb_spec left right) as [Hlt|Hge].
  - assert ((right - left) / 2 < right - left) as Hhalf by (apply Nat.div_lt; lia).
    set (mid := left + (right - left) / 2) in *.
    destruct (lookup_lt_is_Some_2 a mid ltac:(lia)) as [m Hm]. rewrite Hm.
    destruct (Z.ltb_spec (cmp pivot m) 0%Z) as [Hc|Hc].
    + apply IH; [lia..|done|]. right. by exists m.
    + apply IH; [lia..| |done]. right. exists m.
      by replace (mid + 1 - 1) with mid by lia.
  - assert (left = right) as -> by lia. done.
Qed.

Section OnConsistent.
Variable L : list A.
Hypothesis HC : Consistent cmp L.

Lemma consistent_lt_gt a b : a ∈ L -> b ∈ L -> (cmp a b < 0)%Z -> (0 < cmp b a)%Z.
Proof.
  intros Ha Hb Hlt.
  destruct (HC a b a Ha Hb Ha) as (Hrefl & _ & _ & Htr & _).
  destruct (HC b a b Hb Ha Hb) as (_ & Hsym & _).
  destruct (Z.lt_trichotomy (cmp b a) 0) as [H|[H|H]]; [|lia|lia].
  specialize (Htr Hlt H). lia.
Qed.

Lemma consistent_gt_lt a b : a ∈ L -> b ∈ L -> (0 < cmp a b)%Z -> (cmp b a < 0)%Z.
Proof.
  intros Ha Hb Hgt.
  destruct (HC a b a Ha Hb Ha) as (Hrefl & _ & _ & _ & Htr).
  destruct (HC b a b Hb Ha Hb) as (_ & Hsym & _).
  destruct (Z.lt_trichotomy (cmp b a) 0) as [H|[H|H]]; [lia|lia|].
  specialize (Htr ltac:(lia) ltac:(lia)). lia.
Qed.

(** An element that ties with [x] cannot stand behind one that [x] sorts
    before, in a sorted list. *)
Lemma consistent_tie_behind x y0 v :
  x ∈ L -> y0 ∈ L -> v ∈ L ->
  (cmp x y0 < 0)%Z -> (0 <= cmp v y0)%Z -> (cmp x v = 0)%Z -> False.
Proof.
  intros Hx Hy Hv Hlt Hsorted Htie.
  destruct (HC x v y0 Hx Hv Hy) as (_ & _ & Htr0 & _).
  destruct (HC x y0 v Hx Hy Hv) as (_ & _ & _ & Htrlt & _).
  destruct (Z.lt_trichotomy (cmp v y0) 0) as [H|[H|H]]; [lia| |].
  - specialize (Htr0 Htie H). lia.
  - pose proof (consistent_gt_lt v y0 Hv Hy H) as Hyv.
    specialize (Htrlt Hlt Hyv). lia.
Qed.

(** An element put behind a prefix it does not sort before and in front of
    an element it sorts before: the list stays sorted, and the element comes
    last among those it ties with. *)
Lemma place_sorted x s1 s2 :
  x ∈ L -> s1 ++ s2 ⊆ L -> SortedBy cmp (s1 ++ s2) ->
  Forall (fun y => (0 <= cmp x y)%Z) s1 ->
  (s2 = [] \/ exists y0 s2', s2 = y0 :: s2' /\ (cmp x y0 < 0)%Z) ->
  SortedBy cmp (s1 ++ x :: s2).
Proof.
  intros Hx Hsub Hs Hall Hs2. unfold SortedBy in *.
  apply StronglySorted_app in Hs as (Hcross & Hs1 & Hs2s).
  apply StronglySorted_app. split; [|split; [done|]].
  - intros u v Hu [->|Hv]%elem_of_cons.
    + rewrite Forall_forall in Hall. by apply Hall.
    + by apply Hcross.
  - apply StronglySorted_cons. split; [|done].
    destruct Hs2 as [->|(y0 & s2' & -> & Hlt)]; [constructor|].
    assert (y0 ∈ L) as Hy0 by (apply Hsub, elem_of_app; right; left).
    apply StronglySorted_cons in Hs2s as [Hy0all _].
    constructor.
    + pose proof (consistent_lt_gt x y0 Hx Hy0 Hlt). lia.
    + rewrite Forall_forall in Hy0all |- *. intros v Hv.
      assert (v ∈ L) as HvL by (apply Hsub, elem_of_app; right; by right).
      specialize (Hy0all v Hv).
      destruct (Z.lt_trichotomy (cmp v x) 0) as [H|[H|H]]; [|lia|lia].
      destruct (HC v x y0 HvL Hx Hy0) as (_ & _ & _ & Htr & _).
      specialize (Htr H Hlt). lia.
Qed.

Lemma place_stable x s1 s2 w :
  x ∈ L -> s1 ++ s2 ⊆ L -> w ∈ L -> SortedBy cmp (s1 ++ s2) ->
  (s2 = [] \/ exists y0 s2', s2 = y0 :: s2' /\ (cmp x y0 < 0)%Z) ->
  List.filter (fun y => (cmp w y =? 0)%Z) (s1 ++ x :: s2)
  = List.filter (fun y => (cmp w y =? 0)%Z) (s1 ++ s2)
    ++ List.filter (fun y => (cmp w y =? 0)%Z) [x].
Proof.
  intros Hx Hsub Hw Hs Hs2. unfold SortedBy in *.
  rewrite !List.filter_app. change (x :: s2) with ([x] ++ s2). rewrite List.filter_app.
  rewrite <- app_assoc. f_equal. simpl.
  destruct (cmp w x =? 0)%Z eqn:E; simpl; [|by rewrite app_nil_r].
  assert (List.filter (fun y => (cmp w y =? 0)%Z) s2 = []) as ->; [|done].
  destruct Hs2 as [->|(y0 & s2' & -> & Hlt)]; [done|].
  apply StronglySorted_app in Hs as (_ & _ & Hs2s).
  apply StronglySorted_cons in Hs2s as [Hy0all _].
  assert (y0 ∈ L) as Hy0 by (apply Hsub, elem_of_app; right; left).
  assert (Hxv : forall v, v ∈ L -> (cmp w v = 0)%Z -> (cmp x v = 0)%Z).
  { intros v Hv Hwv.
    destruct (HC w x v Hw Hx Hv) as (_ & Hsym & _).
    destruct (HC x w v Hx Hw Hv) as (_ & _ & Htr & _).
    apply Htr; [apply Hsym; lia | done]. }
  apply filter_none. intros v Hv. apply Z.eqb_neq. intros Hwv.
  assert (v ∈ L) as HvL by (apply Hsub, elem_of_app; by right).
  rewrite Forall_forall in Hy0all.
  apply elem_of_cons in Hv as [->|Hv].
  - specialize (Hxv y0 Hy0 Hwv). lia.
  - apply (consistent_tie_behind x y0 v Hx Hy0 HvL Hlt); [by apply Hy0all | by apply Hxv].
Qed.

Lemma consistent_ge_trans a b c :
  a ∈ L -> b ∈ L -> c ∈ L ->
  (0 <= cmp a b)%Z -> (0 <= cmp b c)%Z -> (0 <= cmp a c)%Z.
Proof.
  intros Ha Hb Hc Hab Hbc.
  destruct (Z.lt_trichotomy (cmp a c) 0%Z) as [Hlt|[H|H]]; [|lia..].
  exfalso.
  destruct (HC a b c Ha Hb Hc) as (_ & Hsym & Htr0 & _ & Htrg).
  destruct (HC b a c Hb Ha Hc) as (_ & _ & _ & Htrl & _).
  destruct (HC a c b Ha Hc Hb) as (_ & _ & _ & Htrl' & _).
  destruct (Z.eq_dec (cmp a b) 0%Z) as [E1|N1], (Z.eq_dec (cmp b c) 0%Z) as [E2|N2].
  - specialize (Htr0 E1 E2). lia.
  - pose proof (consistent_gt_lt b c Hb Hc ltac:(lia)).
    specialize (Htrl' Hlt H). lia.
  - pose proof (consistent_gt_lt a b Ha Hb ltac:(lia)).
    specialize (Htrl H Hlt). lia.
  - specialize (Htrg ltac:(lia) ltac:(lia)). lia.
Qed.

(** A run found by [countAndMakeRun]. *)
Lemma runLength_spec d prev rest n :
  exists m, runLength cmp d prev rest n = n + m /\ m <= length rest
    /\ Sorted (fun x y => if d then (cmp y x < 0)%Z else (0 <= cmp y x)%Z)
              (prev :: take m rest).
Proof.
  revert prev n. induction rest as [|x rest IH]; intros prev n; simpl.
  - exists 0. split; [lia|]. split; [done|]. repeat constructor.
  - destruct (if d then _ else _) eqn:E.
    + exists 0. split; [lia|]. split; [lia|]. repeat constructor.
    + destruct (IH x (S n)) as (m & -> & Hm & Hs).
      exists (S m). split; [lia|]. split; [lia|]. simpl.
      constructor; [done|]. constructor.
      destruct d; [apply Z.leb_gt in E | apply Z.ltb_ge in E]; done.
Qed.

Lemma ascending_run l :
  l ⊆ L -> Sorted (fun x y => (0 <= cmp y x)%Z) l -> SortedBy cmp l.
Proof.
  intros Hsub Hs. induction Hs as [|x l Hs IH Hhd]; [constructor|].
  assert (l ⊆ L) as Hl by set_solver.
  specialize (IH Hl). constructor; [done|].
  destruct Hhd as [|y l' Hxy]; [constructor|].
  apply StronglySorted_cons in IH as [Hy _]. constructor; [done|].
  rewrite Forall_forall in Hy |- *. intros z Hz.
  apply (consistent_ge_trans z y x); [set_solver..| by apply Hy | done].
Qed.

Lemma descending_run l :
  l ⊆ L -> Sorted (fun x y => (cmp y x < 0)%Z) l ->
  StronglySorted (fun x y => (cmp y x < 0)%Z) l.
Proof.
  intros Hsub Hs. induction Hs as [|x l Hs IH Hhd]; [constructor|].
  assert (l ⊆ L) as Hl by set_solver.
  specialize (IH Hl). constructor; [done|].
  destruct Hhd as [|y l' Hxy]; [constructor|].
  apply StronglySorted_cons in IH as [Hy _]. constructor; [done|].
  rewrite Forall_forall in Hy |- *. intros z Hz.
  destruct (HC z y x) as (_ & _ & _ & Htr & _); [set_solver..|].
  apply Htr; [by apply Hy | done].
Qed.

Lemma descending_rev_sorted l :
  l ⊆ L -> StronglySorted (fun x y => (cmp y x < 0)%Z) l -> SortedBy cmp (rev l).
Proof.
  intros Hsub Hs. induction Hs as [|x l Hs IH Hx]; [constructor|].
  simpl. apply StronglySorted_app. split; [|split].
  - intros u v Hu Hv. apply list_elem_of_singleton in Hv as ->.
    apply list_elem_of_In, in_rev, list_elem_of_In in Hu.
    rewrite Forall_forall in Hx. specialize (Hx u Hu).
    pose proof (consistent_lt_gt u x ltac:(set_solver) ltac:(set_solver) Hx). lia.
  - apply IH. set_solver.
  - repeat constructor.
Qed.

Lemma descending_ties l w :
  l ⊆ L -> w ∈ L -> StronglySorted (fun x y => (cmp y x < 0)%Z) l ->
  length (List.filter (fun y => (cmp w y =? 0)%Z) l) <= 1.
Proof.
  intros Hsub Hw Hs. induction Hs as [|x l Hs IH Hx]; [simpl; lia|].
  simpl. destruct (Z.eqb_spec (cmp w x) 0%Z) as [E|N]; [|apply IH; set_solver].
  rewrite filter_none; [simpl; lia|].
  intros y Hy. apply Z.eqb_neq. intros Ey.
  rewrite Forall_forall in Hx. specialize (Hx y Hy).
  assert (x ∈ L) as HxL by set_solver. assert (y ∈ L) as HyL by set_solver.
  destruct (HC w y x Hw HyL HxL) as (_ & Hsym & _).
  destruct (HC y w x HyL Hw HxL) as (_ & _ & Htr & _).
  specialize (Htr (Hsym Ey) E). lia.
Qed.

Lemma descending_rev_stable l w :
  l ⊆ L -> w ∈ L -> StronglySorted (fun x y => (cmp y x < 0)%Z) l ->
  List.filter (fun y => (cmp w y =? 0)%Z) (rev l)
  = List.filter (fun y => (cmp w y =? 0)%Z) l.
Proof.
  intros Hsub Hw Hs. rewrite List.filter_rev.
  pose proof (descending_ties l w Hsub Hw Hs) as Hlen.
  destruct (List.filter _ l) as [|a [|b t]]; simpl in *; [done..|lia].
Qed.

Lemma countAndMakeRun_placed a :
  a ⊆ L -> 2 <= length a ->
  Placed cmp L a (countAndMakeRun cmp a).1 (countAndMakeRun cmp a).2.
Proof.
  intros Hsub Hlen. pose proof (countAndMakeRun_perm a) as Hperm.
  unfold countAndMakeRun in *.
  destruct a as [|h [|l rest]]; [simpl in Hlen; lia..|].
  cbv zeta in *.
  destruct (runLength_spec (cmp l h <? 0)%Z l rest 2) as (m & Hn & Hm & Hrun).
  rewrite Hn in *.
  set (a := h :: l :: rest) in *.
  assert (Hrun' : Sorted (fun x y => if (cmp l h <? 0)%Z then (cmp y x < 0)%Z else (0 <= cmp y x)%Z)
                    (take (2 + m) a)).
  { simpl. constructor; [done|]. constructor.
    destruct (Z.ltb_spec (cmp l h) 0%Z); done. }
  assert (take (2 + m) a ⊆ L) as Hrl.
  { intros v Hv. apply Hsub. by eapply subseteq_take. }
  assert (length (take (2 + m) a) = 2 + m) as Hl.
  { rewrite length_take. simpl. lia. }
  assert (2 + m <= length a) as Hle by (simpl; lia).
  clearbody a. clear Hrun.
  destruct (cmp l h <? 0)%Z; unfold fst, snd in *.
  - apply descending_run in Hrun'; [|done].
    rewrite <- length_rev in Hl.
    split; [done|]. split; [done|].
    split; [by rewrite drop_app_length'|].
    rewrite take_app_length' by done. split.
    + by apply descending_rev_sorted.
    + intros w Hw. by apply descending_rev_stable.
  - split; [done|]. split; [done|]. split; [done|]. split; [|done].
    by apply ascending_run.
Qed.

Lemma insertAt_placed a k c :
  a ⊆ L -> Placed cmp L a k c -> k < length a -> Placed cmp L a (S k) (insertAt cmp c k).
Proof.
  intros Hsub (Hperm & _ & Hdrop & Hsorted & Hstable) Hk.
  assert (length c = length a) as Hlen by (by rewrite Hperm).
  destruct (lookup_lt_is_Some_2 a k Hk) as [p Hp].
  assert (c !! k = Some p) as Hcp.
  { rewrite <- (Nat.add_0_r k), <- lookup_drop, Hdrop, lookup_drop, Nat.add_0_r. done. }
  assert (c ⊆ L) as HcL by (intros v Hv; rewrite Hperm in Hv; auto).
  assert (p ∈ L) as HpL by (apply Hsub; by eapply list_elem_of_lookup_2).
  pose proof (insertAt_perm c k) as Hperm'.
  unfold insertAt in *. rewrite Hcp in *.
  set (r := findSlot cmp c p (S k) 0 k) in *.
  assert (r <= k) as Hr by (apply findSlot_bounds; lia).
  destruct (findSlot_spec c p 0 k (S k) 0 k) as [Hlo Hhi]; [lia..|by left|by left|].
  fold r in Hlo, Hhi.
  set (P := take k c) in *.
  assert (length P = k) as HlenP by (unfold P; rewrite length_take; lia).
  assert (take r c = take r P) as E1.
  { unfold P. rewrite take_take. f_equal. lia. }
  assert (take (k - r) (drop r c) = drop r P) as E2.
  { unfold P. rewrite take_drop_commute. do 2 f_equal. lia. }
  rewrite E1, E2 in *.
  assert (P ⊆ L) as HPL.
  { intros v Hv. apply HcL. by eapply subseteq_take. }
  assert (Hs1 : Forall (fun y => (0 <= cmp p y)%Z) (take r P)).
  { destruct Hlo as [->|(y & Hy & Hpy)]; [by rewrite take_0|].
    destruct (decide (r = 0)) as [->|Hr0]; [by rewrite take_0|].
    assert (P !! (r - 1) = Some y) as HyP.
    { unfold P. rewrite lookup_take_lt by lia. done. }
    apply Forall_forall. intros z Hz.
    apply list_elem_of_lookup in Hz as [i Hi].
    pose proof (lookup_lt_Some _ _ _ Hi) as Hil. rewrite length_take in Hil.
    rewrite lookup_take_lt in Hi by lia.
    destruct (decide (i = r - 1)) as [->|Hne].
    - by simplify_eq.
    - pose proof (StronglySorted_lookup _ _ i (r - 1) z y Hsorted ltac:(lia) Hi HyP) as Hzy.
      simpl in Hzy.
      apply (consistent_ge_trans p y z); [done| | |done|done].
      + apply HPL. by eapply list_elem_of_lookup_2.
      + apply HPL. by eapply list_elem_of_lookup_2. }
  assert (Hs2 : drop r P = [] \/ exists y0 s2', drop r P = y0 :: s2' /\ (cmp p y0 < 0)%Z).
  { destruct (decide (r = k)) as [->|Hne].
    - left. apply drop_ge. lia.
    - right. destruct Hhi as [?|(y & Hy & Hpy)]; [done|].
      exists y, (drop (S r) P). split; [|done].
      apply drop_S. unfold P. rewrite lookup_take_lt by lia. done. }
  assert (Hlen1 : length (take r P ++ p :: drop r P) = S k).
  { rewrite length_app. simpl. rewrite length_take, length_drop. lia. }
  split; [by rewrite Hperm'|]. split; [lia|].
  assert (Hre : take r P ++ p :: drop r P ++ drop (S k) c
                = (take r P ++ p :: drop r P) ++ drop (S k) c).
  { by rewrite <- app_assoc. }
  rewrite Hre, drop_app_length', take_app_length' by done.
  assert (HPP : take r P ++ drop r P = P) by apply take_drop.
  split; [|split].
  - replace (S k) with (k + 1) by lia. rewrite <- !drop_drop. by rewrite Hdrop.
  - apply (place_sorted); rewrite ?HPP; done.
  - intros w Hw.
    rewrite (place_stable); rewrite ?HPP; [|done..].
    rewrite (take_S_r a k p Hp), List.filter_app. by rewrite Hstable.
Qed.

Lemma fold_insertAt_placed a m n c :
  a ⊆ L -> Placed cmp L a n c -> n + m = length a ->
  Placed cmp L a (length a) (fold_left (insertAt cmp) (seq n m) c).
Proof.
  intros Hsub. revert n c. induction m as [|m IH]; intros n c Hp Hn; simpl.
  - by replace (length a) with n by lia.
  - apply IH; [|lia]. apply insertAt_placed; [done..|lia].
Qed.

Lemma V8_sort_correct a :
  a ⊆ L ->
  SortedBy cmp (sort cmp a)
  /\ forall w, w ∈ L ->
       List.filter (fun y => (cmp w y =? 0)%Z) (sort cmp a)
       = List.filter (fun y => (cmp w y =? 0)%Z) a.
Proof.
  intros Hsub. unfold sort.
  destruct (Nat.ltb_spec (length a) 2) as [Hlt|Hge].
  - split; [|done]. destruct a as [|x [|y a]]; [repeat constructor..|simpl in Hlt; lia].
  - pose proof (countAndMakeRun_placed a Hsub Hge) as Hp.
    destruct (countAndMakeRun cmp a) as [n a']. simpl in Hp.
    destruct (fold_insertAt_placed a (length a - n) n a' Hsub Hp) as (Hperm & _ & _ & Hs & Hst).
    { destruct Hp as (_ & ? & _). lia. }
    assert (length (fold_left (insertAt cmp) (seq n (length a - n)) a') = length a) as Hlen
      by (by rewrite Hperm).
    rewrite take_ge in Hs by lia.
    split; [done|]. intros w Hw. specialize (Hst w Hw).
    by rewrite !take_ge in Hst by lia.
Qed.

End OnConsistent.

End SortCorrect.

(** Node's sort meets the contract of the language. *)
Lemma v8Engine_contract : SortContract v8Engine.
Proof.
  split; simpl.
  - intros A cmp l. apply V8_sort_perm.
  - intros A cmp l HC. by apply (V8_sort_correct cmp l HC l).
  - intros A cmp l HC w Hw. by apply (V8_sort_correct cmp l HC l).
Qed.

(** ** The order of the output *)

Section Order.
Context {M : Moment} {AS : ArraySort}.
Import Index.




End Order.



(** ** Reasoning on the monad *)

Section MonadFacts.
Context {S : Type}.

Lemma NoThrow_ret {A} (a : A) : NoThrow (S := S) (ret a).
Proof. intros st. by eexists _, _. Qed.

Lemma NoThrow_bind {A B} (m : Run S A) (k : A -> Run S B) :
  NoThrow m -> (forall a, NoThrow (k a)) -> NoThrow (bind m k).
Proof.
  intros Hm Hk st. unfold bind. destruct (Hm st) as (a & st' & ->). apply Hk.
Qed.

(** A [try] whose handler returns normally returns normally, whatever the
    body does. *)
Lemma NoThrow_tryCatch {A} (body : Run S A) (handler : string -> Run S A) :
  (forall e, NoThrow (handler e)) -> NoThrow (tryCatch body handler).
Proof.
  intros Hh st. unfold tryCatch. destruct (body st) as [[a|e] st'].
  - by eexists _, _.
  - apply Hh.
Qed.

Lemma Returns_ret {A} (a : A) (Q : A -> Prop) : Q a -> Returns (S := S) (ret a) Q.
Proof. intros HQ st a' st' [= <- _]. exact HQ. Qed.

Lemma Returns_throw {A} msg (Q : A -> Prop) : Returns (S := S) (throw msg) Q.
Proof. intros st a st' [=]. Qed.

Lemma Returns_bind {A B} (m : Run S A) (k : A -> Run S B) (Q : B -> Prop) :
  (forall a, Returns (k a) Q) -> Returns (bind m k) Q.
Proof.
  intros Hk st b st'. unfold bind. destruct (m st) as [[a|e] st1]; [apply Hk | done].
Qed.

Lemma Returns_bind_with {A B} (m : Run S A) (k : A -> Run S B)
    (P : A -> Prop) (Q : B -> Prop) :
  Returns m P -> (forall a, P a -> Returns (k a) Q) -> Returns (bind m k) Q.
Proof.
  intros Hm Hk st b st'. unfold bind. destruct (m st) as [[a|e] st1] eqn:E; [|done].
  apply Hk. by eapply Hm.
Qed.

Lemma Returns_tryCatch {A} (body : Run S A) handler (Q : A -> Prop) :
  Returns body Q -> (forall e, Returns (handler e) Q) -> Returns (tryCatch body handler) Q.
Proof.
  intros Hb Hh st a st'. unfold tryCatch. destruct (body st) as [[a'|e] st1] eqn:E.
  - intros [= <- <-]. by eapply Hb.
  - apply Hh.
Qed.

End MonadFacts.

Section EffectFacts.
Context {W : Type}.

Lemma NoThrow_emit e : NoThrow (emit (W := W) e).
Proof. intros st. by eexists _, _. Qed.

Lemma NoThrow_onWorld {A} (op : W -> W * A) : NoThrow (onWorld op).
Proof. intros st. unfold onWorld. destruct (op (world st)). by eexists _, _. Qed.

Lemma NoThrow_onWorld_ (op : W -> W) : NoThrow (onWorld_ op).
Proof. intros st. by eexists _, _. Qed.

End EffectFacts.

Create HintDb nothrow.
#[export] Hint Resolve NoThrow_ret NoThrow_emit NoThrow_onWorld NoThrow_onWorld_ : nothrow.


(** Splits a computation along its binds and branches. *)
Ltac nothrow :=
  repeat first
    [ progress auto with nothrow
    | apply NoThrow_bind; [|intros ?]
    | apply NoThrow_tryCatch; intros ?
    | match goal with
      | |- NoThrow (if ?b then _ else _) => destruct b
      | |- NoThrow (match ?o with _ => _ end) => destruct o
      end ].

(** ** The scrapers return normally *)

Section ScraperFacts.
Context {M : Moment} {W : Type} {D : PageDriver W}.

Lemma initialize_NoThrow : NoThrow BaseScraper.initialize.
Proof. unfold BaseScraper.initialize. nothrow. Qed.

Lemma navigateToPage_NoThrow url : NoThrow (BaseScraper.navigateToPage url).
Proof. unfold BaseScraper.navigateToPage. nothrow. Qed.

Lemma checkForBlocking_NoThrow : NoThrow BaseScraper.checkForBlocking.
Proof. unfold BaseScraper.checkForBlocking. nothrow. Qed.

Lemma handleCaptcha_NoThrow : NoThrow BaseScraper.handleCaptcha.
Proof. unfold BaseScraper.handleCaptcha. nothrow. Qed.

Lemma cleanup_NoThrow : NoThrow BaseScraper.cleanup.
Proof. unfold BaseScraper.cleanup. nothrow. Qed.

(** The final [slice]. *)
Lemma sliceArray_bound {A} (limit : Z) (a : list A) :
  (0 <= limit -> Z.of_nat (length (sliceArray limit a)) <= limit)%Z
  /\ sliceArray limit (@nil A) = [].
Proof.
  unfold sliceArray. split.
  - intros Hpos. rewrite (proj2 (Z.leb_le 0 limit) Hpos), length_take. lia.
  - destruct (0 <=? limit)%Z; by rewrite take_nil.
Qed.

Lemma lengthLt_nonpositive {A} (a : list A) (limit : Z) :
  (limit <= 0)%Z -> lengthLt a limit = false.
Proof. intros H. unfold lengthLt. apply Z.ltb_ge. lia. Qed.

Lemma WithinLimit_nil limit : WithinLimit limit [].
Proof. split; [simpl; lia | done]. Qed.

Lemma WithinLimit_slice limit all :
  ((limit <= 0)%Z -> all = []) -> WithinLimit limit (sliceArray limit all).
Proof.
  intros Hall. split.
  - apply (proj1 (sliceArray_bound limit all)).
  - intros Hle. rewrite (Hall Hle). apply (proj2 (sliceArray_bound limit all)).
Qed.

(** *** G2 *)

Lemma G2_paginate_nonpositive s e limit maxPages base fuel page all :
  (limit <= 0)%Z ->
  G2Scraper.paginate s e limit maxPages base fuel page all = ret all.
Proof.
  intros Hle. destruct fuel; simpl; [done|].
  by rewrite lengthLt_nonpositive.
Qed.


Lemma G2_paginate_NoThrow s e limit maxPages base fuel page all :
  NoThrow (G2Scraper.paginate s e limit maxPages base fuel page all).
Proof.
  revert page all. induction fuel as [|fuel IH]; intros page all; simpl; [nothrow|].
  unfold G2Scraper.extractG2Reviews.
  pose proof navigateToPage_NoThrow. pose proof checkForBlocking_NoThrow.
  pose proof handleCaptcha_NoThrow. nothrow.
Qed.

Lemma G2_scrapeReviews_NoThrow url s e limit :
  NoThrow (G2Scraper.scrapeReviews url s e limit).
Proof. unfold G2Scraper.scrapeReviews. nothrow. Qed.

Lemma G2_scrapeReviews_WithinLimit url s e limit :
  Returns (G2Scraper.scrapeReviews url s e limit) (WithinLimit limit).
Proof.
  unfold G2Scraper.scrapeReviews, G2Scraper.scrapeReviewsBody.
  apply Returns_tryCatch.
  - destruct (negb (truthy url)); [apply Returns_throw|].
    apply Returns_bind; intros success.
    destruct (negb success); [apply Returns_ret, WithinLimit_nil|].
    apply Returns_bind; intros blocked.
    destruct blocked; [apply Returns_bind; intros _; apply Returns_ret, WithinLimit_nil|].
    apply Returns_bind; intros _.
    eapply Returns_bind_with with (P := fun all => (limit <= 0)%Z -> all = []).
    + intros st all st' Hrun Hle. rewrite G2_paginate_nonpositive in Hrun by done.
      by injection Hrun as <- _.
    + intros all Hall. apply Returns_ret. by apply WithinLimit_slice.
  - intros msg. apply Returns_bind; intros _. apply Returns_ret, WithinLimit_nil.
Qed.

(** *** Capterra *)

Lemma Capterra_paginate_nonpositive s e limit maxPages base fuel page all :
  (limit <= 0)%Z ->
  CapterraScraper.paginate s e limit maxPages base fuel page all = ret all.
Proof.
  intros Hle. destruct fuel; simpl; [done|].
  by rewrite lengthLt_nonpositive.
Qed.


Lemma Capterra_paginate_NoThrow s e limit maxPages base fuel page all :
  NoThrow (CapterraScraper.paginate s e limit maxPages base fuel page all).
Proof.
  revert page all. induction fuel as [|fuel IH]; intros page all; simpl; [nothrow|].
  unfold CapterraScraper.extractCapterraReviews.
  pose proof navigateToPage_NoThrow. pose proof checkForBlocking_NoThrow.
  pose proof handleCaptcha_NoThrow. nothrow.
Qed.

Lemma Capterra_scrapeReviews_NoThrow url s e limit :
  NoThrow (CapterraScraper.scrapeReviews url s e limit).
Proof. unfold CapterraScraper.scrapeReviews. nothrow. Qed.

Lemma Capterra_scrapeReviews_WithinLimit url s e limit :
  Returns (CapterraScraper.scrapeReviews url s e limit) (WithinLimit limit).
Proof.
  unfold CapterraScraper.scrapeReviews, CapterraScraper.scrapeReviewsBody.
  apply Returns_tryCatch.
  - destruct (negb (truthy url)); [apply Returns_throw|].
    eapply Returns_bind_with with (P := fun all => (limit <= 0)%Z -> all = []).
    + intros st all st' Hrun Hle. rewrite Capterra_paginate_nonpositive in Hrun by done.
      by injection Hrun as <- _.
    + intros all Hall. apply Returns_ret. by apply WithinLimit_slice.
  - intros msg. apply Returns_bind; intros _. apply Returns_ret, WithinLimit_nil.
Qed.

(** *** TrustRadius *)

Lemma TrustRadius_loadReviews_nonpositive s e limit fuel attempts all :
  (limit <= 0)%Z ->
  TrustRadiusScraper.loadReviews s e limit fuel attempts all = ret all.
Proof.
  intros Hle. destruct fuel; simpl; [done|].
  by rewrite lengthLt_nonpositive.
Qed.


Lemma TrustRadius_loadReviews_NoThrow s e limit fuel attempts all :
  NoThrow (TrustRadiusScraper.loadReviews s e limit fuel attempts all).
Proof.
  revert attempts all. induction fuel as [|fuel IH]; intros attempts all; simpl; [nothrow|].
  unfold TrustRadiusScraper.extractTrustRadiusReviews. nothrow.
Qed.

Lemma TrustRadius_scrapeReviews_NoThrow url s e limit :
  NoThrow (TrustRadiusScraper.scrapeReviews url s e limit).
Proof. unfold TrustRadiusScraper.scrapeReviews. nothrow. Qed.

Lemma TrustRadius_scrapeReviews_WithinLimit url s e limit :
  Returns (TrustRadiusScraper.scrapeReviews url s e limit) (WithinLimit limit).
Proof.
  unfold TrustRadiusScraper.scrapeReviews, TrustRadiusScraper.scrapeReviewsBody.
  apply Returns_tryCatch.
  - destruct (negb (truthy url)); [apply Returns_throw|].
    apply Returns_bind; intros success.
    destruct (negb success); [apply Returns_ret, WithinLimit_nil|].
    apply Returns_bind; intros blocked.
    destruct blocked; [apply Returns_bind; intros _; apply Returns_ret, WithinLimit_nil|].
    apply Returns_bind; intros _.
    eapply Returns_bind_with with (P := fun all => (limit <= 0)%Z -> all = []).
    + intros st all st' Hrun Hle.
      rewrite TrustRadius_loadReviews_nonpositive in Hrun by done.
      by injection Hrun as <- _.
    + intros all Hall. apply Returns_ret. by apply WithinLimit_slice.
  - intros msg. apply Returns_bind; intros _. apply Returns_ret, WithinLimit_nil.
Qed.

(** A missing address makes the body throw; the scraper logs the message and
    returns the empty array. *)
Lemma G2_scrapeReviews_no_url url s e limit st :
  truthy url = false ->
  G2Scraper.scrapeReviews url s e limit st
  = (Ret [], mkState (world st)
               (trace st ++ [LogError "G2 scraping failed: No URL provided for scraping"])).
Proof.
  intros Hurl. unfold G2Scraper.scrapeReviews, G2Scraper.scrapeReviewsBody, tryCatch.
  by rewrite Hurl.
Qed.


End ScraperFacts.


(** ** The G2 harvest, page by page *)

Section RunEquations.
Context {M : Moment} {W : Type} {D : PageDriver W}.

(** What a navigation does to the state. *)
Lemma navigateToPage_run url (st : State W) :
  BaseScraper.navigateToPage url st
  = (Ret (pageGoto url (world st)).2,
     mkState (pageGoto url (world st)).1
       (trace st ++ Visit url ::
          (if (pageGoto url (world st)).2 then []
           else [LogError ("Failed to navigate to " ++ url)%string]))).
Proof.
  unfold BaseScraper.navigateToPage, bind, emit, onWorld, ret. simpl.
  destruct (pageGoto url (world st)) as [w []]; simpl.
  - reflexivity.
  - by rewrite <- app_assoc.
Qed.

Lemma checkForBlocking_run (st : State W) :
  BaseScraper.checkForBlocking st
  = (Ret (match (pageTitle (world st)).2 with
          | Some title => BaseScraper.titleBlocked title
          | None => false
          end),
     mkState (pageTitle (world st)).1 (trace st)).
Proof.
  unfold BaseScraper.checkForBlocking, bind, onWorld, ret.
  by destruct (pageTitle (world st)) as [w [title|]].
Qed.

Lemma extractG2Reviews_run (st : State W) :
  G2Scraper.extractG2Reviews st
  = (Ret (default [] (pageExtract "G2" (world st)).2),
     mkState (pageExtract "G2" (world st)).1 (trace st)).
Proof.
  unfold G2Scraper.extractG2Reviews, bind, onWorld, ret.
  by destruct (pageExtract "G2" (world st)) as [w [l|]].
Qed.

Lemma handleCaptcha_run (st : State W) :
  BaseScraper.handleCaptcha st = (Ret tt, mkState (pageCaptcha (world st)) (trace st)).
Proof. reflexivity. Qed.

(** One turn of the pagination loop of G2. *)
Lemma G2_paginate_turn s e limit maxPages base fuel page all :
  G2Scraper.paginate s e limit maxPages base (S fuel) page all
  = if lengthLt all limit && (page <=? maxPages)%Z then
      navOk <- BaseScraper.navigateToPage (G2Scraper.pageUrl base page) ;;
      if negb navOk then ret all else
      blocked <- BaseScraper.checkForBlocking ;;
      if blocked
      then emit (LogError "Blocked while navigating pagination.") ;;; ret all
      else
        BaseScraper.handleCaptcha ;;;
        onWorld_ pageSettle ;;;
        pageReviews <- G2Scraper.extractG2Reviews ;;
        if (length pageReviews =? 0)%nat then ret all else
        let filteredReviews := BaseScraper.filterReviewsByDateRange pageReviews s e in
        if (length filteredReviews =? 0)%nat then ret (all ++ filteredReviews) else
        onWorld_ pageSettle ;;;
        G2Scraper.paginate s e limit maxPages base fuel (page + 1)%Z
          (all ++ filteredReviews)
    else ret all.
Proof. reflexivity. Qed.

Lemma visits_app t1 t2 : visits (t1 ++ t2) = visits t1 ++ visits t2.
Proof. apply omap_app. Qed.

Local Opaque BaseScraper.navigateToPage BaseScraper.checkForBlocking
  BaseScraper.handleCaptcha G2Scraper.extractG2Reviews BaseScraper.titleBlocked.

(** Rule (a): with the limit reached, the loop requests nothing more. *)
Lemma G2_paginate_limit_reached s e limit maxPages base fuel page all (st : State W) :
  (limit <= Z.of_nat (length all))%Z ->
  G2Scraper.paginate s e limit maxPages base fuel page all st = (Ret all, st).
Proof.
  intros Hlen. destruct fuel; [done|]. rewrite G2_paginate_turn.
  unfold lengthLt. by rewrite (proj2 (Z.ltb_ge _ _) Hlen).
Qed.

(** Rule (d): every turn of the loop requests one page. *)
Lemma G2_paginate_visits s e limit maxPages base fuel page all (st : State W) r st' :
  G2Scraper.paginate s e limit maxPages base fuel page all st = (r, st') ->
  length (visits (trace st')) <= length (visits (trace st)) + fuel.
Proof.
  revert page all st. induction fuel as [|fuel IH]; intros page all st.
  - intros [= _ <-]. lia.
  - rewrite G2_paginate_turn.
    destruct (lengthLt all limit && (page <=? maxPages)%Z); [|intros [= _ <-]; lia].
    unfold bind. rewrite navigateToPage_run.
    destruct (pageGoto _ (world st)) as [w1 []]; cbn [fst snd negb].
    2: { intros [= _ <-]. cbn [trace]. rewrite visits_app, length_app. simpl. lia. }
    rewrite checkForBlocking_run. cbn [world trace].
    destruct (pageTitle w1) as [w2 title]; cbn [fst snd].
    destruct (match title with Some t => BaseScraper.titleBlocked t | None => false end).
    { unfold emit, ret. cbn. intros [= _ <-]. cbn [trace].
      rewrite !visits_app, !length_app. simpl. lia. }
    rewrite handleCaptcha_run. cbn [world trace]. unfold onWorld_ at 1. cbn [world trace].
    rewrite extractG2Reviews_run. cbn [world trace].
    destruct (pageExtract "G2" _) as [w3 found]; cbn [fst snd].
    destruct (length (default [] found) =? 0)%nat.
    { intros [= _ <-]. cbn [trace]. rewrite visits_app, length_app. simpl. lia. }
    cbv zeta.
    destruct (length (BaseScraper.filterReviewsByDateRange _ s e) =? 0)%nat.
    { intros [= _ <-]. cbn [trace]. rewrite visits_app, length_app. simpl. lia. }
    unfold onWorld_ at 1. cbn [world trace]. intros Hrest%IH.
    cbn [trace] in Hrest. rewrite visits_app, length_app in Hrest. simpl in Hrest. lia.
Qed.

(** The harvest requests the landing and at most [Math.ceil(limit / 10)]
    result pages. *)
Lemma G2_scrapeReviews_visits url s e limit (st : State W) r st' :
  G2Scraper.scrapeReviews url s e limit st = (r, st') ->
  length (visits (trace st'))
  <= length (visits (trace st)) + 1 + Z.to_nat (ceilDiv limit 10).
Proof.
  unfold G2Scraper.scrapeReviews, G2Scraper.scrapeReviewsBody, tryCatch.
  destruct (negb (truthy url)).
  { unfold throw, bind, emit, ret. cbn. intros [= _ <-]. cbn [trace].
    rewrite visits_app, length_app. simpl. lia. }
  unfold bind at 1 2. rewrite navigateToPage_run.
  destruct (pageGoto _ (world st)) as [w1 []]; cbn [fst snd negb].
  2: { unfold ret. intros [= _ <-]. cbn [trace]. rewrite visits_app, length_app. simpl. lia. }
  unfold bind at 1 2. rewrite checkForBlocking_run. cbn [world trace].
  destruct (pageTitle w1) as [w2 title]; cbn [fst snd].
  destruct (match title with Some t => BaseScraper.titleBlocked t | None => false end).
  { unfold bind, emit, ret. cbn. intros [= _ <-]. cbn [trace].
    rewrite !visits_app, !length_app. simpl. lia. }
  unfold bind at 1 2. rewrite handleCaptcha_run. cbn [world trace].
  unfold bind.
  destruct (G2Scraper.paginate _ _ _ _ _ _ _ _ _) as [[all|msg] st1] eqn:Hpag;
    apply G2_paginate_visits in Hpag; cbn [trace] in Hpag;
    rewrite visits_app, length_app in Hpag; simpl in Hpag.
  - unfold ret. intros [= _ <-]. lia.
  - unfold emit, ret. cbn. intros [= _ <-]. cbn [trace].
    rewrite visits_app, length_app. simpl. lia.
Qed.

Local Transparent BaseScraper.navigateToPage BaseScraper.checkForBlocking
  BaseScraper.handleCaptcha G2Scraper.extractG2Reviews BaseScraper.titleBlocked.

End RunEquations.

Section G2Pages.
Context {M : Moment}.

Local Opaque BaseScraper.navigateToPage BaseScraper.checkForBlocking
  BaseScraper.handleCaptcha G2Scraper.extractG2Reviews BaseScraper.titleBlocked.

(** The next primitive of a run, on the simulated site. *)
Ltac sim_step :=
  first [ rewrite navigateToPage_run | rewrite checkForBlocking_run
        | rewrite handleCaptcha_run | rewrite extractG2Reviews_run ];
  cbn.

(** C4, as amended: with a limit of 10 and no date range, on a site whose
    first result page shows six records (whatever its further pages hold),
    the G2 harvest requests that one result page, after the landing, and
    returns its six records: the page budget [Math.ceil(limit / 10)] is used
    up before the limit is reached.  In general the harvest requests the
    landing and at most [Math.ceil(limit / 10)] result pages (rule (d)), and
    requests nothing more once the accumulated count has reached the limit
    (rule (a)). *)
Theorem C4_g2_limit_10_pages_of_six
    (site : string -> Sim.Page) (cur : string) (disk : bool)
    (u t : string) (p1 : list review) (tr : list event) :
  truthy (JStr u) = true ->
  beforeQuery u = u ->
  site u = Sim.mkPage true (Some t) (Some p1) ->
  BaseScraper.titleBlocked t = false ->
  length p1 = 6 ->
  ceilDiv 10 10 = 1%Z
  /\ G2Scraper.scrapeReviews (D := Sim.driver) (JStr u) JUndefined JUndefined 10
       (mkState (Sim.mkWorld site cur disk) tr)
     = (Ret p1, mkState (Sim.mkWorld site u disk) (tr ++ [Visit u; Visit u]))
  /\ (forall (W : Type) (D : PageDriver W) url s e limit (st : State W) r st',
        G2Scraper.scrapeReviews url s e limit st = (r, st') ->
        length (visits (trace st'))
        <= length (visits (trace st)) + 1 + Z.to_nat (ceilDiv limit 10))
  /\ (forall (W : Type) (D : PageDriver W) s e limit maxPages base fuel page all
             (st : State W),
        (limit <= Z.of_nat (length all))%Z ->
        G2Scraper.paginate s e limit maxPages base fuel page all st = (Ret all, st)).
Proof.
  intros Hu Hbase Hsite Htitle Hlen. split; [reflexivity|].
  split; [|split; [intros; by eapply G2_scrapeReviews_visits
                  | intros; by apply G2_paginate_limit_reached]].
  unfold G2Scraper.scrapeReviews, G2Scraper.scrapeReviewsBody.
  rewrite Hu. change (ceilDiv 10 10) with 1%Z. change (Z.to_nat 1) with 1.
  rewrite G2_paginate_turn. change (lengthLt [] 10 && (1 <=? 1)%Z) with true.
  unfold tryCatch, bind, G2Scraper.pageUrl. cbn [negb orEmpty Z.eqb].
  rewrite Hbase.
  repeat (first [sim_step | rewrite Hsite | rewrite Htitle | rewrite Hlen]; cbn).
  rewrite take_ge by (rewrite Hlen; change (Z.to_nat 10) with 10; lia).
  by rewrite <- app_assoc.
Qed.

End G2Pages.

(** C4, as stated, fails: with a limit of 10 and two pages of six records the
    G2 harvest returns the six records of the first page; the second page is
    never requested. *)
Lemma C4_counterexample :
  G2Scraper.scrapeReviews (M := IsoDates.isoMoment 0) (D := Sim.driver)
    (JStr Examples.slackUrl) JUndefined JUndefined
    10 (mkState Examples.twoPagesOfSix [])
  = (Ret (Examples.pageOf "p1"),
     mkState (Sim.mkWorld (Sim.site Examples.twoPagesOfSix) Examples.slackUrl true)
       [Visit Examples.slackUrl; Visit Examples.slackUrl])
  /\ length (Examples.pageOf "p1") = 6.
Proof. split; reflexivity. Qed.

(** The theorem on the site of the example. *)
Lemma C4_g2_limit_10_pages_of_six_witness :
  G2Scraper.scrapeReviews (M := IsoDates.isoMoment 0) (D := Sim.driver)
    (JStr Examples.slackUrl) JUndefined JUndefined 10
    (mkState Examples.twoPagesOfSix [])
  = (Ret (Examples.pageOf "p1"),
     mkState (Sim.mkWorld (Sim.site Examples.twoPagesOfSix) Examples.slackUrl true)
       ([] ++ [Visit Examples.slackUrl; Visit Examples.slackUrl])).
Proof.
  apply (C4_g2_limit_10_pages_of_six (M := IsoDates.isoMoment 0)
           (Sim.site Examples.twoPagesOfSix) "" true Examples.slackUrl
           "Slack Reviews | G2" (Examples.pageOf "p1") []); reflexivity.
Defined.

(** ** The blocking guard *)

Section Substrings.

Lemma prefix_spec k s :
  String.prefix k s = true <-> exists post, s = (k ++ post)%string.
Proof.
  revert s. induction k as [|a k IH]; intros [|b s]; simpl.
  - split; [intros _; by exists "" | done].
  - split; [intros _; by exists (String b s) | done].
  - split; [done | intros [post [=]]].
  - destruct (Ascii.ascii_dec a b) as [->|Hne].
    + rewrite IH. split; intros [post Hpost]; exists post;
        [by rewrite Hpost | by injection Hpost].
    + split; [done | intros [post [= ? _]]; done].
Qed.

Lemma includes_spec s k :
  includes s k = true <-> exists pre post, s = (pre ++ k ++ post)%string.
Proof.
  induction s as [|c s IH].
  - change (includes "" k) with (String.prefix k "" || false).
    rewrite orb_false_r, prefix_spec. split.
    + intros [post Hpost]. by exists "", post.
    + intros (pre & post & Heq). destruct pre; [by exists post | done].
  - change (includes (String c s) k) with (String.prefix k (String c s) || includes s k).
    rewrite orb_true_iff, prefix_spec, IH. split.
    + intros [[post Hpost]|(pre & post & ->)].
      * by exists "", post.
      * by exists (String c pre), post.
    + intros (pre & post & Heq). destruct pre as [|c' pre]; simpl in Heq.
      * left. by exists post.
      * right. injection Heq as _ ->. by exists pre, post.
Qed.

Lemma titleBlocked_spec title :
  BaseScraper.titleBlocked title = true
  <-> exists k pre post,
        k ∈ BaseScraper.blockingKeywords
        /\ toLowerCase title = (pre ++ k ++ post)%string.
Proof.
  unfold BaseScraper.titleBlocked. rewrite existsb_exists. split.
  - intros (k & Hk%list_elem_of_In & (pre & post & Heq)%includes_spec). by exists k, pre, post.
  - intros (k & pre & post & Hk & Heq). exists k. split; [by apply list_elem_of_In|].
    apply includes_spec. by exists pre, post.
Qed.

End Substrings.

(** ** The orchestrator *)

Section StepsFacts.
Context {S : Type} (R : S -> S -> Prop).
Hypothesis R_refl : forall st, R st st.
Hypothesis R_trans : forall a b c, R a b -> R b c -> R a c.

Lemma Steps_ret {A} (a : A) : Steps R (ret a).
Proof. intros st r st' [= _ <-]. apply R_refl. Qed.

Lemma Steps_throw {A} msg : Steps R (throw (A := A) msg).
Proof. intros st r st' [= _ <-]. apply R_refl. Qed.

Lemma Steps_bind {A B} (m : Run S A) (k : A -> Run S B) :
  Steps R m -> (forall a, Steps R (k a)) -> Steps R (bind m k).
Proof.
  intros Hm Hk st r st'. unfold bind. destruct (m st) as [[a|e] st1] eqn:E.
  - intros Hk'. eapply R_trans; [by eapply Hm | by eapply Hk].
  - intros [= _ <-]. by eapply Hm.
Qed.

Lemma Steps_tryCatch {A} (body : Run S A) handler :
  Steps R body -> (forall e, Steps R (handler e)) -> Steps R (tryCatch body handler).
Proof.
  intros Hb Hh st r st'. unfold tryCatch. destruct (body st) as [[a|e] st1] eqn:E.
  - intros [= _ <-]. by eapply Hb.
  - intros Hh'. eapply R_trans; [by eapply Hb | by eapply Hh].
Qed.

End StepsFacts.

Section Orchestrator.
Context {M : Moment} {AS : ArraySort} {W : Type} {D : PageDriver W}.
Import Index.



Lemma SameErrors_refl (st : RunState W) : SameErrors st st.
Proof. done. Qed.

Lemma SameErrors_trans (a b c : RunState W) :
  SameErrors a b -> SameErrors b c -> SameErrors a c.
Proof. unfold SameErrors. congruence. Qed.

(** A scraper works on the world and the trace only. *)
Lemma lift_frame {A} (m : Run (State W) A) st r st' :
  lift m st = (r, st') -> stats st' = stats st /\ allReviews st' = allReviews st.
Proof. unfold lift. destruct (m (env st)) as [r' e]. by intros [= _ <-]. Qed.

Lemma NoThrow_lift {A} (m : Run (State W) A) : NoThrow m -> NoThrow (lift m).
Proof.
  intros Hm st. unfold lift. destruct (Hm (env st)) as (a & e & ->). by eexists _, _.
Qed.

Lemma Grows_lift {A} (m : Run (State W) A) : Steps Grows (lift m).
Proof.
  intros st r st' [Hs Ha]%lift_frame. split; exists []; rewrite app_nil_r; congruence.
Qed.

Lemma SameErrors_lift {A} (m : Run (State W) A) : Steps SameErrors (lift m).
Proof. intros st r st' [Hs Ha]%lift_frame. unfold SameErrors. congruence. Qed.

Lemma Grows_pushReviews reviews : Steps Grows (pushReviews (W := W) reviews).
Proof.
  intros st r st' [= _ <-]. split; simpl; [by exists reviews | exists []; by rewrite app_nil_r].
Qed.

Lemma Grows_pushSource name : Steps Grows (modifyStats (W := W) (pushSource name)).
Proof. intros st r st' [= _ <-]. split; exists []; by rewrite app_nil_r. Qed.

Lemma Grows_pushError name msg : Steps Grows (modifyStats (W := W) (pushError name msg)).
Proof.
  intros st r st' [= _ <-]. split; simpl; [exists []; by rewrite app_nil_r | by eexists].
Qed.

Lemma SameErrors_pushReviews reviews : Steps SameErrors (pushReviews (W := W) reviews).
Proof. by intros st r st' [= _ <-]. Qed.

Lemma SameErrors_pushSource name :
  Steps SameErrors (modifyStats (W := W) (pushSource name)).
Proof. by intros st r st' [= _ <-]. Qed.

(** Splits a run of the orchestrator along its binds and branches. *)
Ltac steps refl trans :=
  repeat first
    [ apply (Steps_ret _ refl)
    | apply (Steps_throw _ refl)
    | apply (Steps_bind _ trans); [|intros ?]
    | apply (Steps_tryCatch _ trans); [|intros ?]
    | apply Grows_lift | apply Grows_pushReviews | apply Grows_pushSource
    | apply Grows_pushError
    | apply SameErrors_lift | apply SameErrors_pushReviews | apply SameErrors_pushSource
    | match goal with
      | |- Steps _ (if ?b then _ else _) => destruct b
      | |- Steps _ (match ?o with _ => _ end) => destruct o
      end ].


Lemma scraperBody_SameErrors options (s : Scraper W) :
  Steps SameErrors (scraperBody options s).
Proof. unfold scraperBody, logError, logWarn. steps SameErrors_refl SameErrors_trans. Qed.



(** The loop over the scrapers never throws: every turn catches. *)
Lemma runScraper_NoThrow options (s : Scraper W) : NoThrow (runScraper options s).
Proof.
  unfold runScraper, logError. apply NoThrow_tryCatch. intros msg.
  apply NoThrow_bind; [apply NoThrow_lift, NoThrow_emit|]. intros _.
  apply NoThrow_bind; [intros st; by eexists _, _|]. intros _.
  apply NoThrow_tryCatch. intros _. apply NoThrow_ret.
Qed.

Lemma runScrapers_NoThrow options (scrapers : list (Scraper W)) :
  NoThrow (runScrapers options scrapers).
Proof.
  induction scrapers as [|s rest IH]; simpl; [apply NoThrow_ret|].
  apply NoThrow_bind; [apply runScraper_NoThrow | intros _; apply IH].
Qed.




End Orchestrator.


(** ** The outcome of a run *)

Section Outcome.
Context {M : Moment} {AS : ArraySort} {W : Type} {D : PageDriver W}.
Import Index.

(** [processResults] returns unless a write of the results throws. *)
Lemma processResults_returns (all : list review) (options : Options) (st1 : RunState W) :
  (exists st2, processResults all options st1 = (Ret tt, st2))
  <-> SavesResults options all st1.
Proof.
  unfold SavesResults.
  unfold processResults, processResultsBody, tryCatch, bind, saveToFile, bind, lift,
    onWorld, modifyStats, logError, lift, emit, ret, throw.
  cbn.
  match goal with
  | |- context [writeJson ?f ?l ?w] =>
      destruct (writeJson f l w) as [w1 [path|]] eqn:Hw
  end; cbn.
  - destruct (verbose options); cbn.
    + match goal with
      | |- context [writeStats ?f ?s ?w] =>
          destruct (writeStats f s w) as [w2 [path2|]] eqn:Hs
      end; cbn.
      * split; [|by eexists]. intros _. exists w1, path. split; [done|]. by eexists _, _.
      * split; [by intros [? [=]]|].
        intros (? & ? & [= <- _] & Hv). destruct (Hv eq_refl) as (? & ? & Hv').
        cbn in Hv'. rewrite Hs in Hv'. discriminate.
    + split; [|by eexists]. intros _. by exists w1, path.
  - split; [by intros [? [=]]|]. by intros (? & ? & [=] & _).
Qed.

(** C5, as amended: [scrape] always returns; it returns [true], and the
    process exits with 0, if and only if the options are valid, the scrapers
    collected at least one record and the results were written to the disk.
    A run without a record fails; a run with records still fails when the
    write throws. *)
Theorem C5_run_outcome (options : Options) (st : RunState W) :
  exists b st',
    scrape options st = (Ret b, st')
    /\ (exitCode b = 0%Z <-> b = true)
    /\ (b = true <->
        invalidOption options = None
        /\ exists st1,
             runScrapers options (createScrapers (optSource options))
               (mkRunState (env st) (stats st) []) = (Ret tt, st1)
             /\ allReviews st1 <> []
             /\ SavesResults options (allReviews st1) st1).
Proof.
  unfold scrape, scrapeBody, tryCatch, bind, validateOptions.
  destruct (invalidOption options) as [msg|] eqn:Hvalid.
  - unfold logError, lift, emit, ret, bind. simpl. eexists false, _. split; [reflexivity|].
    split; [done|]. split; [done|]. by intros [? _].
  - cbn.
    destruct (runScrapers_NoThrow options (createScrapers (optSource options))
                (mkRunState (env st) (stats st) [])) as ([] & st1 & Hrun).
    rewrite Hrun.
    destruct (allReviews st1) as [|r all] eqn:Hall.
    + cbn. unfold logError, lift, emit, ret, bind. simpl.
      eexists false, _. split; [reflexivity|]. split; [done|]. split; [done|].
      intros (_ & st1' & [= <-] & Hne & _). by rewrite Hall in Hne.
    + cbn [length Nat.ltb Nat.leb].
      destruct (processResults (r :: all) options st1) as [[[]|e] st2] eqn:Hproc.
      * eexists true, _. split; [reflexivity|]. split; [done|]. split; [|done].
        intros _. split; [done|]. exists st1. rewrite Hall.
        repeat split; [done|]. apply processResults_returns. by exists st2.
      * unfold logError, lift, emit, ret, bind. simpl.
        eexists false, _. split; [reflexivity|]. split; [done|]. split; [done|].
        intros (_ & st1' & [= <-] & _ & Hok). rewrite Hall in Hok.
        apply processResults_returns in Hok as [st2' Hok]. rewrite Hproc in Hok. done.
Qed.

End Outcome.

(** C5, as stated, fails: the G2 scraper collects the six records of the
    example, the disk cannot be written, and the run returns [false]. *)
Lemma C5_counterexample :
  let M := IsoDates.isoMoment 0 in
  let D := Sim.driver in
  let AS := v8Engine in
  let run := Index.scrape Examples.slackOptions (Examples.start Examples.diskFull) in
  fst run = Ret false
  /\ Index.exitCode false = 1%Z
  /\ Index.allReviews (snd run) = Examples.pageOf "p1"
  /\ sources (Index.stats (snd run)) = ["G2"]
  /\ errorsLogged (trace (Index.env (snd run)))
     = ["Error processing results: Failed to save file";
        "Scraping failed: Failed to save file"].
Proof. repeat split; vm_compute; reflexivity. Qed.

(** ** Blocking, in the harvest and in the statistics *)

Section Guard.
Context {M : Moment} {W : Type} {D : PageDriver W}.
Import Index.

Local Opaque BaseScraper.navigateToPage BaseScraper.checkForBlocking
  BaseScraper.handleCaptcha G2Scraper.extractG2Reviews BaseScraper.titleBlocked.

(** A blocked landing page ends the G2 harvest at once. *)
Lemma G2_blocked_on_landing u s e limit (st : State W) title :
  truthy (JStr u) = true ->
  (pageGoto u (world st)).2 = true ->
  (pageTitle (pageGoto u (world st)).1).2 = Some title ->
  BaseScraper.titleBlocked title = true ->
  G2Scraper.scrapeReviews (JStr u) s e limit st
  = (Ret [],
     mkState (pageTitle (pageGoto u (world st)).1).1
       (trace st ++ [Visit u; LogError "Detected blocking on G2"])).
Proof.
  intros Hu Hnav Htitle Hblocked.
  unfold G2Scraper.scrapeReviews, G2Scraper.scrapeReviewsBody, tryCatch, bind.
  rewrite Hu. cbn [negb orEmpty].
  rewrite navigateToPage_run, Hnav. cbn [negb].
  rewrite checkForBlocking_run. cbn [world trace]. rewrite Htitle, Hblocked.
  unfold emit, ret. cbn. by rewrite <- !app_assoc.
Qed.

(** A blocked result page ends the pagination at once; the records
    accumulated so far are what the loop returns. *)
Lemma G2_blocked_on_page s e limit maxPages base fuel page all (st : State W) title :
  lengthLt all limit = true ->
  (page <= maxPages)%Z ->
  (pageGoto (G2Scraper.pageUrl base page) (world st)).2 = true ->
  (pageTitle (pageGoto (G2Scraper.pageUrl base page) (world st)).1).2 = Some title ->
  BaseScraper.titleBlocked title = true ->
  G2Scraper.paginate s e limit maxPages base (S fuel) page all st
  = (Ret all,
     mkState (pageTitle (pageGoto (G2Scraper.pageUrl base page) (world st)).1).1
       (trace st ++ [Visit (G2Scraper.pageUrl base page);
                     LogError "Blocked while navigating pagination."])).
Proof.
  intros Hlt Hpage Hnav Htitle Hblocked.
  rewrite G2_paginate_turn, Hlt, (proj2 (Z.leb_le _ _) Hpage). cbn [andb].
  unfold bind. rewrite navigateToPage_run, Hnav. cbn [negb].
  rewrite checkForBlocking_run. cbn [world trace]. rewrite Htitle, Hblocked.
  unfold emit, ret. cbn. by rewrite <- !app_assoc.
Qed.

Local Transparent BaseScraper.navigateToPage BaseScraper.checkForBlocking
  BaseScraper.handleCaptcha G2Scraper.extractG2Reviews BaseScraper.titleBlocked.

(** No method of the three scrapers throws. *)
Lemma builtin_scraperBody_NoThrow options source (s : Scraper W) :
  s ∈ createScrapers source -> NoThrow (scraperBody options s).
Proof.
  intros Hs. unfold scraperBody, logError, logWarn.
  assert (NoThrow (initialize s) /\ (forall c, NoThrow (searchForCompany s c))
          /\ (forall u a b l, NoThrow (scrapeReviews s u a b l)) /\ NoThrow (cleanup s))
    as (Hi & Hsearch & Hscrape & Hc).
  { unfold createScrapers in Hs.
    assert (s = g2Scraper \/ s = capterraScraper \/ s = trustRadiusScraper) as Hcases.
    { repeat (destruct (String.eqb _ _)); revert Hs;
        rewrite ?elem_of_cons, ?elem_of_nil; tauto. }
    destruct Hcases as [-> | [-> | ->]]; simpl;
      (split; [apply initialize_NoThrow|]); (split; [|split; [|apply cleanup_NoThrow]]).
    - intros c. unfold G2Scraper.searchForCompany.
      pose proof navigateToPage_NoThrow. nothrow.
    - apply G2_scrapeReviews_NoThrow.
    - intros c. unfold CapterraScraper.searchForCompany. nothrow.
    - apply Capterra_scrapeReviews_NoThrow.
    - intros c. unfold TrustRadiusScraper.searchForCompany. nothrow.
    - apply TrustRadius_scrapeReviews_NoThrow. }
  apply NoThrow_bind; [by apply NoThrow_lift|]. intros success.
  destruct (negb success); [apply NoThrow_lift, NoThrow_emit|].
  apply NoThrow_bind.
  { destruct (truthy (url options)); [apply NoThrow_ret | by apply NoThrow_lift]. }
  intros productUrl. destruct (negb (truthy productUrl)).
  { apply NoThrow_bind; [apply NoThrow_lift, NoThrow_emit | intros _; by apply NoThrow_lift]. }
  apply NoThrow_bind; [by apply NoThrow_lift|]. intros reviews.
  apply NoThrow_bind; [|intros _; by apply NoThrow_lift].
  destruct (0 <? length reviews)%nat; [|apply NoThrow_ret].
  apply NoThrow_bind; intros; intros st0; by eexists _, _.
Qed.

(** Hence the [catch] of the loop is never entered for them, and the errors
    of the statistics stay as they are, whatever happens on the sites. *)
Lemma builtin_runScrapers_errors options source (scrapers : list (Scraper W)) st r st' :
  scrapers ⊆ createScrapers source ->
  runScrapers options scrapers st = (r, st') ->
  errors (stats st') = errors (stats st).
Proof.
  revert st. induction scrapers as [|s rest IH]; intros st Hsub; simpl.
  - by intros [= _ <-].
  - unfold bind, runScraper, tryCatch.
    assert (s ∈ createScrapers source) as Hs by (apply Hsub; left).
    destruct (builtin_scraperBody_NoThrow options source s Hs st) as ([] & st1 & Hbody).
    rewrite Hbody. intros Hrest.
    apply IH in Hrest; [|intros x Hx; apply Hsub; by right].
    rewrite Hrest. by eapply scraperBody_SameErrors.
Qed.

(** C7, as amended: the guard looks for the seven keywords in the
    lower-cased title, so that titles equal up to case are treated alike; in
    the G2 harvest a matching title after the landing or after the load of a
    result page ends the harvest at once, with an error in the log and no
    further request; the condition is not recorded in the statistics: for
    the three scrapers the errors of the statistics never change. *)
Theorem C7_blocking_guard :
  BaseScraper.blockingKeywords
  = ["access denied"; "blocked"; "captcha"; "please verify"; "security check";
     "403"; "429"]
  /\ (forall title,
        BaseScraper.titleBlocked title = true
        <-> exists k pre post,
              k ∈ BaseScraper.blockingKeywords
              /\ toLowerCase title = (pre ++ k ++ post)%string)
  /\ (forall t1 t2,
        toLowerCase t1 = toLowerCase t2 ->
        BaseScraper.titleBlocked t1 = BaseScraper.titleBlocked t2)
  /\ (forall u s e limit (st : State W) title,
        truthy (JStr u) = true ->
        (pageGoto u (world st)).2 = true ->
        (pageTitle (pageGoto u (world st)).1).2 = Some title ->
        BaseScraper.titleBlocked title = true ->
        G2Scraper.scrapeReviews (JStr u) s e limit st
        = (Ret [],
           mkState (pageTitle (pageGoto u (world st)).1).1
             (trace st ++ [Visit u; LogError "Detected blocking on G2"])))
  /\ (forall s e limit maxPages base fuel page all (st : State W) title,
        lengthLt all limit = true ->
        (page <= maxPages)%Z ->
        (pageGoto (G2Scraper.pageUrl base page) (world st)).2 = true ->
        (pageTitle (pageGoto (G2Scraper.pageUrl base page) (world st)).1).2
        = Some title ->
        BaseScraper.titleBlocked title = true ->
        G2Scraper.paginate s e limit maxPages base (S fuel) page all st
        = (Ret all,
           mkState (pageTitle (pageGoto (G2Scraper.pageUrl base page) (world st)).1).1
             (trace st ++ [Visit (G2Scraper.pageUrl base page);
                           LogError "Blocked while navigating pagination."])))
  /\ (forall options (st : RunState W) r st',
        runScrapers options (createScrapers (optSource options)) st = (r, st') ->
        errors (stats st') = errors (stats st)).
Proof.
  split; [reflexivity|]. split; [apply titleBlocked_spec|]. split.
  { intros t1 t2 Heq. unfold BaseScraper.titleBlocked. by rewrite Heq. }
  split; [apply G2_blocked_on_landing|]. split; [apply G2_blocked_on_page|].
  intros options st r st'. by apply builtin_runScrapers_errors with (source := optSource options).
Qed.

End Guard.

(** C7, as stated, fails: on a site that answers with a denial page the G2
    harvest stops after its first request and logs the blocking, the run
    fails, and the errors of the statistics stay empty. *)
Lemma C7_counterexample :
  let M := IsoDates.isoMoment 0 in
  let D := Sim.driver in
  let AS := v8Engine in
  let run := Index.scrape Examples.slackOptions (Examples.start Examples.denied) in
  fst run = Ret false
  /\ visits (trace (Index.env (snd run))) = [Examples.slackUrl]
  /\ errorsLogged (trace (Index.env (snd run)))
     = ["Detected blocking on G2"; "No reviews were collected from any source"]
  /\ errors (Index.stats (snd run)) = [].
Proof. repeat split; vm_compute; reflexivity. Qed.

(** * Further properties of the code *)


(** ** The normalisation of texts *)

Section CleanText.
Import Helpers.

Lemma isNewline_isSpace c : isNewline c = true -> isSpace c = true /\ Ascii.eqb c " " = false.
Proof. destruct c as [[] [] [] [] [] [] [] []]; vm_compute; intuition congruence. Qed.

Lemma spaced_collapseSpaces p s : spaced p (collapseSpaces p s) = true.
Proof.
  revert p. induction s as [|c t IH]; intros p; simpl; [done|].
  destruct (isSpace c) eqn:Ec.
  - destruct p; [apply IH|]. simpl. by rewrite IH.
  - simpl. by rewrite Ec.
Qed.

Lemma collapseSpaces_spaced p s : spaced p s = true -> collapseSpaces p s = s.
Proof.
  revert p. induction s as [|c t IH]; intros p; simpl; [done|].
  destruct (isSpace c) eqn:Ec.
  - intros [[Hc Hp%negb_true_iff]%andb_prop Ht]%andb_prop. subst p.
    apply Ascii.eqb_eq in Hc as ->. by rewrite IH.
  - intros Ht. by rewrite IH.
Qed.

Lemma replaceNewlines_spaced p b s : spaced p s = true -> replaceNewlines b s = s.
Proof.
  revert p b. induction s as [|c t IH]; intros p b; simpl; [done|].
  destruct (isNewline c) eqn:En.
  - apply isNewline_isSpace in En as [-> En]. rewrite En. done.
  - destruct (isSpace c).
    + intros [_ Ht]%andb_prop. by rewrite (IH true).
    + intros Ht. by rewrite (IH false).
Qed.

Lemma spaced_trimStart p p' s : spaced p s = true -> spaced p' (trimStart s) = true.
Proof.
  revert p. induction s as [|c t IH]; intros p; simpl; [done|].
  destruct (isSpace c) eqn:Ec.
  - intros [_ Ht]%andb_prop. by apply (IH true).
  - intros Ht. simpl. by rewrite Ec.
Qed.

Lemma spaced_trimEnd p s : spaced p s = true -> spaced p (trimEnd s) = true.
Proof.
  revert p. induction s as [|c t IH]; intros p; simpl; [done|].
  destruct (isSpace c) eqn:Ec.
  - intros [Hc Ht]%andb_prop. specialize (IH true Ht).
    destruct (trimEnd t) as [|c' t'] eqn:Et; [done|].
    change (spaced p (String c (String c' t')))
      with (if isSpace c then Ascii.eqb c " " && negb p && spaced true (String c' t')
            else spaced false (String c' t')).
    rewrite Ec, Hc. exact IH.
  - intros Ht. specialize (IH false Ht).
    destruct (trimEnd t) as [|c' t'] eqn:Et.
    + simpl. by rewrite Ec.
    + change (spaced p (String c (String c' t')))
        with (if isSpace c then Ascii.eqb c " " && negb p && spaced true (String c' t')
              else spaced false (String c' t')).
      by rewrite Ec.
Qed.

Lemma startsClean_trimStart s : startsClean (trimStart s) = true.
Proof.
  induction s as [|c t IH]; simpl; [done|].
  destruct (isSpace c) eqn:Ec; [done|]. simpl. by rewrite Ec.
Qed.

Lemma startsClean_trimEnd s : startsClean s = true -> startsClean (trimEnd s) = true.
Proof.
  destruct s as [|c t]; simpl; [done|]. intros Hc%negb_true_iff.
  destruct (trimEnd t); rewrite ?Hc; simpl; rewrite ?Hc; done.
Qed.

Lemma trimStart_startsClean s : startsClean s = true -> trimStart s = s.
Proof. destruct s as [|c t]; simpl; [done|]. by intros ->%negb_true_iff. Qed.

Lemma trimEnd_idempotent s : trimEnd (trimEnd s) = trimEnd s.
Proof.
  induction s as [|c t IH]; simpl; [done|].
  destruct (trimEnd t) as [|c' t'] eqn:Et.
  - destruct (isSpace c) eqn:Ec; simpl; [done|]. by rewrite Ec.
  - change (trimEnd (String c (String c' t')))
      with (match trimEnd (String c' t') with
            | EmptyString => if isSpace c then EmptyString else String c EmptyString
            | t'' => String c t''
            end).
    by rewrite IH.
Qed.

Lemma last_trimEnd s c :
  last (list_ascii_of_string (trimEnd s)) = Some c -> isSpace c = false.
Proof.
  induction s as [|c0 t IH]; simpl; [done|].
  destruct (trimEnd t) as [|c' t'] eqn:Et.
  - destruct (isSpace c0) eqn:Ec; simpl; [done|]. by intros [= <-].
  - simpl. simpl in IH. exact IH.
Qed.

Lemma spaced_lookup p s i c :
  spaced p s = true ->
  list_ascii_of_string s !! i = Some c -> isSpace c = true ->
  c = " "%char /\ forall d, list_ascii_of_string s !! (S i) = Some d -> isSpace d = false.
Proof.
  revert p i. induction s as [|c0 t IH]; intros p i; simpl; [done|].
  destruct i as [|i]; simpl.
  - intros Hs [= ->] Hc. rewrite Hc in Hs.
    apply andb_prop in Hs as [[Heq _]%andb_prop Ht]. apply Ascii.eqb_eq in Heq.
    split; [done|]. intros d Hd. destruct t as [|d' t']; simpl in *; [done|].
    injection Hd as ->. destruct (isSpace d); [|done].
    apply andb_prop in Ht as [[_ ?]%andb_prop _]. done.
  - intros Hs. apply (IH (isSpace c0)).
    destruct (isSpace c0); [by apply andb_prop in Hs as [_ ?]|done].
Qed.

Lemma head_startsClean s c :
  startsClean s = true -> head (list_ascii_of_string s) = Some c -> isSpace c = false.
Proof. destruct s; simpl; [done|]. intros H%negb_true_iff [= <-]. done. Qed.

(** What [cleanText] computes on a text that is not empty. *)
Lemma cleanText_trim s :
  trim (replaceNewlines false (collapseSpaces false s)) = trim (collapseSpaces false s)
  /\ spaced false (trim (collapseSpaces false s)) = true
  /\ startsClean (trim (collapseSpaces false s)) = true.
Proof.
  pose proof (spaced_collapseSpaces false s) as Hs.
  rewrite (replaceNewlines_spaced false false _ Hs). split; [done|]. unfold trim. split.
  - apply spaced_trimEnd. by apply (spaced_trimStart false).
  - apply startsClean_trimEnd, startsClean_trimStart.
Qed.

(** X1: the text [cleanText] returns is tidy. *)
Theorem X1_cleanText_tidy (text : jsval) : Tidy (cleanText text).
Proof.
  unfold cleanText. destruct (truthy text); [|by repeat split].
  destruct (cleanText_trim (orEmpty text)) as (-> & Hs & Hh).
  split; [|split].
  - intros c. by apply head_startsClean.
  - intros c. apply last_trimEnd.
  - intros i c. by apply (spaced_lookup false).
Qed.

Lemma cleanText_again (text : jsval) :
  cleanText (JStr (cleanText text)) = cleanText text.
Proof.
  unfold cleanText at 2 3. destruct (truthy text); [|done].
  destruct (cleanText_trim (orEmpty text)) as (-> & Hs & Hh).
  set (r := trim (collapseSpaces false (orEmpty text))) in *.
  unfold cleanText. destruct (truthy (JStr r)) eqn:Hr.
  - simpl. rewrite (collapseSpaces_spaced false r Hs), (replaceNewlines_spaced false false r Hs).
    unfold trim. rewrite (trimStart_startsClean r Hh). unfold r, trim.
    apply trimEnd_idempotent.
  - destruct r; [done|discriminate].
Qed.

(** X2: [cleanText] is idempotent: cleaning a cleaned text changes
    nothing. *)
Theorem X2_cleanText_idempotent (text : jsval) :
  cleanText (JStr (cleanText text)) = cleanText text.
Proof. apply cleanText_again. Qed.

End CleanText.

(** ** Texts as lists of characters *)

Lemma string_app_cons c (a b : string) : (String c a ++ b = String c (a ++ b))%string.
Proof. reflexivity. Qed.

Lemma chars_app (a b : string) :
  list_ascii_of_string (a ++ b)%string = list_ascii_of_string a ++ list_ascii_of_string b.
Proof.
  induction a as [|c a IH]; [done|]. rewrite string_app_cons. simpl. by rewrite IH.
Qed.

Lemma string_app_assoc (a b c : string) : ((a ++ b) ++ c = a ++ (b ++ c))%string.
Proof.
  induction a as [|x a IH]; [done|]. rewrite !string_app_cons. by rewrite IH.
Qed.

Lemma string_app_nil_r (a : string) : (a ++ "" = a)%string.
Proof. induction a as [|x a IH]; [done|]. rewrite string_app_cons. by rewrite IH. Qed.

Lemma string_length_app (a b : string) :
  String.length (a ++ b)%string = String.length a + String.length b.
Proof.
  induction a as [|x a IH]; [done|]. rewrite string_app_cons. simpl. by rewrite IH.
Qed.

(** ** The name of the output file *)

Section FileNames.
Import Helpers Index HelpersMore.

Lemma chars_keepChars p s :
  Forall (fun c => p c = true) (list_ascii_of_string (keepChars p s)).
Proof.
  induction s as [|c t IH]; simpl; [constructor|].
  destruct (p c) eqn:E; simpl; [by constructor|done].
Qed.

Lemma nameChar_of_alnum c :
  isAlnumOrSpace c = true -> isSpace c = false -> nameChar c = true.
Proof. destruct c as [[] [] [] [] [] [] [] []]; vm_compute; congruence. Qed.

Lemma nameChar_not_space c : nameChar c = true -> isSpace c = false.
Proof. destruct c as [[] [] [] [] [] [] [] []]; vm_compute; congruence. Qed.

Lemma nameChar_not_dot c : nameChar c = true -> c <> "."%char.
Proof. intros H ->. vm_compute in H. discriminate. Qed.

Lemma chars_underscoreSpaces b s :
  Forall (fun c => isAlnumOrSpace c = true) (list_ascii_of_string s) ->
  Forall (fun c => nameChar c = true) (list_ascii_of_string (underscoreSpaces b s)).
Proof.
  revert b. induction s as [|c t IH]; intros b; simpl; [constructor|].
  intros [Hc Ht]%Forall_cons. destruct (isSpace c) eqn:Ec.
  - destruct b; [by apply IH|]. simpl. constructor; [done|by apply IH].
  - simpl. constructor; [by apply nameChar_of_alnum | by apply IH].
Qed.

Lemma trimEnd_no_space s :
  Forall (fun c => isSpace c = false) (list_ascii_of_string s) -> trimEnd s = s.
Proof.
  induction s as [|c t IH]; simpl; [done|]. intros [Hc Ht]%Forall_cons.
  rewrite (IH Ht), Hc. by destruct t.
Qed.

Lemma trim_no_space s :
  Forall (fun c => isSpace c = false) (list_ascii_of_string s) -> trim s = s.
Proof.
  intros H. unfold trim. rewrite trimStart_startsClean.
  - by apply trimEnd_no_space.
  - destruct s; simpl in *; [done|]. apply Forall_cons in H as [-> _]. done.
Qed.

(** X3: a sanitized company name is made of the characters [a-z], [0-9] and
    the underscore only; the final [trim] of [sanitizeCompanyName] never
    removes anything (whitespace at the ends has become an underscore). *)
Theorem X3_sanitizeCompanyName_chars (name : jsval) :
  Forall (fun c => nameChar c = true) (list_ascii_of_string (sanitizeCompanyName name))
  /\ sanitizeCompanyName name
     = (if truthy name
        then underscoreSpaces false (keepChars isAlnumOrSpace (toLowerCase (orEmpty name)))
        else "")%string.
Proof.
  unfold sanitizeCompanyName. destruct (truthy name); [|by split].
  pose proof (chars_underscoreSpaces false _
                (chars_keepChars isAlnumOrSpace (toLowerCase (orEmpty name)))) as Hchars.
  assert (Htrim : trim (underscoreSpaces false
                          (keepChars isAlnumOrSpace (toLowerCase (orEmpty name))))
                  = underscoreSpaces false
                      (keepChars isAlnumOrSpace (toLowerCase (orEmpty name)))).
  { apply trim_no_space. eapply Forall_impl; [exact Hchars|].
    intros c. apply nameChar_not_space. }
  rewrite Htrim. by split.
Qed.

Lemma dropPrefix_mismatch c pat s x :
  c <> x -> dropPrefix (String c pat) (String x s) = None.
Proof. intros Hne. simpl. destruct (Ascii.eqb_spec c x); [done|done]. Qed.

Lemma replaceFirst_at_end (pre rep : string) :
  Forall (fun c => c <> "."%char) (list_ascii_of_string pre) ->
  replaceFirst ".json" rep (pre ++ ".json")%string = (pre ++ rep)%string.
Proof.
  induction pre as [|c t IH]; intros Hpre.
  - change (("" ++ ".json")%string) with ".json". simpl. by rewrite string_app_nil_r.
  - apply Forall_cons in Hpre as [Hc Ht].
    rewrite !string_app_cons.
    change (replaceFirst ".json" rep (String c (t ++ ".json")%string))
      with (match dropPrefix ".json" (String c (t ++ ".json")%string) with
            | Some rest => (rep ++ rest)%string
            | None => String c (replaceFirst ".json" rep (t ++ ".json")%string)
            end).
    rewrite dropPrefix_mismatch by congruence. by rewrite IH.
Qed.

(** X4: the statistics file of a verbose run is named after the file of the
    results, with [_stats] put in front of the extension; the two names
    differ, so the statistics never overwrite the results.  (The time stamp
    [YYYYMMDD_HHmmss] holds no dot.) *)
Theorem X4_statsFile_name (timestamp : string) (company : jsval) :
  Forall (fun c => c <> "."%char) (list_ascii_of_string timestamp) ->
  statsFile (generateOutputFilename timestamp company "json")
  = (sanitizeCompanyName company ++ "_reviews_" ++ timestamp ++ "_stats.json")%string
  /\ statsFile (generateOutputFilename timestamp company "json")
     <> generateOutputFilename timestamp company "json".
Proof.
  intros Hts. unfold statsFile, generateOutputFilename.
  set (n := sanitizeCompanyName company).
  assert (Hpre : Forall (fun c => c <> "."%char)
                   (list_ascii_of_string (n ++ "_reviews_" ++ timestamp)%string)).
  { rewrite !chars_app. apply Forall_app. split; [|apply Forall_app; split; [|done]].
    - eapply Forall_impl; [apply (X3_sanitizeCompanyName_chars company)|].
      intros c. apply nameChar_not_dot.
    - simpl. repeat constructor; discriminate. }
  assert (Heq : (n ++ "_reviews_" ++ timestamp ++ "." ++ "json"
                 = (n ++ "_reviews_" ++ timestamp) ++ ".json")%string).
  { by rewrite !string_app_assoc. }
  rewrite Heq, (replaceFirst_at_end _ "_stats.json" Hpre).
  split; [by rewrite !string_app_assoc|].
  intros Habs. apply String.app_inj in Habs. discriminate.
Qed.

End FileNames.

Lemma X4_statsFile_name_witness :
  Forall (fun c => c <> "."%char) (list_ascii_of_string "20240315_093000")
  /\ statsFile (HelpersMore.generateOutputFilename "20240315_093000" (JStr "Slack Inc.") "json")
     = "slack_inc_reviews_20240315_093000_stats.json"%string.
Proof.
  assert (H : Forall (fun c => c <> "."%char) (list_ascii_of_string "20240315_093000")).
  { simpl. repeat constructor; discriminate. }
  split; [exact H|].
  exact (proj1 (X4_statsFile_name "20240315_093000" (JStr "Slack Inc.") H)).
Defined.

(** ** Matching by derivatives *)

Section RegexFacts.
Import Regex.

Lemma nullable_spec r : nullable r = true <-> Matches r [].
Proof.
  induction r as [| |p|r1 IH1 r2 IH2|r1 IH1 r2 IH2|r IH]; simpl.
  - split; [done|]. inversion 1.
  - split; [constructor|done].
  - split; [done|]. inversion 1.
  - rewrite andb_true_iff, IH1, IH2. split.
    + intros [H1 H2]. by apply (MCat r1 r2 [] []).
    + inversion 1 as [| |? ? s1 s2 H1 H2 [E1 E2] E3| | | |]; subst.
      apply app_eq_nil in E3 as [-> ->]. done.
  - rewrite orb_true_iff, IH1, IH2. split.
    + intros [H|H]; [by apply MAltL | by apply MAltR].
    + inversion 1; subst; auto.
  - split; [constructor|done].
Qed.

(** A match of [r*] that is not empty starts with a match of [r] that is not
    empty. *)
Lemma star_cons r c s :
  Matches (Star r) (c :: s) ->
  exists s1 s2, s = s1 ++ s2 /\ Matches r (c :: s1) /\ Matches (Star r) s2.
Proof.
  remember (Star r) as r' eqn:Er. remember (c :: s) as cs eqn:Ecs.
  intros H. revert r c s Er Ecs.
  induction H as [|p0 c0 Hp|ra rb sa sb Ha _ Hb _|ra rb sa Ha _|ra rb sa Ha _|r0
                  |r0 s1 s2 H1 _ H2 IH2];
    intros r c s Er Ecs; try discriminate.
  injection Er as ->. destruct s1 as [|c1 s1]; simpl in Ecs.
  - by apply IH2.
  - injection Ecs as -> <-. by exists s1, s2.
Qed.

Lemma deriv_spec c r s : Matches (deriv c r) s <-> Matches r (c :: s).
Proof.
  revert s. induction r as [| |p|r1 IH1 r2 IH2|r1 IH1 r2 IH2|r IH]; intros s; simpl.
  - split; inversion 1.
  - split; inversion 1.
  - destruct (p c) eqn:Ep.
    + split.
      * inversion 1; subst. by constructor.
      * inversion 1; subst. constructor.
    + split; [inversion 1|]. inversion 1; subst. congruence.
  - assert (Hcat : Matches (Cat (deriv c r1) r2) s ->  Matches (Cat r1 r2) (c :: s)).
    { inversion 1 as [| |? ? s1 s2 H1 H2| | | |]; subst.
      apply IH1 in H1. by apply (MCat r1 r2 (c :: s1) s2). }
    assert (Hinv : Matches (Cat r1 r2) (c :: s) ->
                   Matches (Cat (deriv c r1) r2) s
                   \/ (Matches r1 [] /\ Matches r2 (c :: s))).
    { inversion 1 as [| |? ? s1 s2 H1 H2 [E1 E2] E3| | | |]; subst.
      destruct s1 as [|c1 s1]; simpl in E3.
      - subst s2. by right.
      - injection E3 as -> <-. left. constructor; [by apply IH1|done]. }
    destruct (nullable r1) eqn:En.
    + split.
      * inversion 1; subst; [by apply Hcat|].
        apply (MCat r1 r2 [] (c :: s)); [by apply nullable_spec | by apply IH2].
      * intros [H|[_ H]]%Hinv; [by apply MAltL | apply MAltR; by apply IH2].
    + split; [apply Hcat|].
      intros [H|[H _]]%Hinv; [done|]. apply nullable_spec in H. congruence.
  - split.
    + inversion 1; subst; [apply MAltL; by apply IH1 | apply MAltR; by apply IH2].
    + inversion 1; subst; [apply MAltL; by apply IH1 | apply MAltR; by apply IH2].
  - split.
    + inversion 1 as [| |? ? s1 s2 H1 H2| | | |]; subst.
      apply IH in H1. by apply (MStarS r (c :: s1) s2).
    + intros (s1 & s2 & -> & H1 & H2)%star_cons. constructor; [by apply IH|done].
Qed.

Lemma test_spec r s : test r s = true <-> Matches r (list_ascii_of_string s).
Proof.
  revert r. induction s as [|c t IH]; intros r; simpl.
  - apply nullable_spec.
  - rewrite IH. apply deriv_spec.
Qed.

Lemma star_class p s :
  Matches (Star (Class p)) s <-> Forall (fun c => p c = true) s.
Proof.
  split.
  - induction s as [|c s IH]; [constructor|].
    intros (s1 & s2 & -> & H1 & H2)%star_cons.
    inversion H1; subst. constructor; [done|]. by apply IH.
  - induction 1 as [|c s Hc _ IH]; [constructor|].
    apply (MStarS (Class p) [c] s); [by constructor|done].
Qed.

Lemma plus_class p s :
  Matches (Plus (Class p)) s <-> s <> [] /\ Forall (fun c => p c = true) s.
Proof.
  unfold Plus. split.
  - inversion 1 as [| |? ? s1 s2 H1 H2| | | |]; subst.
    inversion H1; subst. apply star_class in H2. split; [done|]. by constructor.
  - intros [Hne Hall]. destruct s as [|c s]; [done|].
    apply Forall_cons in Hall as [Hc Hs].
    apply (MCat (Class p) (Star (Class p)) [c] s); [by constructor | by apply star_class].
Qed.

Lemma cat_spec r1 r2 s :
  Matches (Cat r1 r2) s <-> exists s1 s2, s = s1 ++ s2 /\ Matches r1 s1 /\ Matches r2 s2.
Proof.
  split.
  - inversion 1; subst. by eexists _, _.
  - intros (s1 & s2 & -> & H1 & H2). by constructor.
Qed.

Lemma class_spec p s : Matches (Class p) s <-> exists c, s = [c] /\ p c = true.
Proof.
  split.
  - inversion 1; subst. by eexists.
  - intros (c & -> & Hc). by constructor.
Qed.

End RegexFacts.

Section Email.
Import HelpersMore.

Lemma EmailPart_chars s :
  EmailPart s
  <-> list_ascii_of_string s <> []
      /\ Forall (fun c => notSpaceOrAt c = true) (list_ascii_of_string s).
Proof.
  unfold EmailPart. split; intros [Hne Hall]; split.
  - by destruct s.
  - eapply Forall_impl; [exact Hall|]. intros c [Hs Hc]. unfold notSpaceOrAt.
    rewrite Hs. simpl. apply negb_true_iff. by apply Ascii.eqb_neq.
  - by destruct s.
  - eapply Forall_impl; [exact Hall|]. intros c Hc. unfold notSpaceOrAt in Hc.
    apply negb_true_iff, orb_false_iff in Hc as [Hs Hc]. split; [done|].
    by apply Ascii.eqb_neq.
Qed.

(** X5: [validateEmail] accepts exactly the texts [local@domain.tld] whose
    three parts are not empty and hold neither whitespace nor [@]. *)
Theorem X5_validateEmail_spec (email : string) :
  validateEmail email = true
  <-> exists local domain tld,
        email = (local ++ "@" ++ domain ++ "." ++ tld)%string
        /\ EmailPart local /\ EmailPart domain /\ EmailPart tld.
Proof.
  unfold validateEmail, emailRegex. rewrite test_spec. split.
  - intros (a & r1 & E1 & Ha & (x & r2 & E2 & Hx & (b & r3 & E3 & Hb
            & (y & c & E4 & Hy & Hc)%cat_spec)%cat_spec)%cat_spec)%cat_spec.
    apply class_spec in Hx as (cx & -> & Hcx). apply Ascii.eqb_eq in Hcx as <-.
    apply class_spec in Hy as (cy & -> & Hcy). apply Ascii.eqb_eq in Hcy as <-.
    apply plus_class in Ha, Hb, Hc. subst r1 r2 r3.
    exists (string_of_list_ascii a), (string_of_list_ascii b), (string_of_list_ascii c).
    split.
    + rewrite <- (string_of_list_ascii_of_string email), E1.
      match goal with
      | |- _ = ?rhs => rewrite <- (string_of_list_ascii_of_string rhs)
      end.
      by rewrite !chars_app, !list_ascii_of_string_of_list_ascii.
    + rewrite !EmailPart_chars, !list_ascii_of_string_of_list_ascii. done.
  - intros (l & d & t & -> & Hl & Hd & Ht).
    apply EmailPart_chars in Hl, Hd, Ht. rewrite !chars_app.
    apply cat_spec. eexists _, _. split; [reflexivity|]. split; [by apply plus_class|].
    apply cat_spec. exists ["@"%char], (list_ascii_of_string d ++ list_ascii_of_string "." ++ list_ascii_of_string t).
    split; [done|]. split; [by constructor|].
    apply cat_spec. eexists _, _. split; [reflexivity|]. split; [by apply plus_class|].
    apply cat_spec. exists ["."%char], (list_ascii_of_string t).
    split; [done|]. split; [by constructor|]. by apply plus_class.
Qed.

End Email.

(** ** The other helpers *)

Section OtherHelpers.
Import HelpersMore.

Lemma length_sliceTo n s : n <= String.length s -> String.length (sliceTo n s) = n.
Proof.
  revert s. induction n as [|n IH]; intros [|c t]; simpl; try lia.
  intros H. rewrite IH; lia.
Qed.

(** X6: [truncateText] returns a text that is empty, missing or no longer
    than [maxLength] as it is; a longer text is cut to its first [maxLength]
    characters, followed by three dots: the result then has [maxLength + 3]
    characters, which is more than the text had when it was one or two
    characters too long. *)
Theorem X6_truncateText_spec (text : jsval) (maxLength : Z) :
  (truthy text = false -> truncateText text maxLength = text)
  /\ (forall s, text = JStr s -> (Z.of_nat (String.length s) <= maxLength)%Z ->
        truncateText text maxLength = text)
  /\ (forall s, text = JStr s -> s <> ""%string ->
        (maxLength < Z.of_nat (String.length s))%Z ->
        exists r,
          truncateText text maxLength = JStr r
          /\ r = (sliceTo (Z.to_nat maxLength) s ++ "...")%string
          /\ String.length r = Z.to_nat maxLength + 3
          /\ ((0 <= maxLength)%Z -> String.length s < Z.to_nat maxLength + 3 ->
              String.length s < String.length r)).
Proof.
  split; [|split].
  - destruct text as [| |s]; [done..|]. simpl. by intros ->.
  - intros s -> Hle. unfold truncateText.
    rewrite (proj2 (Z.leb_le _ _) Hle). by rewrite orb_true_r.
  - intros s -> Hne Hlt. unfold truncateText.
    assert (truthy (JStr s) = true) as -> by (by destruct s).
    rewrite (proj2 (Z.leb_gt _ _) Hlt). simpl.
    eexists. split; [reflexivity|]. split; [reflexivity|].
    rewrite string_length_app, length_sliceTo by lia. simpl. split; lia.
Qed.

Lemma isDigit_digitRun c t :
  isDigit c = true -> exists ds rest, digitRun (String c t) = (String c ds, rest).
Proof. intros Hc. simpl. rewrite Hc. destruct (digitRun t). by eexists _, _. Qed.

Lemma numberAt_starts c t :
  isDigit c = true -> exists m, numberAt (String c t) = String c m.
Proof.
  intros Hc. unfold numberAt.
  destruct (isDigit_digitRun c t Hc) as (ds & rest & ->).
  destruct rest as [|[[] [] [] [] [] [] [] []] rest'];
    try (by eexists).
  destruct (digitRun rest') as [[|d frac] ?]; by eexists.
Qed.

Lemma digitsValue_nonneg acc s : (0 <= acc)%Z -> (0 <= digitsValue acc s)%Z.
Proof.
  revert acc. induction s as [|c t IH]; intros acc Hacc; simpl; [done|].
  apply IH. lia.
Qed.

Lemma parseFloat_digit c t :
  isDigit c = true -> exists q, parseFloat (String c t) = Num q /\ (0 <= q)%Q.
Proof.
  intros Hc. unfold parseFloat.
  destruct (isDigit_digitRun c t Hc) as (ds & rest & ->).
  eexists. split; [reflexivity|]. rewrite Qred_correct.
  set (frac := match rest with String "." rest' => (digitRun rest').1 | _ => ""%string end).
  pose proof (digitsValue_nonneg 0 (String c ds) ltac:(lia)) as H1.
  pose proof (digitsValue_nonneg 0 frac ltac:(lia)) as H2.
  assert (0 < 10 ^ Z.of_nat (String.length frac))%Z as H3 by (apply Z.pow_pos_nonneg; lia).
  apply Qle_trans with (inject_Z (digitsValue 0 (String c ds)) + 0)%Q.
  - rewrite Qplus_0_r. change 0%Q with (inject_Z 0). by rewrite <- Zle_Qle.
  - apply Qplus_le_r. apply Qle_shift_div_l.
    + change 0%Q with (inject_Z 0). by rewrite <- Zlt_Qlt.
    + rewrite Qmult_0_l. change 0%Q with (inject_Z 0). by rewrite <- Zle_Qle.
Qed.

Lemma firstNumber_None s :
  firstNumber s = None <-> Forall (fun c => isDigit c = false) (list_ascii_of_string s).
Proof.
  induction s as [|c t IH]; simpl; [split; [constructor|done]|].
  destruct (isDigit c) eqn:Ec.
  - split; [done|]. intros [H _]%Forall_cons. congruence.
  - rewrite IH. split; [by constructor|]. by intros [_ H]%Forall_cons.
Qed.

Lemma firstNumber_Some s m :
  firstNumber s = Some m -> exists c t, m = String c t /\ isDigit c = true.
Proof.
  induction s as [|c t IH]; simpl; [done|].
  destruct (isDigit c) eqn:Ec; [|exact IH].
  intros [= <-]. destruct (numberAt_starts c t Ec) as [m' ->]. by eexists _, _.
Qed.

(** X7: [extractRating] gives [null] exactly for a text without a digit
    (a missing or empty text included); for any other text it gives a number
    that is not negative: a sign in front of the digits is not read. *)
Theorem X7_extractRating_spec (ratingText : jsval) :
  (extractRating ratingText = NNull
   <-> Forall (fun c => isDigit c = false) (list_ascii_of_string (orEmpty ratingText)))
  /\ (extractRating ratingText = NNull
      \/ exists q, extractRating ratingText = Num q /\ (0 <= q)%Q).
Proof.
  unfold extractRating. destruct (truthy ratingText) eqn:Ht; simpl.
  - destruct (firstNumber (orEmpty ratingText)) as [m|] eqn:Ef.
    + destruct (firstNumber_Some _ _ Ef) as (c & t & -> & Hc).
      destruct (parseFloat_digit c t Hc) as (q & Hq & Hpos). rewrite Hq. split.
      * split; [done|]. intros H%firstNumber_None. congruence.
      * right. by exists q.
    + split; [|by left]. split; [|done]. intros _. by apply firstNumber_None.
  - split; [|by left]. split; [|done]. intros _.
    destruct ratingText as [| |[|c s]]; [constructor..|discriminate].
Qed.

Example extractRating_examples :
  extractRating (JStr "4.5 out of 5") = Num (9 # 2)
  /\ extractRating (JStr "Rated -3 stars") = Num 3
  /\ extractRating (JStr "7. very good") = Num 7
  /\ extractRating (JStr "no rating") = NNull.
Proof. repeat split; reflexivity. Qed.

(** [Math.floor(Math.random() * n)] is an index below [n]. *)
Lemma floor_random_bounds (random : Q) (n : Z) :
  (0 <= random)%Q -> (random < 1)%Q -> (0 < n)%Z ->
  (0 <= Qfloor (random * inject_Z n) < n)%Z.
Proof.
  intros H0 H1 Hn.
  assert (0 < inject_Z n)%Q as HnQ by (change 0%Q with (inject_Z 0); by rewrite <- Zlt_Qlt).
  split.
  - rewrite <- (Qfloor_Z 0). apply Qfloor_resp_le. change (inject_Z 0) with 0%Q.
    apply Qmult_le_0_compat; [done|]. by apply Qlt_le_weak.
  - rewrite Zlt_Qlt. eapply Qle_lt_trans; [apply Qfloor_le|].
    rewrite <- (Qmult_1_l (inject_Z n)) at 2. by apply Qmult_lt_compat_r.
Qed.

(** X8: for integers [min <= max] the delay drawn by [getRandomDelay] lies
    between [min] and [max], both included. *)
Theorem X8_getRandomDelay_bounds (random : Q) (min max : Z) :
  (0 <= random)%Q -> (random < 1)%Q -> (min <= max)%Z ->
  (min <= getRandomDelay random min max <= max)%Z.
Proof.
  intros H0 H1 Hmm. unfold getRandomDelay.
  pose proof (floor_random_bounds random (max - min + 1) H0 H1 ltac:(lia)). lia.
Qed.

Lemma X8_getRandomDelay_bounds_witness :
  (1000 <= HelpersMore.getRandomDelay (999 # 1000) 1000 3000 <= 3000)%Z.
Proof. apply X8_getRandomDelay_bounds; [done|reflexivity|lia]. Defined.

(** X9: [getUserAgent] always gives one of the five agents of its list,
    never [undefined]. *)
Theorem X9_getUserAgent_defined (random : Q) :
  (0 <= random)%Q -> (random < 1)%Q ->
  exists ua, getUserAgent random = JStr ua /\ ua ∈ userAgents.
Proof.
  intros H0 H1. unfold getUserAgent.
  pose proof (floor_random_bounds random 5 H0 H1 ltac:(lia)) as Hi.
  change (Z.of_nat (length userAgents)) with 5%Z.
  set (i := Qfloor (random * inject_Z 5)) in *.
  rewrite (proj2 (Z.ltb_ge i 0)) by lia.
  destruct (userAgents !! Z.to_nat i) as [ua|] eqn:E.
  - exists ua. split; [done|]. by eapply list_elem_of_lookup_2.
  - apply lookup_ge_None in E. simpl in E. lia.
Qed.

Lemma X9_getUserAgent_defined_witness :
  exists ua, HelpersMore.getUserAgent (1 # 2) = JStr ua /\ ua ∈ HelpersMore.userAgents.
Proof. apply X9_getUserAgent_defined; [done|reflexivity]. Defined.

End OtherHelpers.

(** ** The identity key is blind to case and spacing *)

Section HashFacts.
Import Index.

Lemma toLowerCase_app a b : toLowerCase (a ++ b)%string = (toLowerCase a ++ toLowerCase b)%string.
Proof. induction a as [|c a IH]; [done|]. rewrite !string_app_cons. simpl. by rewrite IH. Qed.

Lemma stripWhitespace_app a b :
  stripWhitespace (a ++ b)%string = (stripWhitespace a ++ stripWhitespace b)%string.
Proof.
  induction a as [|c a IH]; [done|]. rewrite string_app_cons. simpl.
  destruct (isSpace c); [done|]. by rewrite string_app_cons, IH.
Qed.

Lemma createReviewHash_parts r :
  createReviewHash r
  = (stripWhitespace (toLowerCase (sliceTo 100 (orEmpty (content r)))) ++ "_"
     ++ stripWhitespace (toLowerCase (orEmpty (author r))) ++ "_"
     ++ stripWhitespace (toLowerCase (orEmpty (date r))))%string.
Proof.
  unfold createReviewHash. by rewrite !toLowerCase_app, !stripWhitespace_app.
Qed.

(** X10: two records whose contents (up to the 100th character), authors and
    dates differ in letter case and whitespace only have the same key; so the
    second of them never survives the deduplication of a list that holds the
    first. *)
Theorem X10_createReviewHash_blind (r1 r2 : review) :
  stripWhitespace (toLowerCase (sliceTo 100 (orEmpty (content r1))))
  = stripWhitespace (toLowerCase (sliceTo 100 (orEmpty (content r2)))) ->
  stripWhitespace (toLowerCase (orEmpty (author r1)))
  = stripWhitespace (toLowerCase (orEmpty (author r2))) ->
  stripWhitespace (toLowerCase (orEmpty (date r1)))
  = stripWhitespace (toLowerCase (orEmpty (date r2))) ->
  createReviewHash r1 = createReviewHash r2
  /\ forall l, r1 ∈ l -> removeDuplicates (l ++ [r2]) = removeDuplicates l.
Proof.
  intros Hc Ha Hd.
  assert (createReviewHash r1 = createReviewHash r2) as Heq.
  { rewrite !createReviewHash_parts. by rewrite Hc, Ha, Hd. }
  split; [done|]. intros l Hin. rewrite removeDuplicates_snoc.
  rewrite decide_True; [by rewrite app_nil_r|].
  rewrite <- Heq. apply list_elem_of_fmap. by exists r1.
Qed.

End HashFacts.

Lemma X10_createReviewHash_blind_witness :
  let r1 := Examples.rec "g2_0_1" "Great Tool" "Ann B" "2024-03-01" in
  let r2 := Examples.rec "capterra_4_2" " great  tool" "ann b" "2024-03-01" in
  Index.createReviewHash r1 = Index.createReviewHash r2
  /\ Index.removeDuplicates ([r1] ++ [r2]) = Index.removeDuplicates [r1].
Proof.
  intros r1 r2.
  destruct (X10_createReviewHash_blind r1 r2 eq_refl eq_refl eq_refl) as [H1 H2].
  split; [exact H1|]. apply H2. left.
Defined.

(** ** The checks before a run *)

Section Validation.
Context {M : Moment} {AS : ArraySort} {W : Type} {D : PageDriver W}.
Import Index.

(** X11: when [validateOptions] rejects the options, [scrape] returns
    [false] having done nothing but log the reason: no browser is launched,
    no page requested, nothing written; statistics and records are
    untouched. *)
Theorem X11_scrape_invalid_options (options : Options) (st : RunState W) :
  fst (validateOptions options st) = Ret false ->
  exists msg,
    scrape options st
    = (Ret false,
       mkRunState (mkState (world (env st)) (trace (env st) ++ [LogError msg]))
         (stats st) (allReviews st)).
Proof.
  unfold scrape, scrapeBody, tryCatch, bind, validateOptions.
  destruct (invalidOption options) as [msg|]; [|done].
  intros _. exists msg. reflexivity.
Qed.

(** The sources [validateOptions] accepts. *)
Lemma createScrapers_cases (source : string) :
  ((toLowerCase source ∈ ["g2"; "capterra"; "trustradius"; "all"])
   /\ exists s rest, createScrapers source = s :: rest)
  \/ ((toLowerCase source ∉ ["g2"; "capterra"; "trustradius"; "all"])
      /\ createScrapers source = []).
Proof.
  unfold createScrapers.
  destruct (String.eqb_spec (toLowerCase source) "g2") as [->|H1].
  { left. split; [set_solver | by eexists _, _]. }
  destruct (String.eqb_spec (toLowerCase source) "capterra") as [->|H2].
  { left. split; [set_solver | by eexists _, _]. }
  destruct (String.eqb_spec (toLowerCase source) "trustradius") as [->|H3].
  { left. split; [set_solver | by eexists _, _]. }
  destruct (String.eqb_spec (toLowerCase source) "all") as [->|H4].
  { left. split; [set_solver | by eexists _, _]. }
  right. split; [|done].
  rewrite !elem_of_cons, elem_of_nil. tauto.
Qed.

(** X12: [createScrapers] gives at least one scraper, and at most three,
    exactly for the sources [validateOptions] accepts (g2, capterra,
    trustradius, all, in any letter case); so a run whose options were
    accepted always has a scraper to run. *)
Theorem X12_createScrapers_validated :
  (forall source,
     createScrapers source <> []
     <-> toLowerCase source ∈ ["g2"; "capterra"; "trustradius"; "all"])
  /\ (forall source, length (createScrapers source) <= 3)
  /\ (forall options (st : RunState W),
        fst (validateOptions options st) = Ret true ->
        createScrapers (optSource options) <> []).
Proof.
  split; [|split].
  - intros source. destruct (createScrapers_cases source) as [[Hin (s & rest & ->)]|[Hnin ->]];
      split; done.
  - intros source. unfold createScrapers.
    repeat (destruct (String.eqb _ _); [simpl; lia|]). simpl; lia.
  - intros options st. unfold validateOptions.
    destruct (invalidOption options) as [msg|] eqn:Hv; [done|]. intros _.
    destruct (createScrapers_cases (optSource options)) as [[_ (s & rest & ->)]|[Hnin _]];
      [done|].
    exfalso. unfold invalidOption in Hv.
    repeat (match type of Hv with (if ?b then _ else _) = _ => destruct b eqn:?; [discriminate|] end).
    match goal with H : negb (bool_decide _) = false |- _ =>
      apply negb_false_iff, bool_decide_eq_true in H end.
    done.
Qed.

End Validation.

Lemma X11_scrape_invalid_options_witness :
  let M := IsoDates.isoMoment 0 in
  let D := Sim.driver in
  let AS := v8Engine in
  let options := Index.mkOptions (JStr "") "g2" JUndefined JUndefined JUndefined 10 false in
  exists msg,
    Index.scrape options (Examples.start Examples.twoPagesOfSix)
    = (Ret false,
       Index.mkRunState (mkState Examples.twoPagesOfSix [LogError msg])
         Examples.emptyStats []).
Proof.
  intros M D AS options.
  apply (X11_scrape_invalid_options options (Examples.start Examples.twoPagesOfSix)).
  reflexivity.
Defined.

(** ** What a turn of the loop over the scrapers adds *)

Section Contributions.
Context {M : Moment} {AS : ArraySort} {W : Type} {D : PageDriver W}.
Import Index.

Lemma lift_run {A} (m : Run (State W) A) st r st' :
  lift m st = (r, st') ->
  m (env st) = (r, env st') /\ stats st' = stats st /\ allReviews st' = allReviews st.
Proof. unfold lift. destruct (m (env st)) as [r' e]. by intros [= <- <-]. Qed.

Lemma scraperBody_Contributes options (s : Scraper W) st r st' :
  scraperBody options s st = (r, st') -> Contributes options s st st'.
Proof.
  unfold scraperBody, bind, logError, logWarn.
  destruct (lift (initialize s) st) as [[success|e] st1] eqn:E1;
    apply lift_run in E1 as (_ & Hs1 & Ha1).
  2: { intros [= _ <-]. left. by rewrite Hs1, Ha1. }
  destruct success; simpl.
  2: { intros (_ & Hs & Ha)%lift_run. left. by rewrite Hs, Ha, Hs1, Ha1. }
  match goal with
  | |- context [(if truthy (url options) then ?a else ?b) st1] =>
      destruct ((if truthy (url options) then a else b) st1)
        as [[productUrl|e] st2] eqn:E2
  end;
  (assert (stats st2 = stats st /\ allReviews st2 = allReviews st) as [Hs2 Ha2];
   [destruct (truthy (url options));
    [by injection E2 as _ <- | apply lift_run in E2 as (_ & Hs & Ha); by rewrite Hs, Ha]|]).
  2: { intros [= _ <-]. left. by rewrite Hs2, Ha2. }
  destruct (negb (truthy productUrl)).
  { intros (_ & Hs & Ha)%lift_run. cbn in Hs, Ha. left. by rewrite Hs, Ha, Hs2, Ha2. }
  destruct (lift (scrapeReviews s productUrl (startDate options) (endDate options)
                    (limit options)) st2) as [[reviews|e] st3] eqn:E3;
    apply lift_run in E3 as (Hrun & Hs3 & Ha3).
  2: { intros [= _ <-]. left. by rewrite Hs3, Ha3, Hs2, Ha2. }
  destruct reviews as [|x reviews].
  - simpl. intros (_ & Hs & Ha)%lift_run. left. by rewrite Hs, Ha, Hs3, Ha3, Hs2, Ha2.
  - cbn [length Nat.ltb Nat.leb]. unfold pushReviews, modifyStats. cbn.
    intros (_ & Hs & Ha)%lift_run. right.
    exists productUrl, (env st2), (x :: reviews), (env st3).
    split; [done|]. split; [done|]. cbn in Hs, Ha.
    rewrite Ha, Hs, Ha3, Hs3, Ha2, Hs2. done.
Qed.

Lemma runScraper_Contributes options (s : Scraper W) st r st' :
  runScraper options s st = (r, st') -> Contributes options s st st'.
Proof.
  unfold runScraper, tryCatch at 1.
  destruct (scraperBody options s st) as [[[]|msg] st1] eqn:Hbody.
  - intros [= _ <-]. by eapply scraperBody_Contributes.
  - apply scraperBody_Contributes in Hbody.
    unfold bind, logError, modifyStats, tryCatch.
    match goal with
    | |- context [lift (emit ?ev) st1] =>
        destruct (lift (emit ev) st1) as [[[]|e] sta] eqn:Ea
    end; apply lift_run in Ea as (_ & Hsa & Haa).
    2: { intros [= _ <-]. destruct Hbody as [[? ?]|(u & e0 & l & e1 & ? & ? & ? & ?)];
           [left|right; exists u, e0, l, e1]; rewrite ?Hsa, ?Haa; done. }
    assert (Hfin : allReviews st' = allReviews st1 /\ sources (stats st') = sources (stats st1)
                   -> Contributes options s st st').
    { intros [Ha Hs]. destruct Hbody as [[? ?]|(u & e0 & l & e1 & ? & ? & ? & ?)];
        [left|right; exists u, e0, l, e1]; rewrite ?Hs, ?Ha; done. }
    match goal with
    | |- context [lift (cleanup s) ?x] =>
        destruct (lift (cleanup s) x) as [[[]|e] stb] eqn:Eb
    end; apply lift_run in Eb as (_ & Hsb & Hab); cbn in Hsb, Hab;
      intros [= _ <-]; apply Hfin; rewrite Hsb, Hab, Hsa, Haa; done.
Qed.

(** The harvest of a built-in scraper keeps to the limit. *)
Lemma builtin_WithinLimit source (s : Scraper W) u a b l :
  s ∈ createScrapers source -> Returns (scrapeReviews s u a b l) (WithinLimit l).
Proof.
  intros Hs. unfold createScrapers in Hs.
  assert (s = g2Scraper \/ s = capterraScraper \/ s = trustRadiusScraper) as Hcases.
  { repeat (destruct (String.eqb _ _)); revert Hs;
      rewrite ?elem_of_cons, ?elem_of_nil; tauto. }
  destruct Hcases as [-> | [-> | ->]]; simpl.
  - apply G2_scrapeReviews_WithinLimit.
  - apply Capterra_scrapeReviews_WithinLimit.
  - apply TrustRadius_scrapeReviews_WithinLimit.
Qed.

(** X13: the limit holds for every source on its own: a run over [n] of the
    built-in scrapers collects at most [n] times [limit] records (up to
    three times the limit for the source [all]). *)
Theorem X13_collected_within_limit (options : Options) (source : string)
    (scrapers : list (Scraper W)) (st : RunState W) r st' :
  scrapers ⊆ createScrapers source ->
  runScrapers options scrapers st = (r, st') ->
  length (allReviews st')
  <= length (allReviews st) + Z.to_nat (limit options) * length scrapers.
Proof.
  revert st. induction scrapers as [|s rest IH]; intros st Hsub; simpl.
  - intros [= _ <-]. lia.
  - unfold bind.
    destruct (runScraper options s st) as [[[]|e] st1] eqn:Hrun.
    2: { destruct (runScraper_NoThrow options s st) as (? & ? & Hnt).
         rewrite Hnt in Hrun. discriminate. }
    intros Hrest. apply IH in Hrest; [|intros x Hx; apply Hsub; by right].
    assert (length (allReviews st1) <= length (allReviews st) + Z.to_nat (limit options)).
    { destruct (runScraper_Contributes _ _ _ _ _ Hrun)
        as [[-> _]|(u & e0 & l & e1 & Hl & Hne & -> & _)]; [lia|].
      eapply (builtin_WithinLimit source) in Hl; [|apply Hsub; left].
      destruct Hl as [Hpos Hneg]. rewrite length_app.
      destruct (Z.le_gt_cases 0 (limit options)); [|rewrite Hneg in Hne by lia; done].
      specialize (Hpos ltac:(done)). lia. }
    lia.
Qed.

(** X14: after the loop, the sources of the statistics are those before it
    followed by the names of the scrapers that contributed records, in the
    order they ran; no name is added when no record was. *)
Theorem X14_sources_name_contributors (options : Options)
    (scrapers : list (Scraper W)) (st : RunState W) r st' :
  runScrapers options scrapers st = (r, st') ->
  exists contributing more,
    contributing `sublist_of` scrapers
    /\ sources (stats st') = sources (stats st) ++ (sourceName <$> contributing)
    /\ allReviews st' = allReviews st ++ more
    /\ (contributing = [] <-> more = []).
Proof.
  revert st. induction scrapers as [|s rest IH]; intros st; simpl.
  - intros [= _ <-]. exists [], []. by rewrite !app_nil_r.
  - unfold bind.
    destruct (runScraper options s st) as [[[]|e] st1] eqn:Hrun.
    2: { destruct (runScraper_NoThrow options s st) as (? & ? & Hnt).
         rewrite Hnt in Hrun. discriminate. }
    intros (c & more & Hsub & Hsrc & Hall & Hiff)%IH.
    destruct (runScraper_Contributes _ _ _ _ _ Hrun)
      as [[Ha Hs]|(u & e0 & l & e1 & _ & Hne & Ha & Hs)].
    + exists c, more. rewrite Hsrc, Hall, Ha, Hs. split; [by apply sublist_cons|done].
    + exists (s :: c), (l ++ more). rewrite Hsrc, Hall, Ha, Hs.
      split; [by apply sublist_skip|]. rewrite fmap_cons, <- !app_assoc.
      split; [done|]. split; [done|]. split; [done|].
      intros [? _]%app_eq_nil. done.
Qed.

End Contributions.

Lemma X13_collected_within_limit_witness :
  let M := IsoDates.isoMoment 0 in
  let D := Sim.driver in
  let st := Examples.start Examples.twoPagesOfSix in
  let run := Index.runScrapers Examples.slackOptions (Index.createScrapers "all") st in
  length (Index.allReviews (snd run)) <= 0 + Z.to_nat 10 * 3.
Proof.
  intros M D st run.
  apply (X13_collected_within_limit Examples.slackOptions "all" (Index.createScrapers "all")
           st (fst run) (snd run)); [intros x Hx; exact Hx|].
  apply surjective_pairing.
Defined.

Lemma X14_sources_name_contributors_witness :
  let M := IsoDates.isoMoment 0 in
  let D := Sim.driver in
  let st := Examples.start Examples.twoPagesOfSix in
  let run := Index.runScrapers Examples.slackOptions (Index.createScrapers "all") st in
  exists contributing more,
    contributing `sublist_of` Index.createScrapers "all"
    /\ sources (Index.stats (snd run)) = [] ++ (Index.sourceName <$> contributing)
    /\ Index.allReviews (snd run) = [] ++ more
    /\ (contributing = [] <-> more = []).
Proof.
  intros M D st run.
  apply (X14_sources_name_contributors Examples.slackOptions (Index.createScrapers "all")
           st (fst run) (snd run)).
  apply surjective_pairing.
Defined.

(** ** The statistics of a run *)

Section Statistics.
Context {M : Moment} {AS : ArraySort} {W : Type} {D : PageDriver W}.
Import Index.

Lemma removeDuplicates_nonempty (all : list review) :
  all <> [] -> 1 <= length (removeDuplicates all).
Proof.
  destruct all as [|x l]; [done|]. intros _. unfold removeDuplicates. simpl.
  rewrite decide_False by set_solver. simpl. lia.
Qed.

Lemma length_finalReviews (HAS : SortContract AS) (all : list review) :
  length (finalReviews all) = length (removeDuplicates all).
Proof.
  unfold finalReviews, sortedReviews. rewrite length_fmap.
  apply Permutation_length, (arraySort_perm AS HAS).
Qed.

(** [Math.round((total / all) * 100)] for [1 <= total <= all]. *)
Lemma rate_bounds (t a : nat) :
  1 <= t -> t <= a ->
  (0 <= Helpers.mathRound (inject_Z (Z.of_nat t) / inject_Z (Z.of_nat a) * 100) <= 100)%Z
  /\ (t = a ->
      Helpers.mathRound (inject_Z (Z.of_nat t) / inject_Z (Z.of_nat a) * 100) = 100%Z).
Proof.
  intros Ht Hta.
  assert (0 < inject_Z (Z.of_nat a))%Q as Ha.
  { change 0%Q with (inject_Z 0). rewrite <- Zlt_Qlt. lia. }
  set (x := (inject_Z (Z.of_nat t) / inject_Z (Z.of_nat a))%Q).
  assert (0 <= x)%Q as Hx0.
  { apply Qle_shift_div_l; [done|]. rewrite Qmult_0_l.
    change 0%Q with (inject_Z 0). rewrite <- Zle_Qle. lia. }
  assert (x <= 1)%Q as Hx1.
  { apply Qle_shift_div_r; [done|]. rewrite Qmult_1_l. rewrite <- Zle_Qle. lia. }
  destruct (mathRound_bounds (x * 100)) as [Hup Hlow].
  split.
  - assert (inject_Z (-1) < inject_Z (Helpers.mathRound (x * 100)))%Q as H1
      by (change (inject_Z (-1)) with (-1)%Q; lra).
    assert (inject_Z (Helpers.mathRound (x * 100)) < inject_Z 101)%Q as H2
      by (change (inject_Z 101) with 101%Q; lra).
    rewrite <- Zlt_Qlt in H1, H2. lia.
  - intros ->. unfold Helpers.mathRound.
    assert (x == 1)%Q as Hx.
    { unfold x, Qdiv. apply Qmult_inv_r. intros E. rewrite E in Ha. by apply Qlt_irrefl in Ha. }
    rewrite (Qfloor_comp (x * 100 + (1 # 2)) (201 # 2)); [reflexivity|].
    rewrite Hx. reflexivity.
Qed.

(** X15: when [processResults] returns, the statistics count the records
    written, which are as many as the deduplication kept: at least one, at
    most as many as were collected; the success rate is the rounded
    percentage of the collected records that were kept, between 0 and 100,
    and 100 when no record was a duplicate; sources, errors and the
    collected records are untouched. *)
Theorem X15_processResults_stats (HAS : SortContract AS) (all : list review)
    (options : Options) (st1 st2 : RunState W) :
  all <> [] ->
  processResults all options st1 = (Ret tt, st2) ->
  totalReviews (stats st2) = length (finalReviews all)
  /\ totalReviews (stats st2) = length (removeDuplicates all)
  /\ 1 <= totalReviews (stats st2) <= length all
  /\ successRate (stats st2)
     = Helpers.mathRound (inject_Z (Z.of_nat (length (removeDuplicates all)))
                          / inject_Z (Z.of_nat (length all)) * 100)
  /\ (0 <= successRate (stats st2) <= 100)%Z
  /\ (removeDuplicates all = all -> successRate (stats st2) = 100%Z)
  /\ sources (stats st2) = sources (stats st1)
  /\ errors (stats st2) = errors (stats st1)
  /\ allReviews st2 = allReviews st1.
Proof.
  intros Hne Hrun.
  pose proof (length_finalReviews HAS all) as Hlen.
  pose proof (removeDuplicates_nonempty all Hne) as Hpos.
  pose proof (removeDuplicatesFrom_length ∅ all) as Hle. fold (removeDuplicates all) in Hle.
  destruct (rate_bounds _ _ Hpos Hle) as [Hrate Hfull].
  assert (Hstats : stats st2
                   = mkStats (length (finalReviews all)) (sources (stats st1))
                       (errors (stats st1))
                       (Helpers.mathRound
                          (inject_Z (Z.of_nat (length (finalReviews all)))
                           / inject_Z (Z.of_nat (length all)) * 100))
                   /\ allReviews st2 = allReviews st1).
  { revert Hrun.
    unfold processResults, processResultsBody, tryCatch, bind, saveToFile, bind, lift,
      onWorld, modifyStats, logError, lift, emit, ret, throw.
    cbn.
    match goal with
    | |- context [writeJson ?f ?l ?w] => destruct (writeJson f l w) as [w1 [path|]]
    end; cbn; [|done].
    destruct (verbose options); cbn.
    - match goal with
      | |- context [writeStats ?f ?s ?w] => destruct (writeStats f s w) as [w2 [path2|]]
      end; cbn; [|done]. by intros [= <-].
    - by intros [= <-]. }
  destruct Hstats as [-> ->]. cbn. rewrite Hlen.
  split; [done|]. split; [done|]. split; [lia|]. split; [done|].
  split; [exact Hrate|]. split; [|done].
  intros Hsame. apply Hfull. by rewrite Hsame.
Qed.

End Statistics.

Lemma X15_processResults_stats_witness :
  let M := IsoDates.isoMoment 0 in
  let D := Sim.driver in
  let AS := v8Engine in
  let all := Examples.allDated in
  let run := Index.processResults all Examples.slackOptions
               (Examples.start Examples.twoPagesOfSix) in
  totalReviews (Index.stats (snd run)) = 4
  /\ successRate (Index.stats (snd run)) = 80%Z.
Proof.
  intros M D AS all run.
  destruct (X15_processResults_stats (M := M) (AS := AS) v8Engine_contract all Examples.slackOptions
              (Examples.start Examples.twoPagesOfSix) (snd run))
    as (_ & Ht & _ & Hr & _).
  - discriminate.
  - reflexivity.
  - split; [exact Ht | exact Hr].
Defined.

(** ** What the harvests return *)

Section Harvest.
Context {M : Moment} {W : Type} {D : PageDriver W}.

Lemma filterReviewsByDateRange_InRange reviews s e :
  truthy s = true -> truthy e = true ->
  Forall (InRange s e) (BaseScraper.filterReviewsByDateRange reviews s e).
Proof.
  intros Hs He. unfold BaseScraper.filterReviewsByDateRange. rewrite Hs, He. simpl.
  apply Forall_forall. intros r [_ Hk]%list_elem_of_In%filter_In.
  by apply isDateInRange_spec.
Qed.

Lemma filterReviewsByDateRange_sublist reviews s e :
  BaseScraper.filterReviewsByDateRange reviews s e `sublist_of` reviews.
Proof.
  unfold BaseScraper.filterReviewsByDateRange.
  destruct (negb (truthy s) || negb (truthy e)); [done|].
  induction reviews as [|r l IH]; simpl; [done|].
  destruct (if negb (truthy (date r)) then false else _);
    [by apply sublist_skip | by apply sublist_cons].
Qed.

Lemma filter_sublist {A} (f : A -> bool) (l : list A) : List.filter f l `sublist_of` l.
Proof.
  induction l as [|x l IH]; simpl; [done|].
  destruct (f x); [by apply sublist_skip | by apply sublist_cons].
Qed.

Lemma Forall_sliceArray {A} (P : A -> Prop) n (l : list A) :
  Forall P l -> Forall P (sliceArray n l).
Proof. intros H. unfold sliceArray. destruct (0 <=? n)%Z; by apply Forall_take. Qed.

Lemma sliceArray_sublist {A} n (l : list A) : sliceArray n l `sublist_of` l.
Proof. unfold sliceArray. destruct (0 <=? n)%Z; apply sublist_take. Qed.

(** An invariant of the accumulated records is one of the result of the
    pagination. *)
Lemma G2_paginate_Returns (P : list review -> Prop) s e limit maxPages base fuel page all :
  (forall all l, P all -> P (all ++ BaseScraper.filterReviewsByDateRange l s e)) ->
  P all ->
  Returns (G2Scraper.paginate s e limit maxPages base fuel page all) P.
Proof.
  intros Hstep. revert page all. induction fuel as [|fuel IH]; intros page all Hall; simpl.
  - by apply Returns_ret.
  - destruct (lengthLt all limit && (page <=? maxPages)%Z); [|by apply Returns_ret].
    apply Returns_bind; intros navOk. destruct (negb navOk); [by apply Returns_ret|].
    apply Returns_bind; intros blocked.
    destruct blocked; [apply Returns_bind; intros _; by apply Returns_ret|].
    apply Returns_bind; intros _. apply Returns_bind; intros _.
    apply Returns_bind; intros pageReviews.
    destruct (length pageReviews =? 0)%nat; [by apply Returns_ret|].
    destruct (length _ =? 0)%nat; [apply Returns_ret; by apply Hstep|].
    apply Returns_bind; intros _. apply IH. by apply Hstep.
Qed.

Lemma Capterra_paginate_Returns (P Q : list review -> Prop)
    s e limit maxPages base fuel page all :
  Returns CapterraScraper.extractCapterraReviews Q ->
  (forall all l, P all -> Q l ->
     P (all ++ CapterraScraper.removeDuplicateReviews all
                 (BaseScraper.filterReviewsByDateRange l s e))) ->
  P all ->
  Returns (CapterraScraper.paginate s e limit maxPages base fuel page all) P.
Proof.
  intros Hext Hstep. revert page all.
  induction fuel as [|fuel IH]; intros page all Hall; simpl.
  - by apply Returns_ret.
  - destruct (lengthLt all limit && (page <=? maxPages)%Z); [|by apply Returns_ret].
    apply Returns_bind; intros navOk. destruct (negb navOk); [by apply Returns_ret|].
    apply Returns_bind; intros blocked.
    destruct blocked; [apply Returns_bind; intros _; by apply Returns_ret|].
    apply Returns_bind; intros _. apply Returns_bind; intros _.
    apply (Returns_bind_with _ _ Q); [done|]. intros pageReviews HQ.
    destruct (length pageReviews =? 0)%nat; [by apply Returns_ret|].
    destruct (length _ =? 0)%nat; [apply Returns_ret; by apply Hstep|].
    apply Returns_bind; intros _. apply IH. by apply Hstep.
Qed.

Lemma TrustRadius_loadReviews_Returns (P Q : list review -> Prop)
    s e limit fuel attempts all :
  Returns TrustRadiusScraper.extractTrustRadiusReviews Q ->
  (forall all l, P all -> Q l ->
     P (all ++ TrustRadiusScraper.removeDuplicateReviews all
                 (BaseScraper.filterReviewsByDateRange l s e))) ->
  P all ->
  Returns (TrustRadiusScraper.loadReviews s e limit fuel attempts all) P.
Proof.
  intros Hext Hstep. revert attempts all.
  induction fuel as [|fuel IH]; intros attempts all Hall; simpl.
  - by apply Returns_ret.
  - destruct (lengthLt all limit && (attempts <? TrustRadiusScraper.maxAttempts)%Z);
      [|by apply Returns_ret].
    apply Returns_bind; intros _.
    apply (Returns_bind_with _ _ Q); [done|]. intros currentReviews HQ.
    destruct (length currentReviews =? 0)%nat; [by apply Returns_ret|].
    apply Returns_bind; intros loadedMore. destruct loadedMore.
    + apply Returns_bind; intros _. apply IH. by apply Hstep.
    + apply Returns_bind; intros nextPage. destruct nextPage.
      * apply Returns_bind; intros _. apply IH. by apply Hstep.
      * apply Returns_ret. by apply Hstep.
Qed.

(** The same for the harvests: [P] holds of the empty array and goes over to
    sublists. *)
Section Invariant.
Variables (P Q : list review -> Prop) (s e : jsval).
Hypothesis P_nil : P [].
Hypothesis P_sublist : forall l l', l' `sublist_of` l -> P l -> P l'.

Lemma G2_scrapeReviews_Returns url limit :
  (forall all l, P all -> P (all ++ BaseScraper.filterReviewsByDateRange l s e)) ->
  Returns (G2Scraper.scrapeReviews url s e limit) P.
Proof.
  intros Hstep. unfold G2Scraper.scrapeReviews, G2Scraper.scrapeReviewsBody.
  apply Returns_tryCatch.
  - destruct (negb (truthy url)); [apply Returns_throw|].
    apply Returns_bind; intros success.
    destruct (negb success); [by apply Returns_ret|].
    apply Returns_bind; intros blocked.
    destruct blocked; [apply Returns_bind; intros _; by apply Returns_ret|].
    apply Returns_bind; intros _.
    eapply Returns_bind_with; [by apply G2_paginate_Returns|].
    intros all Hall. apply Returns_ret.
    eapply P_sublist; [apply sliceArray_sublist | done].
  - intros msg. apply Returns_bind; intros _. by apply Returns_ret.
Qed.

Lemma Capterra_scrapeReviews_Returns url limit :
  Returns CapterraScraper.extractCapterraReviews Q ->
  (forall all l, P all -> Q l ->
     P (all ++ CapterraScraper.removeDuplicateReviews all
                 (BaseScraper.filterReviewsByDateRange l s e))) ->
  Returns (CapterraScraper.scrapeReviews url s e limit) P.
Proof.
  intros Hext Hstep. unfold CapterraScraper.scrapeReviews, CapterraScraper.scrapeReviewsBody.
  apply Returns_tryCatch.
  - destruct (negb (truthy url)); [apply Returns_throw|].
    eapply Returns_bind_with; [by apply (Capterra_paginate_Returns P Q)|].
    intros all Hall. apply Returns_ret.
    eapply P_sublist; [apply sliceArray_sublist | done].
  - intros msg. apply Returns_bind; intros _. by apply Returns_ret.
Qed.

Lemma TrustRadius_scrapeReviews_Returns url limit :
  Returns TrustRadiusScraper.extractTrustRadiusReviews Q ->
  (forall all l, P all -> Q l ->
     P (all ++ TrustRadiusScraper.removeDuplicateReviews all
                 (BaseScraper.filterReviewsByDateRange l s e))) ->
  Returns (TrustRadiusScraper.scrapeReviews url s e limit) P.
Proof.
  intros Hext Hstep.
  unfold TrustRadiusScraper.scrapeReviews, TrustRadiusScraper.scrapeReviewsBody.
  apply Returns_tryCatch.
  - destruct (negb (truthy url)); [apply Returns_throw|].
    apply Returns_bind; intros success.
    destruct (negb success); [by apply Returns_ret|].
    apply Returns_bind; intros blocked.
    destruct blocked; [apply Returns_bind; intros _; by apply Returns_ret|].
    apply Returns_bind; intros _.
    eapply Returns_bind_with; [by apply (TrustRadius_loadReviews_Returns P Q)|].
    intros all Hall. apply Returns_ret.
    eapply P_sublist; [apply sliceArray_sublist | done].
  - intros msg. apply Returns_bind; intros _. by apply Returns_ret.
Qed.

End Invariant.

(** X16: with a date range given, every record a harvest returns has a date
    that [moment] reads and that lies in the range, for each of the three
    scrapers, whatever the pages show. *)
Theorem X16_harvest_in_range (url s e : jsval) (limit : Z) (st : State W) :
  truthy s = true -> truthy e = true ->
  (exists l st', G2Scraper.scrapeReviews url s e limit st = (Ret l, st')
                 /\ Forall (InRange s e) l)
  /\ (exists l st', CapterraScraper.scrapeReviews url s e limit st = (Ret l, st')
                    /\ Forall (InRange s e) l)
  /\ (exists l st', TrustRadiusScraper.scrapeReviews url s e limit st = (Ret l, st')
                    /\ Forall (InRange s e) l).
Proof.
  intros Hs He.
  assert (Hsub : forall l l' : list review,
            l' `sublist_of` l -> Forall (InRange s e) l -> Forall (InRange s e) l').
  { intros l l' Hsl Hl. rewrite Forall_forall in Hl |- *. intros r Hr.
    apply Hl. by eapply elem_of_sublist. }
  assert (Hfil := fun l => filterReviewsByDateRange_InRange l s e Hs He).
  split; [|split].
  - destruct (G2_scrapeReviews_NoThrow url s e limit st) as (l & st' & Hrun).
    exists l, st'. split; [done|].
    eapply (G2_scrapeReviews_Returns (Forall (InRange s e))); [constructor|exact Hsub| |exact Hrun].
    intros all l0 Hall. apply Forall_app. split; [done|apply Hfil].
  - destruct (Capterra_scrapeReviews_NoThrow url s e limit st) as (l & st' & Hrun).
    exists l, st'. split; [done|].
    eapply (Capterra_scrapeReviews_Returns (Forall (InRange s e)) (fun _ => True));
      [constructor|exact Hsub|by intros ? ? ? ?| |exact Hrun].
    intros all l0 Hall _. apply Forall_app. split; [done|].
    eapply Hsub; [apply filter_sublist | apply Hfil].
  - destruct (TrustRadius_scrapeReviews_NoThrow url s e limit st) as (l & st' & Hrun).
    exists l, st'. split; [done|].
    eapply (TrustRadius_scrapeReviews_Returns (Forall (InRange s e)) (fun _ => True));
      [constructor|exact Hsub|by intros ? ? ? ?| |exact Hrun].
    intros all l0 Hall _. apply Forall_app. split; [done|].
    eapply Hsub; [apply filter_sublist | apply Hfil].
Qed.

(** Records with new contents, appended to records with distinct contents. *)
Lemma NoDup_contents_app (all page new : list review) :
  NoDup (content <$> all) -> NoDup (content <$> page) ->
  new `sublist_of` page ->
  (forall r, r ∈ new -> content r ∉ content <$> all) ->
  NoDup (content <$> (all ++ new)).
Proof.
  intros Hall Hpage Hsub Hnew. rewrite fmap_app. apply NoDup_app. split; [done|]. split.
  - intros c Hc (r & -> & Hr)%list_elem_of_fmap. by apply (Hnew r).
  - eapply sublist_NoDup; [exact Hpage | by apply fmap_sublist].
Qed.

(** X17: when no single page shows the same content twice, the Capterra and
    the TrustRadius harvest return records with pairwise different contents:
    a record whose content was collected from an earlier page is dropped. *)
Theorem X17_harvest_distinct_contents (url s e : jsval) (limit : Z) (st : State W) :
  (forall site w l, (pageExtract site w).2 = Some l -> NoDup (content <$> l)) ->
  (exists l st', CapterraScraper.scrapeReviews url s e limit st = (Ret l, st')
                 /\ NoDup (content <$> l))
  /\ (exists l st', TrustRadiusScraper.scrapeReviews url s e limit st = (Ret l, st')
                    /\ NoDup (content <$> l)).
Proof.
  intros Hpages.
  set (P := fun l : list review => NoDup (content <$> l)).
  assert (Hnil : P []) by constructor.
  assert (Hsub : forall l l' : list review, l' `sublist_of` l -> P l -> P l').
  { intros l l' Hsl Hl. eapply sublist_NoDup; [exact Hl | by apply fmap_sublist]. }
  split.
  - destruct (Capterra_scrapeReviews_NoThrow url s e limit st) as (l & st' & Hrun).
    exists l, st'. split; [done|].
    eapply (Capterra_scrapeReviews_Returns P P s e Hnil Hsub); [| |exact Hrun].
    + unfold CapterraScraper.extractCapterraReviews.
      intros st0 l0 st1. unfold bind, onWorld.
      destruct (pageExtract "Capterra" (world st0)) as [w [found|]] eqn:E.
      * intros [= <- _]. apply (Hpages "Capterra" (world st0)). by rewrite E.
      * unfold emit, ret. cbn. intros [= <- _]. constructor.
    + intros all l0 Hall Hl0. apply (NoDup_contents_app all l0); [done|done| |].
      * etrans; [apply filter_sublist | apply filterReviewsByDateRange_sublist].
      * unfold CapterraScraper.removeDuplicateReviews.
        intros r [_ Hk]%list_elem_of_In%filter_In. apply bool_decide_eq_true in Hk.
        intros Hin. apply Hk. by apply elem_of_list_to_set.
  - destruct (TrustRadius_scrapeReviews_NoThrow url s e limit st) as (l & st' & Hrun).
    exists l, st'. split; [done|].
    eapply (TrustRadius_scrapeReviews_Returns P P s e Hnil Hsub); [| |exact Hrun].
    + unfold TrustRadiusScraper.extractTrustRadiusReviews.
      intros st0 l0 st1. unfold bind, onWorld.
      destruct (pageExtract "TrustRadius" (world st0)) as [w [found|]] eqn:E.
      * intros [= <- _]. apply (Hpages "TrustRadius" (world st0)). by rewrite E.
      * unfold emit, ret. cbn. intros [= <- _]. constructor.
    + intros all l0 Hall Hl0. apply (NoDup_contents_app all l0); [done|done| |].
      * etrans; [apply filter_sublist | apply filterReviewsByDateRange_sublist].
      * unfold TrustRadiusScraper.removeDuplicateReviews.
        intros r [_ Hk]%list_elem_of_In%filter_In.
        apply andb_prop in Hk as [_ Hk]. apply bool_decide_eq_true in Hk.
        intros Hin. apply Hk. by apply elem_of_list_to_set.
Qed.

End Harvest.

Lemma X16_harvest_in_range_witness :
  exists l st',
    G2Scraper.scrapeReviews (M := IsoDates.isoMoment 0) (D := Sim.driver)
      (JStr Examples.slackUrl) (JStr "2024-02-02") (JStr "2024-02-04")
      10 (mkState Examples.twoPagesOfSix []) = (Ret l, st')
    /\ Forall (InRange (M := IsoDates.isoMoment 0) (JStr "2024-02-02") (JStr "2024-02-04")) l.
Proof.
  exact (proj1 (X16_harvest_in_range (M := IsoDates.isoMoment 0) (D := Sim.driver)
                  (JStr Examples.slackUrl) (JStr "2024-02-02") (JStr "2024-02-04")
                  10 (mkState Examples.twoPagesOfSix []) eq_refl eq_refl)).
Defined.

Lemma X17_harvest_distinct_contents_witness :
  exists l st',
    CapterraScraper.scrapeReviews (M := IsoDates.isoMoment 0) (D := Feed.driver)
      (JStr "https://www.capterra.com/p/1/slack/reviews")
      JUndefined JUndefined 40 (mkState 0 []) = (Ret l, st')
    /\ NoDup (content <$> l).
Proof.
  refine (proj1 (X17_harvest_distinct_contents (M := IsoDates.isoMoment 0) (D := Feed.driver)
                   (JStr "https://www.capterra.com/p/1/slack/reviews") JUndefined JUndefined
                   40 (mkState 0 []) _)).
  intros site w l [= <-]. apply NoDup_singleton.
Defined.

(** ** The pages a G2 harvest requests *)

Section G2Order.
Context {M : Moment} {W : Type} {D : PageDriver W}.

Lemma lowerChar_lower c : lowerChar (lowerChar c) = lowerChar c.
Proof. destruct c as [[] [] [] [] [] [] [] []]; reflexivity. Qed.

Lemma chars_toLowerCase s :
  Forall (fun c => lowerChar c = c) (list_ascii_of_string (toLowerCase s)).
Proof.
  induction s as [|c t IH]; simpl; [constructor|].
  constructor; [apply lowerChar_lower | done].
Qed.

Lemma chars_dashSpaces b s :
  Forall (fun c => lowerChar c = c) (list_ascii_of_string s) ->
  Forall (fun c => isSpace c = false /\ lowerChar c = c)
    (list_ascii_of_string (dashSpaces b s)).
Proof.
  revert b. induction s as [|c t IH]; intros b; simpl; [constructor|].
  intros [Hc Ht]%Forall_cons. destruct (isSpace c) eqn:Ec.
  - destruct b; [by apply IH|]. simpl. constructor; [done|by apply IH].
  - simpl. constructor; [done|by apply IH].
Qed.

(** X18: on G2 the search for a company never fails, whatever the site
    answers: it requests the address made of the lower-cased name with its
    whitespace turned into dashes, once, and returns that address even when
    the page does not load; the address holds no whitespace and no capital
    letter of the name. *)
Theorem X18_G2_searchForCompany_url (companyName : string) (st : State W) :
  exists st',
    G2Scraper.searchForCompany companyName st
    = (Ret (JStr ("https://www.g2.com/products/"
                  ++ dashSpaces false (toLowerCase companyName) ++ "/reviews")%string), st')
    /\ visits (trace st')
       = visits (trace st)
         ++ [("https://www.g2.com/products/"
              ++ dashSpaces false (toLowerCase companyName) ++ "/reviews")%string]
    /\ Forall (fun c => isSpace c = false /\ lowerChar c = c)
         (list_ascii_of_string (dashSpaces false (toLowerCase companyName))).
Proof.
  unfold G2Scraper.searchForCompany, bind. rewrite navigateToPage_run.
  eexists. split; [reflexivity|]. split.
  - cbn [trace]. rewrite visits_app. simpl. by destruct (pageGoto _ _).2.
  - apply chars_dashSpaces, chars_toLowerCase.
Qed.

Local Opaque BaseScraper.navigateToPage BaseScraper.checkForBlocking
  BaseScraper.handleCaptcha G2Scraper.extractG2Reviews BaseScraper.titleBlocked.

(** The loop requests the pages one after the other. *)
Lemma G2_paginate_pages s e limit maxPages base fuel page all (st : State W) r st' :
  G2Scraper.paginate s e limit maxPages base fuel page all st = (r, st') ->
  exists k,
    k <= fuel
    /\ visits (trace st')
       = visits (trace st) ++ (G2Scraper.pageUrl base <$> pagesFrom page k).
Proof.
  revert page all st. induction fuel as [|fuel IH]; intros page all st.
  - intros [= _ <-]. exists 0. by rewrite app_nil_r.
  - rewrite G2_paginate_turn.
    destruct (lengthLt all limit && (page <=? maxPages)%Z);
      [|intros [= _ <-]; exists 0; split; [lia | by rewrite app_nil_r]].
    assert (Hone : forall t more,
              visits more = [] ->
              exists k, k <= S fuel
                /\ visits ((t ++ Visit (G2Scraper.pageUrl base page) :: []) ++ more)
                   = visits t ++ (G2Scraper.pageUrl base <$> pagesFrom page k)).
    { intros t more Hmore. exists 1. split; [lia|].
      rewrite !visits_app, Hmore, app_nil_r. done. }
    unfold bind. rewrite navigateToPage_run.
    destruct (pageGoto _ (world st)) as [w1 []]; cbn [fst snd negb].
    2: { intros [= _ <-]. cbn [trace]. exists 1. split; [lia|]. by rewrite visits_app. }
    rewrite checkForBlocking_run. cbn [world trace].
    destruct (pageTitle w1) as [w2 title]; cbn [fst snd].
    destruct (match title with Some t => BaseScraper.titleBlocked t | None => false end).
    { unfold emit, ret. cbn. intros [= _ <-]. cbn [trace]. by apply Hone. }
    rewrite handleCaptcha_run. cbn [world trace]. unfold onWorld_ at 1. cbn [world trace].
    rewrite extractG2Reviews_run. cbn [world trace].
    destruct (pageExtract "G2" _) as [w3 found]; cbn [fst snd].
    destruct (length (default [] found) =? 0)%nat.
    { intros [= _ <-]. cbn [trace]. exists 1. split; [lia|]. by rewrite visits_app. }
    cbv zeta.
    destruct (length (BaseScraper.filterReviewsByDateRange _ s e) =? 0)%nat.
    { intros [= _ <-]. cbn [trace]. exists 1. split; [lia|]. by rewrite visits_app. }
    unfold onWorld_ at 1. cbn [world trace]. intros (k & Hk & Hv)%IH.
    cbn [trace] in Hv. exists (S k). split; [lia|].
    rewrite Hv, visits_app. simpl. by rewrite <- app_assoc.
Qed.

(** X19: a G2 harvest requests the address it is given and then the result
    pages 1, 2, ..., [k] of that address without its query, in this order,
    none twice and none skipped, for some [k] of at most
    [Math.ceil(limit / 10)]; without an address it requests nothing. *)
Theorem X19_G2_pages_in_order (url s e : jsval) (limit : Z) (st : State W) :
  exists l st' k,
    G2Scraper.scrapeReviews url s e limit st = (Ret l, st')
    /\ (Z.of_nat k <= Z.max 0 (ceilDiv limit 10))%Z
    /\ visits (trace st')
       = visits (trace st)
         ++ (if truthy url
             then orEmpty url
                  :: (G2Scraper.pageUrl (beforeQuery (orEmpty url)) <$> pagesFrom 1 k)
             else []).
Proof.
  unfold G2Scraper.scrapeReviews, G2Scraper.scrapeReviewsBody, tryCatch.
  destruct (truthy url); cbn [negb].
  2: { unfold throw, bind, emit, ret. cbn. eexists _, _, 0. split; [reflexivity|].
       split; [lia|]. cbn [trace]. by rewrite visits_app. }
  unfold bind at 1 2. rewrite navigateToPage_run.
  destruct (pageGoto _ (world st)) as [w1 []]; cbn [fst snd negb].
  2: { unfold ret. eexists _, _, 0. split; [reflexivity|]. split; [lia|].
       cbn [trace]. by rewrite visits_app. }
  unfold bind at 1 2. rewrite checkForBlocking_run. cbn [world trace].
  destruct (pageTitle w1) as [w2 title]; cbn [fst snd].
  destruct (match title with Some t => BaseScraper.titleBlocked t | None => false end).
  { unfold bind, emit, ret. cbn. eexists _, _, 0. split; [reflexivity|]. split; [lia|].
    cbn [trace]. rewrite !visits_app. simpl. by rewrite app_nil_r. }
  unfold bind at 1 2. rewrite handleCaptcha_run. cbn [world trace].
  unfold bind.
  destruct (G2Scraper.paginate _ _ _ _ _ _ _ _ _) as [[all|msg] st1] eqn:Hpag.
  - apply G2_paginate_pages in Hpag as (k & Hk & Hv). cbn [trace] in Hv.
    unfold ret. eexists _, _, k. split; [reflexivity|]. split; [lia|].
    rewrite Hv, visits_app. simpl. by rewrite <- app_assoc.
  - destruct (G2_paginate_NoThrow s e limit (ceilDiv limit 10) (beforeQuery (orEmpty url))
                (Z.to_nat (ceilDiv limit 10)) 1 []
                {| world := pageCaptcha w2; trace := trace st ++ [Visit (orEmpty url)] |})
      as (a & st2 & Hnt).
    rewrite Hnt in Hpag. discriminate.
Qed.

Local Transparent BaseScraper.navigateToPage BaseScraper.checkForBlocking
  BaseScraper.handleCaptcha G2Scraper.extractG2Reviews BaseScraper.titleBlocked.

End G2Order.

(** ** Normalising twice *)

Section Renormalise.
Context {M : Moment}.
Import Helpers.

Lemma orNull_idempotent v : orNull (orNull v) = orNull v.
Proof. unfold orNull. destruct (truthy v) eqn:E; [by rewrite E|done]. Qed.

Lemma cleanField_idempotent v :
  orNull (JStr (cleanText (orNull (JStr (cleanText v))))) = orNull (JStr (cleanText v)).
Proof.
  unfold orNull at 2. destruct (truthy (JStr (cleanText v))) eqn:E.
  - by rewrite cleanText_again.
  - unfold orNull at 2. rewrite E. reflexivity.
Qed.

Lemma mathRound_integer (k : Z) (q : Q) : (q == inject_Z k)%Q -> mathRound q = k.
Proof.
  intros Hq. destruct (mathRound_bounds q) as [Hup Hlow].
  assert (inject_Z (mathRound q) < inject_Z (k + 1))%Q as H1.
  { rewrite inject_Z_plus. change (inject_Z 1) with 1%Q. lra. }
  assert (inject_Z (k + -1) < inject_Z (mathRound q))%Q as H2.
  { rewrite inject_Z_plus. change (inject_Z (-1)) with (-1)%Q. lra. }
  rewrite <- Zlt_Qlt in H1, H2. lia.
Qed.

Lemma rating_idempotent x :
  numOrNull (normalizeRating (numOrNull (normalizeRating x))) = numOrNull (normalizeRating x).
Proof.
  assert (Hnull : numOrNull (normalizeRating NNull) = NNull) by reflexivity.
  assert (Hzero : numOrNull 0 = NNull) by reflexivity.
  destruct x as [| | |v]; [reflexivity..|].
  unfold normalizeRating at 2 3.
  destruct (numFalsy (Num v) || Qlt_bool v 0) eqn:E1; [by rewrite Hzero, Hnull|].
  destruct (Qlt_bool 5 v) eqn:E2; [reflexivity|].
  apply orb_false_iff in E1 as [Hnz Hnn].
  apply Qlt_bool_false in Hnn, E2.
  set (k := mathRound (v * 10)).
  set (q := Qred (inject_Z k / 10)).
  assert (q == inject_Z k / 10)%Q as Hq by apply Qred_correct.
  destruct (mathRound_bounds (v * 10)) as [Hup Hlow]. fold k in Hup, Hlow.
  assert (0 <= k <= 50)%Z as Hk.
  { assert (inject_Z (-1) < inject_Z k)%Q as H1
      by (change (inject_Z (-1)) with (-1)%Q; lra).
    assert (inject_Z k < inject_Z 51)%Q as H2
      by (change (inject_Z 51) with 51%Q; lra).
    rewrite <- Zlt_Qlt in H1, H2. lia. }
  assert (Hnq : numOrNull q = if Qeq_bool q 0 then NNull else Num q) by reflexivity.
  rewrite Hnq. destruct (Qeq_bool q 0) eqn:E0; [by rewrite Hnull|].
  assert (0 <= inject_Z k)%Q as Hk0
    by (change 0%Q with (inject_Z 0); rewrite <- Zle_Qle; lia).
  assert (inject_Z k <= 50)%Q as Hk50
    by (change 50%Q with (inject_Z 50); rewrite <- Zle_Qle; lia).
  assert (Hq' : (q == inject_Z k * (1 # 10))%Q) by (rewrite Hq; reflexivity).
  unfold normalizeRating, numFalsy. rewrite E0.
  assert (Qlt_bool q 0 = false) as -> by (apply Qlt_bool_false; lra).
  assert (Qlt_bool 5 q = false) as -> by (apply Qlt_bool_false; lra).
  cbn [orb]. rewrite (mathRound_integer k (q * 10)) by lra. exact Hnq.
Qed.

Lemma parseDate_idempotent v :
  (forall d, parseDate v = JStr d ->
     exists t, momentStrict "YYYY-MM-DD" d = Some t /\ formatYMD t = d) ->
  orNull (parseDate (orNull (parseDate v))) = orNull (parseDate v).
Proof.
  intros Hback. unfold orNull at 2. destruct (truthy (parseDate v)) eqn:E;
    [|unfold orNull at 2; rewrite E; reflexivity].
  destruct (parseDate v) as [| |d] eqn:Ep; [done..|].
  destruct (Hback d eq_refl) as (t & Ht & Hf).
  unfold parseDate. rewrite E. simpl. by rewrite Ht, Hf.
Qed.

(** X20: normalising a normalised record changes nothing, provided the
    strict parser of [moment] reads the date the first normalisation wrote
    and formats it to the same text: [createReviewObject] is idempotent (up
    to the time stamp [scraped_at]). *)
Theorem X20_createReviewObject_idempotent (r : review) :
  (forall d, parseDate (date r) = JStr d ->
     exists t, momentStrict "YYYY-MM-DD" d = Some t /\ formatYMD t = d) ->
  createReviewObject (createReviewObject r) = createReviewObject r.
Proof.
  intros Hback. unfold createReviewObject. cbn [id title content rating author date source pros cons].
  rewrite !orNull_idempotent, !cleanField_idempotent, rating_idempotent.
  by rewrite (parseDate_idempotent _ Hback).
Qed.

End Renormalise.

Lemma X20_createReviewObject_idempotent_witness :
  Helpers.createReviewObject (M := IsoDates.isoMoment 0)
    (Helpers.createReviewObject (M := IsoDates.isoMoment 0) Examples.fromG2)
  = Helpers.createReviewObject (M := IsoDates.isoMoment 0) Examples.fromG2.
Proof.
  apply (X20_createReviewObject_idempotent (M := IsoDates.isoMoment 0) Examples.fromG2).
  intros d Hd. vm_compute in Hd. injection Hd as <-.
  exists 1709251200000%Z. split; vm_compute; reflexivity.
Defined.

(** ** The requests of the Capterra and TrustRadius harvests *)

Section OtherRequests.
Context {M : Moment} {W : Type} {D : PageDriver W}.

Lemma extractCapterraReviews_run (st : State W) :
  exists more,
    CapterraScraper.extractCapterraReviews st
    = (Ret (default [] (pageExtract "Capterra" (world st)).2),
       mkState (pageExtract "Capterra" (world st)).1 (trace st ++ more))
    /\ visits more = [].
Proof.
  unfold CapterraScraper.extractCapterraReviews, bind, onWorld, ret, emit.
  destruct (pageExtract "Capterra" (world st)) as [w [l|]]; simpl.
  - exists []. by rewrite app_nil_r.
  - by eexists.
Qed.

Lemma Capterra_paginate_turn s e limit maxPages base fuel page all :
  CapterraScraper.paginate s e limit maxPages base (S fuel) page all
  = if lengthLt all limit && (page <=? maxPages)%Z then
      navOk <- BaseScraper.navigateToPage (base ++ "?page=" ++ showZ page)%string ;;
      if negb navOk then ret all else
      blocked <- BaseScraper.checkForBlocking ;;
      if blocked
      then emit (LogError "Blocked by Capterra") ;;; ret all
      else
        BaseScraper.handleCaptcha ;;;
        onWorld_ pageSettle ;;;
        pageReviews <- CapterraScraper.extractCapterraReviews ;;
        if (length pageReviews =? 0)%nat then ret all else
        let filtered := BaseScraper.filterReviewsByDateRange pageReviews s e in
        let unique := CapterraScraper.removeDuplicateReviews all filtered in
        if (length filtered =? 0)%nat then ret (all ++ unique) else
        onWorld_ pageSettle ;;;
        CapterraScraper.paginate s e limit maxPages base fuel (page + 1)%Z (all ++ unique)
    else ret all.
Proof. reflexivity. Qed.

Local Opaque BaseScraper.navigateToPage BaseScraper.checkForBlocking
  BaseScraper.handleCaptcha CapterraScraper.extractCapterraReviews
  BaseScraper.titleBlocked.

Lemma Capterra_paginate_pages s e limit maxPages base fuel page all (st : State W) r st' :
  CapterraScraper.paginate s e limit maxPages base fuel page all st = (r, st') ->
  exists k,
    k <= fuel
    /\ visits (trace st')
       = visits (trace st)
         ++ ((fun n => base ++ "?page=" ++ showZ n)%string <$> pagesFrom page k).
Proof.
  revert page all st. induction fuel as [|fuel IH]; intros page all st.
  - intros [= _ <-]. exists 0. by rewrite app_nil_r.
  - rewrite Capterra_paginate_turn.
    destruct (lengthLt all limit && (page <=? maxPages)%Z);
      [|intros [= _ <-]; exists 0; split; [lia | by rewrite app_nil_r]].
    unfold bind. rewrite navigateToPage_run.
    destruct (pageGoto _ (world st)) as [w1 []]; cbn [fst snd negb].
    2: { intros [= _ <-]. cbn [trace]. exists 1. split; [lia|]. by rewrite visits_app. }
    rewrite checkForBlocking_run. cbn [world trace].
    destruct (pageTitle w1) as [w2 title]; cbn [fst snd].
    destruct (match title with Some t => BaseScraper.titleBlocked t | None => false end).
    { unfold emit, ret. cbn. intros [= _ <-]. cbn [trace]. exists 1. split; [lia|].
      rewrite !visits_app. simpl. by rewrite app_nil_r. }
    rewrite handleCaptcha_run. cbn [world trace]. unfold onWorld_ at 1. cbn [world trace].
    match goal with
    | |- context [CapterraScraper.extractCapterraReviews ?x] =>
        destruct (extractCapterraReviews_run x) as (more & -> & Hmore)
    end.
    cbn [world trace].
    destruct (pageExtract "Capterra" _) as [w3 found]; cbn [fst snd].
    destruct (length (default [] found) =? 0)%nat.
    { intros [= _ <-]. cbn [trace]. exists 1. split; [lia|].
      rewrite !visits_app, Hmore. simpl. by rewrite app_nil_r. }
    cbv zeta.
    destruct (length (BaseScraper.filterReviewsByDateRange _ s e) =? 0)%nat.
    { intros [= _ <-]. cbn [trace]. exists 1. split; [lia|].
      rewrite !visits_app, Hmore. simpl. by rewrite app_nil_r. }
    unfold onWorld_ at 1. cbn [world trace]. intros (k & Hk & Hv)%IH.
    cbn [trace] in Hv. exists (S k). split; [lia|].
    rewrite Hv, !visits_app, Hmore. simpl. by rewrite app_nil_r, <- app_assoc.
Qed.

Local Transparent BaseScraper.navigateToPage BaseScraper.checkForBlocking
  BaseScraper.handleCaptcha CapterraScraper.extractCapterraReviews
  BaseScraper.titleBlocked.

(** The loop of TrustRadius requests no address. *)
Lemma TrustRadius_loadReviews_visits s e limit fuel attempts all (st : State W) r st' :
  TrustRadiusScraper.loadReviews s e limit fuel attempts all st = (r, st') ->
  visits (trace st') = visits (trace st).
Proof.
  set (R := fun a b : State W => visits (trace b) = visits (trace a)).
  assert (Hrefl : forall a, R a a) by done.
  assert (Htrans : forall a b c, R a b -> R b c -> R a c).
  { unfold R. intros a b c H1 H2. by rewrite H2, H1. }
  assert (Hw : forall A (op : W -> W * A), Steps R (onWorld op)).
  { intros A op st0 r0 st1. unfold onWorld. destruct (op (world st0)). by intros [= _ <-]. }
  assert (Hw_ : forall op : W -> W, Steps R (onWorld_ op)).
  { intros op st0 r0 st1. by intros [= _ <-]. }
  assert (He : forall msg, Steps R (emit (W := W) (LogError msg))).
  { intros msg st0 r0 st1 [= _ <-]. unfold R. cbn. rewrite visits_app. simpl.
    by rewrite app_nil_r. }
  enough (Steps R (TrustRadiusScraper.loadReviews s e limit fuel attempts all)) as H
    by (intros Hrun; exact (H _ _ _ Hrun)).
  revert attempts all. induction fuel as [|fuel IH]; intros attempts all; simpl.
  - by apply Steps_ret.
  - destruct (lengthLt all limit && (attempts <? TrustRadiusScraper.maxAttempts)%Z);
      [|by apply Steps_ret].
    apply Steps_bind; [done|apply Hw_|]. intros _.
    apply Steps_bind; [done| |].
    { unfold TrustRadiusScraper.extractTrustRadiusReviews.
      apply Steps_bind; [done|apply Hw|]. intros [l|]; [by apply Steps_ret|].
      apply Steps_bind; [done|apply He|]. intros _. by apply Steps_ret. }
    intros currentReviews.
    destruct (length currentReviews =? 0)%nat; [by apply Steps_ret|].
    apply Steps_bind; [done|apply Hw|]. intros [].
    + apply Steps_bind; [done|apply Hw_|]. intros _. apply IH.
    + apply Steps_bind; [done|apply Hw|]. intros [].
      * apply Steps_bind; [done|apply Hw_|]. intros _. apply IH.
      * by apply Steps_ret.
Qed.

(** X21: a Capterra harvest requests the result pages [?page=1], [?page=2],
    ..., [?page=k] of the address it is given, freed of its trailing
    slashes, in this order, for some [k] of at most [Math.ceil(limit / 20)],
    and never the address itself; a TrustRadius harvest requests the address
    it is given, once, and nothing else (it moves on by clicks); without an
    address neither requests anything. *)
Theorem X21_harvest_requests (url s e : jsval) (limit : Z) (st : State W) :
  (exists l st' k,
     CapterraScraper.scrapeReviews url s e limit st = (Ret l, st')
     /\ (Z.of_nat k <= Z.max 0 (ceilDiv limit 20))%Z
     /\ visits (trace st')
        = visits (trace st)
          ++ (if truthy url
              then (fun n => stripTrailingSlashes (orEmpty url) ++ "?page=" ++ showZ n)%string
                   <$> pagesFrom 1 k
              else []))
  /\ (exists l st',
        TrustRadiusScraper.scrapeReviews url s e limit st = (Ret l, st')
        /\ visits (trace st')
           = visits (trace st) ++ (if truthy url then [orEmpty url] else [])).
Proof.
  split.
  - unfold CapterraScraper.scrapeReviews, CapterraScraper.scrapeReviewsBody, tryCatch.
    destruct (truthy url); cbn [negb].
    2: { unfold throw, bind, emit, ret. cbn. eexists _, _, 0. split; [reflexivity|].
         split; [lia|]. cbn [trace]. by rewrite visits_app. }
    unfold bind.
    destruct (CapterraScraper.paginate _ _ _ _ _ _ _ _ _) as [[all|msg] st1] eqn:Hpag.
    + apply Capterra_paginate_pages in Hpag as (k & Hk & Hv).
      unfold ret. eexists _, _, k. split; [reflexivity|]. split; [lia|]. exact Hv.
    + destruct (Capterra_paginate_NoThrow s e limit (ceilDiv limit 20)
                  (stripTrailingSlashes (orEmpty url)) (Z.to_nat (ceilDiv limit 20)) 1 [] st)
        as (a & st2 & Hnt).
      rewrite Hnt in Hpag. discriminate.
  - unfold TrustRadiusScraper.scrapeReviews, TrustRadiusScraper.scrapeReviewsBody, tryCatch.
    destruct (truthy url); cbn [negb].
    2: { unfold throw, bind, emit, ret. cbn. eexists _, _. split; [reflexivity|].
         cbn [trace]. by rewrite visits_app. }
    unfold bind at 1 2. rewrite navigateToPage_run.
    destruct (pageGoto _ (world st)) as [w1 []]; cbn [fst snd negb].
    2: { unfold ret. eexists _, _. split; [reflexivity|]. cbn [trace]. by rewrite visits_app. }
    unfold bind at 1 2. rewrite checkForBlocking_run. cbn [world trace].
    destruct (pageTitle w1) as [w2 title]; cbn [fst snd].
    destruct (match title with Some t => BaseScraper.titleBlocked t | None => false end).
    { unfold bind, emit, ret. cbn. eexists _, _. split; [reflexivity|].
      cbn [trace]. rewrite !visits_app. simpl. by rewrite app_nil_r. }
    unfold bind at 1 2. rewrite handleCaptcha_run. cbn [world trace].
    unfold bind.
    destruct (TrustRadiusScraper.loadReviews _ _ _ _ _ _ _) as [[all|msg] st1] eqn:Hload.
    + apply TrustRadius_loadReviews_visits in Hload. cbn [trace] in Hload.
      unfold ret. eexists _, _. split; [reflexivity|]. by rewrite Hload, visits_app.
    + destruct (TrustRadius_loadReviews_NoThrow s e limit
                  (Z.to_nat TrustRadiusScraper.maxAttempts) 0 []
                  {| world := pageCaptcha w2; trace := trace st ++ [Visit (orEmpty url)] |})
        as (a & st2 & Hnt).
      rewrite Hnt in Hload. discriminate.
Qed.

Lemma last_stripTrailingSlashes s c :
  last (list_ascii_of_string (stripTrailingSlashes s)) = Some c -> c <> "/"%char.
Proof.
  induction s as [|c0 t IH]; simpl; [done|].
  destruct (stripTrailingSlashes t) as [|c' t'] eqn:Et.
  - destruct (Ascii.eqb_spec c0 "/"); simpl; [done|]. by intros [= <-].
  - simpl. simpl in IH. exact IH.
Qed.

(** X22: the searches of Capterra and TrustRadius never throw; Capterra
    gives [null] or the address of the product without trailing slashes
    followed by [/reviews] (so never a double slash in front of it);
    TrustRadius gives [null] or an address that holds [/reviews]. *)
Theorem X22_search_results (companyName : string) (st : State W) :
  (exists v st',
     CapterraScraper.searchForCompany companyName st = (Ret v, st')
     /\ (v = JNull
         \/ exists link,
              v = JStr (link ++ "/reviews")%string
              /\ forall c, last (list_ascii_of_string link) = Some c -> c <> "/"%char))
  /\ (exists v st',
        TrustRadiusScraper.searchForCompany companyName st = (Ret v, st')
        /\ (v = JNull \/ exists u, v = JStr u /\ includes u "/reviews" = true)).
Proof.
  split.
  - assert (Hnt : NoThrow (CapterraScraper.searchForCompany companyName)).
    { unfold CapterraScraper.searchForCompany. nothrow. }
    destruct (Hnt st) as (v & st' & Hrun). exists v, st'. split; [done|].
    revert Hrun. generalize st, v, st'.
    change (Returns (CapterraScraper.searchForCompany companyName)
              (fun v => v = JNull
                        \/ exists link,
                             v = JStr (link ++ "/reviews")%string
                             /\ forall c, last (list_ascii_of_string link) = Some c
                                          -> c <> "/"%char)).
    unfold CapterraScraper.searchForCompany, CapterraScraper.searchForCompanyBody.
    apply Returns_tryCatch.
    + apply Returns_bind; intros success.
      destruct (negb success); [apply Returns_ret; by left|].
      apply Returns_bind; intros _. apply Returns_bind; intros found.
      destruct found as [productLink|]; [|apply Returns_throw].
      destruct (truthy productLink).
      * apply Returns_ret. right. eexists. split; [reflexivity|].
        apply last_stripTrailingSlashes.
      * apply Returns_bind; intros _. apply Returns_ret. by left.
    + intros msg. apply Returns_bind; intros _. apply Returns_ret. by left.
  - assert (Hnt : NoThrow (TrustRadiusScraper.searchForCompany companyName)).
    { unfold TrustRadiusScraper.searchForCompany. nothrow. }
    destruct (Hnt st) as (v & st' & Hrun). exists v, st'. split; [done|].
    revert Hrun. generalize st, v, st'.
    change (Returns (TrustRadiusScraper.searchForCompany companyName)
              (fun v => v = JNull \/ exists u, v = JStr u /\ includes u "/reviews" = true)).
    unfold TrustRadiusScraper.searchForCompany, TrustRadiusScraper.searchForCompanyBody.
    apply Returns_tryCatch.
    + apply Returns_bind; intros success.
      destruct (negb success); [apply Returns_ret; by left|].
      apply Returns_bind; intros _. apply Returns_bind; intros found.
      destruct found as [productLink|]; [|apply Returns_throw].
      destruct (truthy productLink).
      * apply Returns_ret. right. eexists. split; [reflexivity|].
        destruct (includes (orEmpty productLink) "/reviews") eqn:E; [done|].
        apply includes_spec. by exists (orEmpty productLink), ""%string.
      * apply Returns_bind; intros _. apply Returns_ret. by left.
    + intros msg. apply Returns_bind; intros _. apply Returns_ret. by left.
Qed.

End OtherRequests.
